(** * Stage-one graph slicing pipeline: extractor, UDF filter and verifiers

    A shallow embedding of the Python sources under [src/stage_one]:

    - [simple_subgraph_extractor.py]  (module [Extractor])
    - [udf_filter.py]                 (module [UdfFilter])
    - [verify_subgraph_extraction.py] (module [SubgraphVerifier])
    - [verify_udf_filtering.py]       (module [UdfVerifier])
    - [schema_report.py]              (module [SchemaReport])

    Text is modelled as [string], a sequence of [ascii] code points: the
    code points below 256 of Python's [str].  On these the tables of
    [str.isspace], of the pattern class [\s] and of [str.lower] are the ones
    given below; above them Python knows further whitespace, which the model
    does not cover.  Python [set]s of ids are [gset string], attribute
    dictionaries are [gmap string string], dictionaries whose iteration order
    is observed are association lists, and a function that writes a file
    returns the text it writes.  Progress messages printed to the console
    are not modelled. *)

From Stdlib Require Import String Ascii List Bool Arith Lia.
From stdpp Require Import base option list sorting gmap strings pretty.

(* [set_solver] clears hypotheses by name and warns when one is absent. *)
#[local] Set Warnings "-clear-no-such-hyp".

(** ** Python string primitives *)

Module Py.

(** The double quote and the line feed, which cannot be typed in a literal. *)
Definition dquote : ascii := "034"%char.
Definition nl : ascii := "010"%char.

(** [str.isspace] on one code point below 256: TAB..CR, FS..US, SPACE,
    NEL (0x85) and NBSP (0xA0).  The regular expression class [\s] of a
    [str] pattern is the same set. *)
Definition isspace (c : ascii) : bool :=
  let n := nat_of_ascii c in
  (((9 <=? n) && (n <=? 13)) || ((28 <=? n) && (n <=? 32))
  || (n =? 133) || (n =? 160))%nat.

(** [str.lower] on one code point below 256. *)
Definition lower_char (c : ascii) : ascii :=
  let n := nat_of_ascii c in
  if (((65 <=? n) && (n <=? 90))
      || ((192 <=? n) && (n <=? 222) && negb (n =? 215)))%nat
  then ascii_of_nat (n + 32) else c.

Fixpoint lower (s : string) : string :=
  match s with
  | EmptyString => EmptyString
  | String c s' => String (lower_char c) (lower s')
  end.

Fixpoint lstrip (s : string) : string :=
  match s with
  | EmptyString => EmptyString
  | String c s' => if isspace c then lstrip s' else s
  end.

Fixpoint rstrip (s : string) : string :=
  match s with
  | EmptyString => EmptyString
  | String c s' =>
      match rstrip s' with
      | EmptyString => if isspace c then EmptyString else String c EmptyString
      | r => String c r
      end
  end.

Definition strip (s : string) : string := lstrip (rstrip s).

Definition startswith (p s : string) : bool := String.prefix p s.

(** [s.endswith(suf)]. *)
Fixpoint endswith (suf s : string) : bool :=
  if String.eqb s suf then true
  else match s with
       | EmptyString => false
       | String _ s' => endswith suf s'
       end.

(** [sub in s]. *)
Fixpoint contains (sub s : string) : bool :=
  if String.prefix sub s then true
  else match s with
       | EmptyString => false
       | String _ s' => contains sub s'
       end.

(** [s.split(sep)] for a one-character separator: never the empty list. *)
Fixpoint split (sep : ascii) (s : string) : list string :=
  match s with
  | EmptyString => [EmptyString]
  | String c s' =>
      if Ascii.eqb c sep then EmptyString :: split sep s'
      else match split sep s' with
           | h :: t => String c h :: t
           | [] => [String c EmptyString]
           end
  end.

(** [sep.join(parts)]. *)
Definition join (sep : string) (parts : list string) : string :=
  String.concat sep parts.

Definition lines (s : string) : list string := split nl s.
Definition unlines (ls : list string) : string := join (String nl EmptyString) ls.

(** Longest prefix of characters satisfying [p], and what follows it: the
    greedy match of a character class followed by a character outside it. *)
Fixpoint span (p : ascii -> bool) (s : string) : string * string :=
  match s with
  | EmptyString => (EmptyString, EmptyString)
  | String c s' =>
      if p c then let '(a, b) := span p s' in (String c a, b)
      else (EmptyString, s)
  end.

Fixpoint drop (n : nat) (s : string) : string :=
  match n, s with
  | O, _ => s
  | S n', String _ s' => drop n' s'
  | S _, EmptyString => EmptyString
  end.

(** Test text is written with an apostrophe for every double quote. *)
Fixpoint dq (s : string) : string :=
  match s with
  | EmptyString => EmptyString
  | String c s' => String (if Ascii.eqb c "'"%char then dquote else c) (dq s')
  end.

End Py.

(** ** The regular expressions of the four scripts

    Each pattern is compiled by hand into the matcher that Python's
    backtracking engine amounts to on it; in the comments [Q] stands for the
    double quote character.  A character class followed by a
    character outside the class admits one split only, so [span] is the
    greedy match; the one real choice point, the greedy [.*] in front of
    [label=], is resolved by trying the latest start first. *)

Module Re.
Import Py.

Definition notquote (c : ascii) : bool := negb (Ascii.eqb c dquote).

(** A literal at the head of [s]: what follows it. *)
Definition literal (p s : string) : option string :=
  if String.prefix p s then Some (drop (String.length p) s) else None.

(** [\s*] at the head of [s] when the next pattern item is not a space. *)
Definition skip_ws (s : string) : string := snd (span isspace s).

(** [Q([^Q]+)Q] at the head of [s]: the group and what follows the closing
    quote. *)
Definition quoted_id (s : string) : option (string * string) :=
  match s with
  | String c r =>
      if Ascii.eqb c dquote then
        match span notquote r with
        | (String a id, String c' r2) =>
            if Ascii.eqb c' dquote then Some (String a id, r2) else None
        | _ => None
        end
      else None
  | EmptyString => None
  end.

(** [re.match(r'Q([^Q]+)Q\s*\[', line)]: group 1. *)
Definition node_match (line : string) : option string :=
  '(node_id, r) ← quoted_id line;
  _ ← literal "[" (skip_ws r);
  Some node_id.

(** [label=Q([^Q]+)Q.*\];] at the head of [s]: group 3. *)
Definition label_here (s : string) : option string :=
  r ← literal (String.append "label=" (String dquote EmptyString)) s;
  match span notquote r with
  | (String a ty, String c' r2) =>
      if Ascii.eqb c' dquote && contains "];" r2 then Some (String a ty) else None
  | _ => None
  end.

(** [.*label=Q([^Q]+)Q.*\];] at the head of [s]: the greedy [.*] gives up
    characters one at a time from the end of the line, so the match found is
    the one with the latest start. *)
Fixpoint label_search (s : string) : option string :=
  match s with
  | EmptyString => None
  | String _ s' =>
      match label_search s' with
      | Some ty => Some ty
      | None => label_here s
      end
  end.

(** [re.match(r'Q([^Q]+)Q\s*->\s*Q([^Q]+)Q\s*\[.*label=Q([^Q]+)Q.*\];', line)]:
    groups 1, 2 and 3. *)
Definition edge_match (line : string) : option (string * string * string) :=
  '(source, r1) ← quoted_id line;
  r2 ← literal "->" (skip_ws r1);
  '(target, r3) ← quoted_id (skip_ws r2);
  r4 ← literal "[" (skip_ws r3);
  edge_type ← label_search r4;
  Some (source, target, edge_type).

(** [KEY=Q], a possibly empty run of non-quote characters (group 1) and
    [Q], at the head of [s]. *)
Definition attr_here (key s : string) : option string :=
  r ← literal (String.append key (String "="%char (String dquote EmptyString))) s;
  match span notquote r with
  | (v, String c' _) => if Ascii.eqb c' dquote then Some v else None
  | _ => None
  end.

(** [re.search] for that pattern in [text]: group 1 of the leftmost match.  The
    patterns contain no dot, so [re.DOTALL] changes nothing. *)
Fixpoint attr_search (key s : string) : option string :=
  match attr_here key s with
  | Some v => Some v
  | None =>
      match s with
      | EmptyString => None
      | String _ s' => attr_search key s'
      end
  end.

End Re.

(** ** Node declarations spanning several lines

    The node scanners of the extractor, the filter and the two verifiers
    share one loop: an outer index [i] over the lines and, for a declaration
    whose stripped first line does not end with the three characters double
    quote, closing bracket, semicolon, an inner index [j] that appends lines
    up to and including the first one whose right-stripped text ends with
    these three characters (or up to the end of the text), after which [i]
    resumes behind [j].  Both indices walk the same list once, so the loop is
    one pass with the declaration being collected as state: [pending] is
    [None] in the outer loop and holds the id and [full_lines] in the inner
    one.  [wanted] is the test [node_id in node_ids]; a scanner that takes
    every declaration passes the constant test. *)

Module Scan.
Import Py.

Definition end_mark : string := String dquote "];".

Fixpoint scan_decls (wanted : string -> bool)
    (pending : option (string * list string)) (ls : list string)
    : list (string * list string) :=
  match ls with
  | [] =>
      match pending with
      | Some (node_id, full_lines) => [(node_id, full_lines)]
      | None => []
      end
  | l :: rest =>
      match pending with
      | Some (node_id, full_lines) =>
          if endswith end_mark (rstrip l)
          then (node_id, full_lines ++ [l]) :: scan_decls wanted None rest
          else scan_decls wanted (Some (node_id, full_lines ++ [l])) rest
      | None =>
          match Re.node_match (strip l) with
          | Some node_id =>
              if wanted node_id then
                if endswith end_mark (strip l)
                then (node_id, [l]) :: scan_decls wanted None rest
                else scan_decls wanted (Some (node_id, [l])) rest
              else scan_decls wanted None rest
          | None => scan_decls wanted None rest
          end
      end
  end.

End Scan.

(** ** Dictionaries *)

(** [d.get(key, default)]. *)
Definition dict_get (d : gmap string string) (key default : string) : string :=
  match d !! key with
  | Some v => v
  | None => default
  end.

(** A dictionary whose iteration order is observed: insertion order, a
    repeated key keeps its place and takes the new value. *)
Fixpoint odict_set {V} (k : string) (v : V) (d : list (string * V))
    : list (string * V) :=
  match d with
  | [] => [(k, v)]
  | (k', v') :: d' =>
      if String.eqb k k' then (k, v) :: d' else (k', v') :: odict_set k v d'
  end.

Fixpoint odict_get {V} (k : string) (d : list (string * V)) : option V :=
  match d with
  | [] => None
  | (k', v') :: d' => if String.eqb k k' then Some v' else odict_get k d'
  end.

Definition odict_keys {V} (d : list (string * V)) : gset string :=
  list_to_set (map fst d).

(** One edge dictionary [{'source', 'target', 'type', 'line'}]; the
    verifiers call the last field ['raw_line']. *)
Record edge_info := EdgeInfo {
  source : string;
  target : string;
  edge_type : string;
  line : string
}.

Global Instance edge_info_eq_dec : EqDecision edge_info.
Proof. solve_decision. Defined.

(** [cfg_adjacency.get(current, [])]. *)
Definition adj_get (adj : gmap string (list string)) (k : string) : list string :=
  default [] (adj !! k).

(** [cfg_adjacency[source].append(target)] on a [defaultdict(list)]. *)
Definition adj_append (adj : gmap string (list string)) (k v : string)
    : gmap string (list string) :=
  <[k := adj_get adj k ++ [v]]> adj.

(** ** Breadth-first search over CFG successors

    [bfs_cfg_reachable] is written twice in the sources, in
    [filter_udf_subgraph] and in [verify_cfg_reachability], with the same
    text.  The [while queue] loop takes its iteration budget as [fuel]. *)

Module Bfs.

(** [for neighbor in cfg_adjacency.get(current, [])]. *)
Fixpoint visit_neighbors (neighbors : list string)
    (visited : gset string) (queue : list string) : gset string * list string :=
  match neighbors with
  | [] => (visited, queue)
  | neighbor :: rest =>
      if decide (neighbor ∈ visited) then visit_neighbors rest visited queue
      else visit_neighbors rest (visited ∪ {[neighbor]}) (queue ++ [neighbor])
  end.

(** [while queue: current = queue.popleft(); ...]. *)
Fixpoint bfs_loop (fuel : nat) (adj : gmap string (list string))
    (visited : gset string) (queue : list string) : option (gset string) :=
  match queue with
  | [] => Some visited
  | current :: queue' =>
      match fuel with
      | O => None
      | S fuel' =>
          let '(visited', queue'') :=
            visit_neighbors (adj_get adj current) visited queue' in
          bfs_loop fuel' adj visited' queue''
      end
  end.

Definition bfs_cfg_reachable (fuel : nat) (adj : gmap string (list string))
    (start_node : string) : option (gset string) :=
  bfs_loop fuel adj {[start_node]} [start_node].

(** [for udf_id in udf_methods: kept_nodes.update(bfs_cfg_reachable(udf_id))],
    over the seeds in iteration order. *)
Fixpoint collect_reachable (fuel : nat) (adj : gmap string (list string))
    (seeds : list string) (kept_nodes : gset string) : option (gset string) :=
  match seeds with
  | [] => Some kept_nodes
  | udf_id :: rest =>
      reachable ← bfs_cfg_reachable fuel adj udf_id;
      collect_reachable fuel adj rest (kept_nodes ∪ reachable)
  end.

End Bfs.

(** The two-branch node writer shared by [create_simple_subgraph] and
    [write_dot_file]: a two-space indent on the first physical line only. *)
Definition write_node_def (node_def : string) : string :=
  let nls := String Py.nl EmptyString in
  if Py.contains nls node_def then
    match Py.split Py.nl node_def with
    | first :: rest =>
        String.append (String.append "  " (String.append first nls))
          (String.concat "" (map (fun l => String.append l nls) rest))
    | [] => EmptyString
    end
  else String.append "  " (String.append node_def nls).

(** ** udf_filter.py *)

Module UdfFilter.
Import Py.

(** The six [re.search] calls of [extract_node_minimal_info], lines 45-75. *)
Definition minimal_attrs (full_def : string) : gmap string string :=
  let put key (attrs : gmap string string) :=
    match Re.attr_search key full_def with
    | Some v => <[key := v]> attrs
    | None => attrs
    end in
  put "AST_PARENT_FULL_NAME" (put "FILENAME" (put "FULL_NAME"
    (put "NAME" (put "IS_EXTERNAL" (put "label" ∅))))).

(** [extract_node_minimal_info(dot_content)], lines 14-81: every node
    declaration is read; [full_def] starts with the stripped first line. *)
Definition extract_node_minimal_info (dot_content : string)
    : gmap string (gmap string string) :=
  fold_left
    (fun nodes_info '(node_id, full_lines) =>
       let full_def :=
         match full_lines with
         | [] => EmptyString
         | l :: more => join (String nl EmptyString) (strip l :: more)
         end in
       <[node_id := minimal_attrs full_def]> nodes_info)
    (Scan.scan_decls (fun _ => true) None (lines dot_content)) ∅.

(** [is_user_defined_method(node_attrs)], lines 83-121. *)
Definition is_user_defined_method (node_attrs : gmap string string) : bool :=
  let label := dict_get node_attrs "label" "" in
  if negb (String.eqb label "METHOD") then false
  else
    let is_external := dict_get node_attrs "IS_EXTERNAL" "false" in
    if String.eqb (lower is_external) "true" then false
    else
      let name := dict_get node_attrs "NAME" "" in
      let full_name := dict_get node_attrs "FULL_NAME" "" in
      let filename := dict_get node_attrs "FILENAME" "" in
      let ast_parent := dict_get node_attrs "AST_PARENT_FULL_NAME" "" in
      if startswith "<operator>" name || startswith "<operator>" full_name
      then false
      else if String.eqb name "<clinit>" || String.eqb name "<global>" then false
      else if String.eqb filename "<includes>" || String.eqb filename "<empty>"
              || String.eqb filename ""
      then false
      else if contains "<includes>" ast_parent then false
      else true.

(** The state of the loop of [extract_edges_simple], lines 123-155. *)
Record edges_state := EdgesState {
  edge_lines : list edge_info;
  cfg_adjacency : gmap string (list string);
  cfg_edges : list edge_info;
  call_edges : list edge_info
}.

Definition edges_step (st : edges_state) (l : string) : edges_state :=
  let line_stripped := strip l in
  match Re.edge_match line_stripped with
  | Some (src, tgt, ty) =>
      let e := EdgeInfo src tgt ty l in
      let st1 :=
        if String.eqb ty "CFG" then
          EdgesState (edge_lines st) (adj_append (cfg_adjacency st) src tgt)
                     (cfg_edges st ++ [e]) (call_edges st)
        else if String.eqb ty "CALL" then
          EdgesState (edge_lines st) (cfg_adjacency st)
                     (cfg_edges st) (call_edges st ++ [e])
        else st in
      EdgesState (edge_lines st1 ++ [e]) (cfg_adjacency st1)
                 (cfg_edges st1) (call_edges st1)
  | None => st
  end.

Definition extract_edges_simple (dot_content : string) : edges_state :=
  fold_left edges_step (lines dot_content) (EdgesState [] ∅ [] []).

(** [extract_nodes_simple(dot_content, node_ids)], lines 157-197: a
    dictionary, so a later declaration of an id replaces the earlier one. *)
Definition extract_nodes_simple (dot_content : string) (node_ids : gset string)
    : gmap string string :=
  fold_left
    (fun node_lines '(node_id, full_lines) =>
       <[node_id := join (String nl EmptyString) full_lines]> node_lines)
    (Scan.scan_decls (fun node_id => bool_decide (node_id ∈ node_ids)) None
       (lines dot_content)) ∅.

(** The seed loop of [filter_udf_subgraph], lines 214-221. *)
Definition udf_methods (nodes_info : gmap string (gmap string string))
    : gset string :=
  dom (filter (fun kv => kv.2 !! "label" = Some "METHOD"
                         ∧ is_user_defined_method kv.2 = true) nodes_info).

(** The two edge loops of [filter_udf_subgraph], lines 263-275: the CFG
    edges that pass come first, the CALL edges that pass after them. *)
Definition retain_edges (cfg_edges call_edges : list edge_info)
    (kept_nodes udf_methods : gset string) : list edge_info :=
  filter (fun e => source e ∈ kept_nodes ∧ target e ∈ kept_nodes) cfg_edges
  ++ filter (fun e => source e ∈ kept_nodes ∧ target e ∈ udf_methods) call_edges.

(** [filter_udf_subgraph(dot_content)], lines 199-290. *)
Definition filter_udf_subgraph (fuel : nat) (dot_content : string)
    : option (gmap string string * list edge_info) :=
  let nodes_info := extract_node_minimal_info dot_content in
  let udfs := udf_methods nodes_info in
  let st := extract_edges_simple dot_content in
  kept_nodes ← Bfs.collect_reachable fuel (cfg_adjacency st) (elements udfs) ∅;
  let node_definitions := extract_nodes_simple dot_content kept_nodes in
  Some (node_definitions,
        retain_edges (cfg_edges st) (call_edges st) kept_nodes udfs).

(** [sorted(node_definitions.keys())]. *)
Definition sorted_keys (node_definitions : gmap string string) : list string :=
  merge_sort String.le (map fst (map_to_list node_definitions)).

(** [write_dot_file(filepath, node_definitions, edges, original_name)],
    lines 292-323: the text written to the file. *)
Definition write_dot_file (node_definitions : gmap string string)
    (edges : list edge_info) (original_name : string) : string :=
  let nls := String nl EmptyString in
  String.concat ""
    ([ String.append "digraph udf_" (String.append original_name (String.append " {" nls));
       String.append "  // UDF-filtered subgraph" nls;
       String.append "  // Only user-defined functions and their bodies" nls;
       String.append "  // Nodes: "
         (String.append (pretty (size node_definitions))
            (String.append ", Edges: "
               (String.append (pretty (length edges)) (String.append nls nls))));
       String.append "  // Node definitions" nls ]
     ++ map (fun node_id => write_node_def (dict_get node_definitions node_id ""))
            (sorted_keys node_definitions)
     ++ [ String.append nls (String.append "  // Edge definitions" nls) ]
     ++ map (fun e => String.append "  " (String.append (line e) nls)) edges
     ++ [ String.append "}" nls ]).

End UdfFilter.

(** ** simple_subgraph_extractor.py *)

Module Extractor.
Import Py.

(** One turn of the loop of [extract_edges_simple(dot_content, edge_types)],
    lines 18-31, on the pair [(edge_lines, connected_nodes)]. *)
Definition edges_step (edge_types : gset string)
    (st : list string * gset string) (l : string) : list string * gset string :=
  let line := strip l in
  match Re.edge_match line with
  | Some (src, tgt, ty) =>
      if decide (ty ∈ edge_types)
      then (st.1 ++ [line], st.2 ∪ {[src]} ∪ {[tgt]})
      else st
  | None => st
  end.

Definition extract_edges_simple (dot_content : string) (edge_types : gset string)
    : list string * gset string :=
  fold_left (edges_step edge_types) (lines dot_content) ([], ∅).

(** The declarations found by the loop of [extract_nodes_simple], lines
    44-78, in the order in which they are appended to [node_lines]. *)
Definition node_decls (dot_content : string) (node_ids : gset string)
    : list (string * list string) :=
  Scan.scan_decls (fun node_id => bool_decide (node_id ∈ node_ids)) None
    (lines dot_content).

(** [extract_nodes_simple(dot_content, node_ids)], lines 35-80: a list, in
    the order of the declarations in the text, and the set of ids found. *)
Definition extract_nodes_simple (dot_content : string) (node_ids : gset string)
    : list string * gset string :=
  let decls := node_decls dot_content node_ids in
  (map (fun d => join (String nl EmptyString) d.2) decls,
   list_to_set (map fst decls)).

(** The node section written by [create_simple_subgraph], lines 113-124. *)
Definition write_nodes (node_lines : list string) : string :=
  String.concat "" (map write_node_def node_lines).

(** [create_simple_subgraph(dot_content, edge_types, output_file)], lines
    82-134: the text written and the returned triple.  [edge_types] is the
    wanted set in its iteration order, which the two [join]s observe. *)
Definition create_simple_subgraph (dot_content : string) (edge_types : list string)
    : string * (nat * nat * gset string) :=
  let nls := String nl EmptyString in
  let '(edge_lines, connected_nodes) :=
    extract_edges_simple dot_content (list_to_set edge_types) in
  let '(node_lines, found_nodes) :=
    extract_nodes_simple dot_content connected_nodes in
  let missing_nodes := connected_nodes ∖ found_nodes in
  let subgraph_name := join "_" edge_types in
  (String.concat ""
     [ String.append "digraph subgraph_" (String.append subgraph_name (String.append " {" nls));
       String.append "  // Direct extraction from original DOT file" nls;
       String.append "  // Edge types: " (String.append (join ", " edge_types) nls);
       String.append "  // Nodes: "
         (String.append (pretty (size found_nodes))
            (String.append ", Edges: "
               (String.append (pretty (length edge_lines)) (String.append nls nls))));
       String.append "  // Node definitions" nls;
       write_nodes node_lines;
       String.append nls (String.append "  // Edge definitions" nls);
       String.concat "" (map (fun l => String.append "  " (String.append l nls)) edge_lines);
       String.append "}" nls ],
   (size found_nodes, length edge_lines, missing_nodes)).

End Extractor.

(** ** verify_subgraph_extraction.py *)

Module SubgraphVerifier.
Import Py.

(** [SubgraphVerifier.parse_edges(dot_content)], lines 32-53. *)
Definition parse_edges_step (edges : list edge_info) (l : string) : list edge_info :=
  let line := strip l in
  match Re.edge_match line with
  | Some (src, tgt, ty) => edges ++ [EdgeInfo src tgt ty line]
  | None => edges
  end.

Definition parse_edges (dot_content : string) : list edge_info :=
  fold_left parse_edges_step (lines dot_content) [].

(** The signature string of [verify_edge_extraction], lines 176 and 181. *)
Definition edge_sig (e : edge_info) : string :=
  String.append (source e)
    (String.append "->" (String.append (target e) (String.append ":" (edge_type e)))).

End SubgraphVerifier.

(** ** verify_udf_filtering.py *)

Module UdfVerifier.
Import Py.

(** [UDFFilterVerifier.parse_edges(dot_content)], lines 33-54. *)
Definition parse_edges_step (edges : list edge_info) (l : string) : list edge_info :=
  let line := strip l in
  match Re.edge_match line with
  | Some (src, tgt, ty) => edges ++ [EdgeInfo src tgt ty (strip line)]
  | None => edges
  end.

Definition parse_edges (dot_content : string) : list edge_info :=
  fold_left parse_edges_step (lines dot_content) [].

(** The value stored per node id by [parse_nodes]. *)
Record node_data := NodeData {
  attributes : gmap string string;
  raw_definition : string
}.

(** [extract_node_attributes(node_definition)], lines 96-115. *)
Definition extract_node_attributes (node_definition : string) : gmap string string :=
  fold_left
    (fun (attrs : gmap string string) key =>
       match Re.attr_search key node_definition with
       | Some v => <[key := v]> attrs
       | None => attrs
       end)
    ["label"; "IS_EXTERNAL"; "NAME"; "FULL_NAME"; "FILENAME"; "AST_PARENT_FULL_NAME"]
    ∅.

(** [parse_nodes(dot_content)], lines 56-94. *)
Definition parse_nodes (dot_content : string) : list (string * node_data) :=
  fold_left
    (fun nodes '(node_id, full_definition_lines) =>
       let full_definition := join (String nl EmptyString) full_definition_lines in
       odict_set node_id
         (NodeData (extract_node_attributes full_definition) (strip full_definition))
         nodes)
    (Scan.scan_decls (fun _ => true) None (lines dot_content)) [].

(** [is_user_defined_method(node_attrs)], lines 117-146. *)
Definition is_user_defined_method (node_attrs : gmap string string) : bool :=
  let label := dict_get node_attrs "label" "" in
  if negb (String.eqb label "METHOD") then false
  else
    let is_external := dict_get node_attrs "IS_EXTERNAL" "false" in
    if String.eqb (lower is_external) "true" then false
    else
      let name := dict_get node_attrs "NAME" "" in
      let full_name := dict_get node_attrs "FULL_NAME" "" in
      let filename := dict_get node_attrs "FILENAME" "" in
      let ast_parent := dict_get node_attrs "AST_PARENT_FULL_NAME" "" in
      if startswith "<operator>" name || startswith "<operator>" full_name
      then false
      else if String.eqb name "<clinit>" || String.eqb name "<global>" then false
      else if String.eqb filename "<includes>" || String.eqb filename "<empty>"
              || String.eqb filename ""
      then false
      else if contains "<includes>" ast_parent then false
      else true.

(** One verification category: [{'passed': ..., 'issues': [...]}]. *)
Record check := Verdict {
  passed : bool;
  issues : list string
}.

Definition is_method (d : node_data) : bool :=
  bool_decide (attributes d !! "label" = Some "METHOD").

(** The loops that collect METHOD ids and UDF ids from a node table
    (lines 176-184, 187-195, 243-247 and 312-316). *)
Definition method_ids (nodes : list (string * node_data)) : gset string :=
  list_to_set (map fst (filter (fun kv => is_method kv.2 = true) nodes)).

Definition udf_ids (nodes : list (string * node_data)) : gset string :=
  list_to_set (map fst (filter
    (fun kv => is_method kv.2 = true
               ∧ is_user_defined_method (attributes kv.2) = true) nodes)).

(** [cfg_adjacency] of [verify_cfg_reachability], lines 236-240. *)
Definition cfg_adjacency (original_edges : list edge_info) : gmap string (list string) :=
  fold_left (fun adj e => adj_append adj (source e) (target e))
    (filter (fun e => edge_type e = "CFG") original_edges) ∅.

Section Checks.

(** The text Python prints for a set inside an f-string; its element order
    is not fixed by the language. *)
Variable set_repr : gset string -> string.

Variable original_edges : list edge_info.
Variable original_nodes : list (string * node_data).
Variable filtered_edges : list edge_info.
Variable filtered_nodes : list (string * node_data).

(** [verify_udf_identification], lines 169-227. *)
Definition verify_udf_identification : check :=
  let original_udfs := udf_ids original_nodes in
  let filtered_method_nodes := method_ids filtered_nodes in
  let filtered_udf_nodes := udf_ids filtered_nodes in
  let missing_udfs := original_udfs ∖ filtered_udf_nodes in
  let c1 :=
    if decide (missing_udfs = ∅) then Verdict true []
    else Verdict false [String.append "Missing UDF methods: " (set_repr missing_udfs)] in
  let external_methods_in_filtered := filtered_method_nodes ∖ original_udfs in
  if decide (external_methods_in_filtered = ∅) then c1
  else Verdict false
         (issues c1 ++ [String.append "External methods present: "
                          (pretty (size external_methods_in_filtered))]).

(** [verify_cfg_reachability], lines 229-300. *)
Definition verify_cfg_reachability (fuel : nat) : option check :=
  let adj := cfg_adjacency original_edges in
  let original_udfs := udf_ids original_nodes in
  expected_nodes ← Bfs.collect_reachable fuel adj (elements original_udfs) ∅;
  let actual_nodes := odict_keys filtered_nodes in
  let missing_nodes := expected_nodes ∖ actual_nodes in
  let c1 :=
    if decide (missing_nodes = ∅) then Verdict true []
    else Verdict false [String.append "Missing CFG-reachable nodes: "
                         (pretty (size missing_nodes))] in
  let extra_nodes := actual_nodes ∖ expected_nodes in
  Some (if decide (extra_nodes = ∅) then c1
        else Verdict false
               (issues c1 ++ [String.append "Extra non-CFG-reachable nodes: "
                                (pretty (size extra_nodes))])).

(** [verify_edge_filtering], lines 302-358. *)
Definition verify_edge_filtering : check :=
  let filtered_node_ids := odict_keys filtered_nodes in
  let original_udfs := udf_ids original_nodes in
  let filtered_cfg_edges := filter (fun e => edge_type e = "CFG") filtered_edges in
  let invalid_cfg_edges :=
    filter (fun e => source e ∉ filtered_node_ids ∨ target e ∉ filtered_node_ids)
      filtered_cfg_edges in
  let c1 :=
    match invalid_cfg_edges with
    | [] => Verdict true []
    | _ => Verdict false [String.append "CFG edges with missing endpoints: "
                           (pretty (length invalid_cfg_edges))]
    end in
  let filtered_call_edges := filter (fun e => edge_type e = "CALL") filtered_edges in
  let invalid_call_edges :=
    filter (fun e => ¬ (source e ∈ filtered_node_ids ∧ target e ∈ original_udfs))
      filtered_call_edges in
  match invalid_call_edges with
  | [] => c1
  | _ => Verdict false
           (issues c1 ++ [String.append "CALL edges violating UDF rules: "
                            (pretty (length invalid_call_edges))])
  end.

(** The state of the loop of [verify_node_integrity], lines 371-399. *)
Record integrity_state := IntegrityState {
  int_passed : bool;
  int_issues : list string;
  corrupted_nodes : list string
}.

Definition integrity_step (st : integrity_state) (kv : string * node_data)
    : integrity_state :=
  let '(node_id, filtered_data) := kv in
  match odict_get node_id original_nodes with
  | None =>
      IntegrityState false
        (int_issues st ++ [String.append "Node "
                             (String.append node_id " not found in original")])
        (corrupted_nodes st)
  | Some original_data =>
      let original_raw := strip (raw_definition original_data) in
      let filtered_raw := strip (raw_definition filtered_data) in
      if String.eqb original_raw filtered_raw then st
      else IntegrityState false (int_issues st) (corrupted_nodes st ++ [node_id])
  end.

(** [verify_node_integrity], lines 360-408. *)
Definition verify_node_integrity : check :=
  let st := fold_left integrity_step filtered_nodes (IntegrityState true [] []) in
  match corrupted_nodes st with
  | [] => Verdict (int_passed st) (int_issues st)
  | _ => Verdict (int_passed st)
           (int_issues st ++ [String.append "Corrupted node definitions: "
                                (pretty (length (corrupted_nodes st)))])
  end.

(** The four categories in the order [run_verification] fills
    [verification_results], lines 470-473. *)
Definition verification_results (fuel : nat) : option (list (string * check)) :=
  cfg ← verify_cfg_reachability fuel;
  Some [ ("udf_identification", verify_udf_identification);
         ("cfg_reachability", cfg);
         ("edge_filtering", verify_edge_filtering);
         ("node_integrity", verify_node_integrity) ].

End Checks.

(** [load_and_parse_files] followed by the four checks, lines 148-167 and
    460-478, on the two file contents. *)
Definition run_verification (set_repr : gset string -> string) (fuel : nat)
    (original_content filtered_content : string) : option (list (string * check)) :=
  verification_results set_repr
    (parse_edges original_content) (parse_nodes original_content)
    (parse_edges filtered_content) (parse_nodes filtered_content) fuel.

End UdfVerifier.

(** ** schema_report.py: the quote-tracking node scanner *)

Module SchemaReport.
Import Py.

(** [_node_start(line)], lines 108-139. *)
Definition _node_start (l : string) : option (string * string) :=
  let s := strip l in
  match s with
  | String c r =>
      if negb (Ascii.eqb c dquote) then None
      else if contains "->" s then None
      else
        match span Re.notquote r with
        | (node_id, String _ r1) =>
            match Re.skip_ws r1 with
            | String c2 r2 => if Ascii.eqb c2 "["%char then Some (node_id, r2) else None
            | EmptyString => None
            end
        | (_, EmptyString) => None
        end
  | EmptyString => None
  end.

(** [buf[:-1]]. *)
Fixpoint but_last (s : string) : string :=
  match s with
  | EmptyString => EmptyString
  | String c EmptyString => EmptyString
  | String c s' => String c (but_last s')
  end.

Definition push (buf : string) (c : ascii) : string :=
  String.append buf (String c EmptyString).

(** The character loop of [_scan_until_node_end], lines 151-189, from index
    [i] on: [s] is [line[i:]].  The result is [(done, in_string, buf)]. *)
Fixpoint scan_chars (s : string) (in_string escape : bool) (buf : string)
    : bool * bool * string :=
  match s with
  | EmptyString => (false, in_string, buf)
  | String c rest =>
      let buf1 := push buf c in
      if in_string then
        if negb escape && Ascii.eqb c "092"%char then scan_chars rest true true buf1
        else if escape then scan_chars rest true false buf1
        else if Ascii.eqb c dquote then scan_chars rest false escape buf1
        else scan_chars rest true escape buf1
      else if Ascii.eqb c dquote then scan_chars rest true escape buf1
      else if Ascii.eqb c "]"%char then
        let '(spaces, after) := span isspace rest in
        let buf2 := String.append buf1 spaces in
        match after with
        | String c2 _ =>
            if Ascii.eqb c2 ";"%char
            then (true, in_string, rstrip (but_last (push buf2 ";"%char)))
            else scan_chars rest in_string escape buf2
        | EmptyString => scan_chars rest in_string escape buf2
        end
      else scan_chars rest in_string escape buf1
  end.

(** [_scan_until_node_end(accum, line, in_string)], lines 141-192: the
    returned pair and the list [accum] after the call. *)
Definition _scan_until_node_end (accum : list string) (l : string) (in_string : bool)
    : bool * bool * list string :=
  let '(done, in_string', buf) := scan_chars l in_string false EmptyString in
  (done, in_string',
   match buf with
   | EmptyString => accum
   | _ => accum ++ [buf]
   end).

(** The lines a text file yields when iterated: each keeps its line feed. *)
Fixpoint file_lines_of (parts : list string) : list string :=
  match parts with
  | [] => []
  | [last] => match last with EmptyString => [] | _ => [last] end
  | p :: rest => String.append p (String nl EmptyString) :: file_lines_of rest
  end.

Definition file_lines (content : string) : list string :=
  file_lines_of (lines content).

(** The scanning loop of [parse_dot_file], lines 282-312: the id and the
    accumulated attribute text of each node whose end was found. *)
Fixpoint parse_loop (raws : list string) (in_node : bool) (node_id : string)
    (in_string : bool) (attr_accum : list string) : list (string * string) :=
  match raws with
  | [] => []
  | raw :: rest =>
      if negb in_node then
        match _node_start raw with
        | None => parse_loop rest false node_id in_string attr_accum
        | Some (node_id', remainder) =>
            let '(done, in_string', accum') :=
              _scan_until_node_end [] remainder false in
            if done
            then (node_id', String.concat "" accum')
                 :: parse_loop rest false EmptyString in_string' []
            else parse_loop rest true node_id' in_string' accum'
        end
      else
        let '(done, in_string', accum') :=
          _scan_until_node_end attr_accum raw in_string in
        if done
        then (node_id, String.concat "" accum')
             :: parse_loop rest false EmptyString in_string' []
        else parse_loop rest true node_id in_string' accum'
  end.

Definition scan_nodes (content : string) : list (string * string) :=
  parse_loop (file_lines content) false EmptyString false [].

End SchemaReport.


(** ** verify_subgraph_extraction.py: the node table and the three checks *)

Module SubgraphChecks.
Import Py.

(** The class [\w] of a [str] pattern on one code point below 256. *)
Definition word (c : ascii) : bool :=
  let n := nat_of_ascii c in
  (((48 <=? n) && (n <=? 57)) || ((65 <=? n) && (n <=? 90)) || (n =? 95)
   || ((97 <=? n) && (n <=? 122)) || (n =? 170) || ((178 <=? n) && (n <=? 179))
   || (n =? 181) || ((185 <=? n) && (n <=? 186)) || ((188 <=? n) && (n <=? 190))
   || ((192 <=? n) && (n <=? 214)) || ((216 <=? n) && (n <=? 246))
   || ((248 <=? n) && (n <=? 255)))%nat.

(** The value group and its closing quote at the head of [t]: a run of
    non-quote characters, then any number of times a quote, a run, a quote
    and a run, then the closing quote.  The greedy repetition takes pairs of
    quotes as long as a closing quote is left, so the value ends at the last
    quote of [t] whose number, counted from the head, is odd: group 2 and
    what follows the closing quote. *)
Definition attr_value (t : string) : option (string * string) :=
  let parts := split dquote t in
  let n := (length parts - 1)%nat in
  if (n =? 0)%nat then None
  else
    let m := if Nat.odd n then n else (n - 1)%nat in
    Some (join (String dquote EmptyString) (firstn m parts),
          join (String dquote EmptyString) (skipn m parts)).

(** A key of word characters, [=Q], the value group and [Q] at the head of
    [s]: groups 1 and 2
    and what follows the match.  The character after the key is not a word
    character, so the key is the whole run of word characters. *)
Definition attr_here (s : string) : option (string * string * string) :=
  match span word s with
  | (EmptyString, _) => None
  | (key, r) =>
      t ← Re.literal (String "="%char (String dquote EmptyString)) r;
      '(value, rest) ← attr_value t;
      Some (key, value, rest)
  end.

(** The loop over [re.finditer(attr_pattern, node_definition, re.DOTALL)],
    lines 100-105: matches do not overlap and the search resumes where the
    last match ended; [skip] counts the characters of that match still to
    pass.  The pattern has no dot, so [re.DOTALL] changes nothing. *)
Fixpoint finditer (skip : nat) (s : string) (attributes : gmap string string)
    : gmap string string :=
  match s with
  | EmptyString => attributes
  | String _ s' =>
      match skip with
      | S k => finditer k s' attributes
      | O =>
          match attr_here s with
          | Some (key, value, rest) =>
              finditer (String.length s' - String.length rest) s'
                (<[key := value]> attributes)
          | None => finditer 0 s' attributes
          end
      end
  end.

(** [extract_node_attributes(node_definition)], lines 96-107. *)
Definition extract_node_attributes (node_definition : string) : gmap string string :=
  finditer 0 node_definition ∅.

(** The value stored per node id by [parse_nodes]. *)
Record node := Node {
  attributes : gmap string string;
  raw_definition : string
}.

(** [parse_nodes(dot_content)], lines 55-94. *)
Definition parse_nodes (dot_content : string) : list (string * node) :=
  fold_left
    (fun nodes '(node_id, full_definition_lines) =>
       let full_definition := join (String nl EmptyString) full_definition_lines in
       odict_set node_id
         (Node (extract_node_attributes full_definition) full_definition)
         nodes)
    (Scan.scan_decls (fun _ => true) None (lines dot_content)) [].

(** One verification category: [{'passed': ..., 'issues': [...]}]. *)
Record report := Report {
  passed : bool;
  issues : list string
}.

(** [passed = False] together with [issues.append(issue)]. *)
Definition flag (r : report) (issue : string) : report :=
  Report false (issues r ++ [issue]).

Section Checks.

(** The text Python prints for a set inside an f-string. *)
Variable set_repr : gset string -> string.

(** [self.edge_types], a set, as the list of its elements in the order in
    which the loop of [verify_edge_extraction] meets them. *)
Variable edge_types : list string.

Variable original_edges : list edge_info.
Variable original_nodes : list (string * node).
Variable extracted_edges : list edge_info.
Variable extracted_nodes : list (string * node).

Definition original_target_edges : list edge_info :=
  filter (fun e => edge_type e ∈ (list_to_set edge_types : gset string)) original_edges.

(** [by_type[edge_type]] of a [defaultdict(list)] filled from [es]. *)
Definition by_type (es : list edge_info) (ty : string) : list edge_info :=
  filter (fun e => edge_type e = ty) es.

(** [verify_edge_extraction], lines 130-209.  The count loop reads
    [extracted_by_type[edge_type]] for every wanted type, which enters the
    type as a key of the [defaultdict]. *)
Definition verify_edge_extraction : report :=
  let r1 :=
    fold_left
      (fun r ty =>
         let original_count := length (by_type original_target_edges ty) in
         let extracted_count := length (by_type extracted_edges ty) in
         if (original_count =? extracted_count)%nat then r
         else flag r (String.append ty
                        (String.append ": count mismatch ("
                           (String.append (pretty original_count)
                              (String.append " vs "
                                 (String.append (pretty extracted_count) ")"))))))
      edge_types (Report true []) in
  let unwanted_types : gset string :=
    (list_to_set (map edge_type extracted_edges) ∪ list_to_set edge_types)
    ∖ list_to_set edge_types in
  let r2 :=
    if decide (unwanted_types = ∅) then r1
    else flag r1 (String.append "Unwanted edge types found: " (set_repr unwanted_types)) in
  let original_edge_sigs : gset string :=
    list_to_set (map SubgraphVerifier.edge_sig original_target_edges) in
  let extracted_edge_sigs : gset string :=
    list_to_set (map SubgraphVerifier.edge_sig extracted_edges) in
  let missing_edges := original_edge_sigs ∖ extracted_edge_sigs in
  let extra_edges := extracted_edge_sigs ∖ original_edge_sigs in
  let r3 :=
    if decide (missing_edges = ∅) then r2
    else flag r2 (String.append "Missing "
                    (String.append (pretty (size missing_edges)) " edges")) in
  if decide (extra_edges = ∅) then r3
  else flag r3 (String.append "Extra "
                  (String.append (pretty (size extra_edges)) " edges")).

(** [verify_node_extraction], lines 211-259. *)
Definition verify_node_extraction : report :=
  let expected_nodes : gset string :=
    fold_left (fun s e => s ∪ {[source e]} ∪ {[target e]}) original_target_edges ∅ in
  let actual_nodes : gset string := odict_keys extracted_nodes in
  let missing_nodes := expected_nodes ∖ actual_nodes in
  let r1 :=
    if decide (missing_nodes = ∅) then Report true []
    else flag (Report true [])
           (String.append "Missing "
              (String.append (pretty (size missing_nodes)) " nodes")) in
  let extra_nodes := actual_nodes ∖ expected_nodes in
  if decide (extra_nodes = ∅) then r1
  else flag r1 (String.append "Extra "
                  (String.append (pretty (size extra_nodes)) " nodes")).

(** [verify_node_attributes], lines 261-313: a node of both tables whose
    attribute dictionaries differ is a mismatch, whichever branch of the
    loop body reports it. *)
Definition verify_node_attributes : report :=
  let common_nodes : gset string :=
    odict_keys original_nodes ∩ odict_keys extracted_nodes in
  let mismatched_attrs :=
    filter
      (fun node_id =>
         attributes <$> odict_get node_id original_nodes
         ≠ attributes <$> odict_get node_id extracted_nodes)
      (elements common_nodes) in
  match mismatched_attrs with
  | [] => Report true []
  | _ => Report false
           [String.append (pretty (length mismatched_attrs))
              " nodes with attribute mismatches"]
  end.

(** The three categories in the order [run_verification] fills
    [verification_results], lines 351-353. *)
Definition verification_results : list (string * report) :=
  [ ("edges", verify_edge_extraction);
    ("nodes", verify_node_extraction);
    ("attributes", verify_node_attributes) ].

End Checks.

(** [run_verification], lines 340-358, on the two file contents: the
    overall verdict of [generate_summary_report] and the three reports. *)
Definition run_verification (set_repr : gset string -> string)
    (edge_types : list string) (original_content extracted_content : string)
    : bool * list (string * report) :=
  let results :=
    verification_results set_repr edge_types
      (SubgraphVerifier.parse_edges original_content) (parse_nodes original_content)
      (SubgraphVerifier.parse_edges extracted_content) (parse_nodes extracted_content) in
  (forallb (fun kv => passed kv.2) results, results).

End SubgraphChecks.

(** ** schema_report.py: the per-file property sets *)

Module SchemaProps.

(** [FileTypeProps], lines 267-272. *)
Record file_type_props := FileTypeProps {
  types_in_file : gset string;
  p_any : gmap string (gset string);
  p_all : gmap string (gset string)
}.

Definition no_props : file_type_props := FileTypeProps ∅ ∅ ∅.

(** [_update_file_props(ftp, attrs)], lines 315-336. *)
Definition _update_file_props (ftp : file_type_props) (attrs : gmap string string)
    : file_type_props :=
  match attrs !! "label" with
  | None => ftp
  | Some node_type =>
      let keys : gset string := dom attrs ∖ {["label"]} in
      let any0 : gset string := default ∅ (p_any ftp !! node_type) in
      FileTypeProps
        (types_in_file ftp ∪ {[node_type]})
        (<[node_type := any0 ∪ keys]> (p_any ftp))
        (match p_all ftp !! node_type with
         | None => <[node_type := keys]> (p_all ftp)
         | Some all0 => <[node_type := all0 ∩ keys]> (p_all ftp)
         end)
  end.

(** The calls of [_update_file_props] that [parse_dot_file] makes, lines
    296 and 308, on the attribute dictionaries of the nodes of a file in the
    order in which their ends are found. *)
Definition file_props (nodes : list (gmap string string)) : file_type_props :=
  fold_left _update_file_props nodes no_props.

End SchemaProps.

(** ** Vocabulary of the statements *)

Module Spec.

(** An attribute that is missing reads as the empty string. *)
Definition attr (attrs : gmap string string) (key : string) : string :=
  default EmptyString (attrs !! key).

(** Equality of two strings up to the case of their letters. *)
Definition caseless_eq (s t : string) : Prop := Py.lower s = Py.lower t.

Definition is_prefix (p s : string) : Prop := ∃ r, s = String.append p r.

Definition is_substring (sub s : string) : Prop :=
  ∃ pre post, s = String.append pre (String.append sub post).

(** The six rules of the classifier, as a proposition. *)
Definition udf_rules (attrs : gmap string string) : Prop :=
  attr attrs "label" = "METHOD"
  ∧ ¬ caseless_eq (default "false" (attrs !! "IS_EXTERNAL")) "true"
  ∧ (¬ is_prefix "<operator>" (attr attrs "NAME")
     ∧ ¬ is_prefix "<operator>" (attr attrs "FULL_NAME"))
  ∧ (attr attrs "NAME" ≠ "<clinit>" ∧ attr attrs "NAME" ≠ "<global>")
  ∧ (attr attrs "FILENAME" ≠ "<includes>" ∧ attr attrs "FILENAME" ≠ "<empty>"
     ∧ attr attrs "FILENAME" ≠ EmptyString)
  ∧ ¬ is_substring "<includes>" (attr attrs "AST_PARENT_FULL_NAME").

(** Every character of [s] satisfies [p]. *)
Fixpoint all_chars (p : ascii -> bool) (s : string) : bool :=
  match s with
  | EmptyString => true
  | String c s' => p c && all_chars p s'
  end.

(** A nonempty identifier without a double quote, as the edge and node
    patterns capture it. *)
Definition plain_id (s : string) : Prop :=
  s ≠ EmptyString ∧ all_chars Re.notquote s = true.

Definition quoted (s : string) : string :=
  String Py.dquote (String.append s (String Py.dquote EmptyString)).

(** The shape of an edge line: quoted id, arrow, quoted id, then a bracket
    block that contains a label attribute with a quoted nonempty value and
    is closed by a bracket and a semicolon. *)
Definition edge_shape (s src tgt ty : string) : Prop :=
  ∃ ws1 ws2 ws3 pre mid post,
    s = String.append (quoted src) (String.append ws1 (String.append "->"
          (String.append ws2 (String.append (quoted tgt) (String.append ws3
            (String.append "[" (String.append pre (String.append "label="
              (String.append (quoted ty) (String.append mid
                (String.append "];" post)))))))))))
    ∧ all_chars Py.isspace ws1 = true ∧ all_chars Py.isspace ws2 = true
    ∧ all_chars Py.isspace ws3 = true
    ∧ plain_id src ∧ plain_id tgt ∧ plain_id ty.

(** The edges a pass recognises in a list of physical lines, one line at a
    time; [raw] is what the pass keeps of the line. *)
Definition recognise (raw : string -> string) (l : string) : option edge_info :=
  match Re.edge_match (Py.strip l) with
  | Some (src, tgt, ty) => Some (EdgeInfo src tgt ty (raw l))
  | None => None
  end.

Definition recognised (raw : string -> string) (ls : list string) : list edge_info :=
  omap (recognise raw) ls.

(** The (source, target, type) signature of an edge. *)
Definition signature (e : edge_info) : string * string * string :=
  (source e, target e, edge_type e).

(** The union of source and target ids over a list of edges. *)
Definition endpoints (es : list edge_info) : gset string :=
  ⋃ (map (fun e => {[source e; target e]}) es).

Definition is_cfg (e : edge_info) : Prop := edge_type e = "CFG".
Definition is_call (e : edge_info) : Prop := edge_type e = "CALL".

(** The retention rule on one edge. *)
Definition retained (kept_nodes seeds : gset string) (e : edge_info) : Prop :=
  (edge_type e = "CFG" ∧ source e ∈ kept_nodes ∧ target e ∈ kept_nodes)
  ∨ (edge_type e = "CALL" ∧ source e ∈ kept_nodes ∧ target e ∈ seeds).

Global Instance retained_dec kept_nodes seeds e : Decision (retained kept_nodes seeds e).
Proof. unfold retained. apply _. Defined.

(** [y] is a CFG successor of [x]. *)
Definition succ_of (adj : gmap string (list string)) (x y : string) : Prop :=
  y ∈ adj_get adj x.

(** A node set closed under following CFG edges forward. *)
Definition closed (adj : gmap string (list string)) (X : gset string) : Prop :=
  ∀ x y, x ∈ X -> succ_of adj x y -> y ∈ X.

(** Every node that occurs as the target of an edge of [adj]. *)
Definition targets (adj : gmap string (list string)) : gset string :=
  ⋃ (map (fun kv => list_to_set kv.2) (map_to_list adj)).

(** An iteration budget that suffices for one search: every iteration but
    the first dequeues a node that was enqueued as the target of an edge,
    and no node is enqueued twice. *)
Definition bfs_bound (adj : gmap string (list string)) : nat :=
  S (size (targets adj)).

(** A character that is neither a double quote nor a closing bracket. *)
Definition plain_char (c : ascii) : bool :=
  Re.notquote c && negb (Ascii.eqb c "]"%char).

(** A text on a line of its own behind the two-space indent. *)
Definition indented (text : string) : string :=
  String.append "  " (String.append text (String Py.nl EmptyString)).

(** How declarations lie in the text: disjoint runs of consecutive lines,
    in the order of the text, with any number of lines between them. *)
Inductive decl_layout : list string -> list (string * list string) -> Prop :=
  | layout_nil : decl_layout [] []
  | layout_skip l ls ds : decl_layout ls ds -> decl_layout (l :: ls) ds
  | layout_decl node_id l seg ls ds :
      decl_layout ls ds ->
      decl_layout ((l :: seg) ++ ls) ((node_id, l :: seg) :: ds).


(** The head of the file written by [write_dot_file]. *)
Definition udf_header (original_name : string) (n_nodes n_edges : nat) : string :=
  let nls := String Py.nl EmptyString in
  String.concat ""
    [ String.append "digraph udf_" (String.append original_name (String.append " {" nls));
      String.append "  // UDF-filtered subgraph" nls;
      String.append "  // Only user-defined functions and their bodies" nls;
      String.append "  // Nodes: "
        (String.append (pretty n_nodes)
           (String.append ", Edges: "
              (String.append (pretty n_edges) (String.append nls nls))));
      String.append "  // Node definitions" nls ].

Definition edge_banner : string :=
  let nls := String Py.nl EmptyString in
  String.append nls (String.append "  // Edge definitions" nls).

Definition closing : string := String.append "}" (String Py.nl EmptyString).


(** A filtered node whose stripped raw text is the original's. *)
Definition intact (original_nodes : list (string * UdfVerifier.node_data))
    (kv : string * UdfVerifier.node_data) : Prop :=
  ∃ o, odict_get kv.1 original_nodes = Some o
       ∧ Py.strip (UdfVerifier.raw_definition o) = Py.strip (UdfVerifier.raw_definition kv.2).

End Spec.

(** ** Vocabulary of the further statements *)

Module Vocab.

(** The text has a recognised CFG edge from [x] to [y]. *)
Definition cfg_step (edges : list edge_info) (x y : string) : Prop :=
  ∃ e, e ∈ edges ∧ edge_type e = "CFG" ∧ source e = x ∧ target e = y.

(** [x] is reached from a seed along CFG successors, in any number of
    steps. *)
Definition reachable (step : string -> string -> Prop) (seeds : list string)
    (x : string) : Prop :=
  ∃ s, s ∈ seeds ∧ rtc step s x.

(** A filtered node whose id the original does not declare. *)
Definition is_foreign (original_nodes : list (string * UdfVerifier.node_data))
    (kv : string * UdfVerifier.node_data) : bool :=
  match odict_get kv.1 original_nodes with
  | None => true
  | Some _ => false
  end.

(** A filtered node whose raw text differs from the original's after
    surrounding whitespace is stripped. *)
Definition is_corrupted (original_nodes : list (string * UdfVerifier.node_data))
    (kv : string * UdfVerifier.node_data) : bool :=
  match odict_get kv.1 original_nodes with
  | None => false
  | Some o =>
      negb (String.eqb (Py.strip (UdfVerifier.raw_definition o))
                       (Py.strip (UdfVerifier.raw_definition kv.2)))
  end.

Definition not_found_issue (kv : string * UdfVerifier.node_data) : string :=
  String.append "Node " (String.append kv.1 " not found in original").

(** Every filtered node is an original node with the same decoded
    attributes. *)
Definition faithful (original_nodes filtered_nodes : list (string * UdfVerifier.node_data))
    : Prop :=
  ∀ k d, (k, d) ∈ filtered_nodes ->
         ∃ d', odict_get k original_nodes = Some d'
               ∧ UdfVerifier.attributes d' = UdfVerifier.attributes d.

(** A text without a line feed. *)
Definition one_line (s : string) : Prop :=
  Py.contains (String Py.nl EmptyString) s = false.

(** A line on which no scanner finds an edge or the start of a node
    declaration. *)
Definition inert (l : string) : Prop :=
  Re.edge_match (Py.strip l) = None ∧ Re.node_match (Py.strip l) = None.

(** Every line that opens a node declaration also closes it. *)
Definition one_line_declarations (dot_content : string) : Prop :=
  ∀ l, l ∈ Py.lines dot_content -> is_Some (Re.node_match (Py.strip l)) ->
       Py.endswith Scan.end_mark (Py.strip l) = true.

(** The ids that some line of the text declares. *)
Definition declared (dot_content : string) (x : string) : Prop :=
  ∃ l, l ∈ Py.lines dot_content ∧ Re.node_match (Py.strip l) = Some x.

(** The id a line declares, with the line. *)
Definition decl_line (l : string) : option (string * string) :=
  node_id ← Re.node_match (Py.strip l); Some (node_id, l).

(** The last line of the text that declares [node_id]. *)
Definition last_decl (dot_content node_id : string) : option string :=
  odict_get node_id (reverse (omap decl_line (Py.lines dot_content))).

(** Every recognised edge joins declared nodes. *)
Definition edges_join_declared (dot_content : string) : Prop :=
  ∀ e, e ∈ Spec.recognised id (Py.lines dot_content) ->
       declared dot_content (source e) ∧ declared dot_content (target e).

(** The number of double quotes in a text. *)
Fixpoint quotes (s : string) : nat :=
  match s with
  | EmptyString => 0
  | String c s' => (if Ascii.eqb c Py.dquote then 1 else 0) + quotes s'
  end.

(** The leftmost match of the attribute pattern of the subgraph verifier:
    its key and its value. *)
Fixpoint first_attr (s : string) : option (string * string) :=
  match SubgraphChecks.attr_here s with
  | Some (key, value, _) => Some (key, value)
  | None =>
      match s with
      | EmptyString => None
      | String _ s' => first_attr s'
      end
  end.

End Vocab.

(** ** Sample graphs *)

Module Examples.
Import Py.

(** The scenario of the specification: a user method, an external method
    and a block; a CFG cycle and a call to the external method. *)
Definition scenario : string :=
  unlines
    [ "digraph g {";
      dq "'A' [label='METHOD' IS_EXTERNAL='false' NAME='foo' FILENAME='a.c'];";
      dq "'B' [label='METHOD' IS_EXTERNAL='true' NAME='printf' FILENAME='<empty>'];";
      dq "'C' [label='BLOCK' CODE='x'];";
      dq "  'A' -> 'C' [label='CFG' ];";
      dq "  'C' -> 'A' [label='CFG' ];";
      dq "  'A' -> 'B' [label='CALL' ];";
      "}" ].






(** A user method that calls itself, the CALL edge written before the CFG
    edge of its body. *)
Definition call_before_cfg : string :=
  unlines
    [ dq "'1' [label='METHOD' NAME='main' FILENAME='a.c'];";
      dq "'2' [label='BLOCK'];";
      dq "  '1' -> '1' [label='CALL' ];";
      dq "  '1' -> '2' [label='CFG' ];" ].

(** A declaration whose last value is an unquoted token, followed by a
    second declaration. *)
Definition bare_tail_1 : string :=
  dq "'1' [label='METHOD' NAME='main' FILENAME='a.c' ORDER=1];".
Definition bare_tail_2 : string := dq "'2' [label='BLOCK'];".
Definition bare_tail : string :=
  unlines [ bare_tail_1; bare_tail_2; dq "  '1' -> '2' [label='CFG' ];" ].

(** A declaration whose CODE value holds a line feed, the text before the
    line feed ending with an escaped quote, a bracket and a semicolon. *)
Definition quoted_end_1 : string :=
  dq "'1' [label='METHOD' NAME='f' FILENAME='a.cpp' CODE='x = m[\'k\'];".
Definition quoted_end_2 : string := dq "return x;'];".
Definition quoted_end : string :=
  unlines [ quoted_end_1; quoted_end_2; bare_tail_2 ].


(** A user method with a one-block body; the declaration of the block ends
    with a space. *)
Definition small_graph : string :=
  unlines
    [ "digraph g {";
      dq "'7' [label='METHOD' NAME='main' FILENAME='a.c' CODE='int main()'];";
      dq "'8' [label='BLOCK' CODE='x']; ";
      dq "  '7' -> '8' [label='CFG' ];";
      "}" ].

(** What the UDF filter writes for [small_graph]. *)
Definition small_filtered : string :=
  match UdfFilter.filter_udf_subgraph 10 small_graph with
  | Some (node_definitions, kept_edges) =>
      UdfFilter.write_dot_file node_definitions kept_edges "g"
  | None => EmptyString
  end.




Definition set_repr_any (s : gset string) : string :=
  String.append "{" (String.append (join ", " (elements s)) "}").


Definition all_passed : list (string * UdfVerifier.check) :=
  [ ("udf_identification", UdfVerifier.Verdict true []);
    ("cfg_reachability", UdfVerifier.Verdict true []);
    ("edge_filtering", UdfVerifier.Verdict true []);
    ("node_integrity", UdfVerifier.Verdict true []) ].

End Examples.

(** ** Further sample data *)

Module Samples.
Import Py.

(** The CFG adjacency of the scenario graph. *)
Definition scenario_adj : gmap string (list string) :=
  UdfFilter.cfg_adjacency (UdfFilter.extract_edges_simple Examples.scenario).

(** The node tables the verifier parses from the small graph and from what
    the filter writes for it. *)
Definition small_original : list (string * UdfVerifier.node_data) :=
  UdfVerifier.parse_nodes Examples.small_graph.
Definition small_table : list (string * UdfVerifier.node_data) :=
  UdfVerifier.parse_nodes Examples.small_filtered.

(** Node 1 declared twice, with different texts. *)
Definition twice_1 : string := dq "'1' [label='BLOCK' CODE='old'];".
Definition twice_2 : string := dq "'2' [label='BLOCK'];".
Definition twice_3 : string := dq "'1' [label='METHOD' NAME='f' FILENAME='a.c'];".
Definition twice : string :=
  unlines [ twice_1; twice_2; twice_3; dq "  '1' -> '2' [label='CFG' ];" ].

(** A user method whose CODE value runs over two lines. *)
Definition two_lines : string :=
  unlines
    [ dq "'1' [label='METHOD' NAME='f' FILENAME='a.c' CODE='int f() {";
      dq "  return 0; }'];";
      dq "'2' [label='BLOCK'];";
      dq "  '1' -> '2' [label='CFG' ];" ].

End Samples.
(** * Properties *)

(** ** Strings *)

Section StringFacts.
Import Py.

Lemma app_nil_l_s (s : string) : String.append EmptyString s = s.
Proof. reflexivity. Qed.

Lemma app_cons_s (c : ascii) (s t : string) :
  String.append (String c s) t = String c (String.append s t).
Proof. reflexivity. Qed.

Lemma app_nil_r_s (s : string) : String.append s EmptyString = s.
Proof. induction s as [|c s IH]; [done|]. by rewrite app_cons_s, IH. Qed.

Lemma app_assoc_s (s t u : string) :
  String.append (String.append s t) u = String.append s (String.append t u).
Proof. induction s as [|c s IH]; [done|]. by rewrite !app_cons_s, IH. Qed.

Lemma eqb_true_iff (s t : string) : String.eqb s t = true <-> s = t.
Proof. apply String.eqb_eq. Qed.

Lemma eqb_false_iff (s t : string) : String.eqb s t = false <-> s ≠ t.
Proof. apply String.eqb_neq. Qed.

(** [startswith] is the prefix relation. *)
Lemma prefix_iff (p s : string) :
  String.prefix p s = true <-> ∃ r, s = String.append p r.
Proof.
  revert s. induction p as [|c p IH]; intros s.
  - destruct s; simpl; split; eauto.
  - destruct s as [|d s]; simpl.
    + split; [done|]. by intros [r Hr].
    + destruct (ascii_dec c d) as [->|Hne].
      * rewrite IH. split; intros [r Hr]; exists r.
        -- by rewrite app_cons_s, Hr.
        -- rewrite app_cons_s in Hr. congruence.
      * split; [done|]. intros [r Hr]. rewrite app_cons_s in Hr. congruence.
Qed.

Lemma contains_unfold (sub s : string) :
  contains sub s =
  if String.prefix sub s then true
  else match s with
       | EmptyString => false
       | String _ s' => contains sub s'
       end.
Proof. by destruct s. Qed.

Lemma endswith_unfold (suf s : string) :
  endswith suf s =
  if String.eqb s suf then true
  else match s with
       | EmptyString => false
       | String _ s' => endswith suf s'
       end.
Proof. by destruct s. Qed.

(** [sub in s] holds exactly when [sub] occurs somewhere in [s]. *)
Lemma contains_iff (sub s : string) :
  contains sub s = true <->
  ∃ pre post, s = String.append pre (String.append sub post).
Proof.
  induction s as [|c s IH]; rewrite contains_unfold.
  - destruct (String.prefix sub EmptyString) eqn:Hp.
    + split; [|done]. intros _. apply prefix_iff in Hp as [r Hr].
      exists EmptyString, r. by rewrite app_nil_l_s.
    + split; [done|]. intros (pre & post & Heq). exfalso.
      destruct pre; [|by rewrite app_cons_s in Heq].
      rewrite app_nil_l_s in Heq.
      assert (String.prefix sub EmptyString = true); [|congruence].
      apply prefix_iff. eauto.
  - destruct (String.prefix sub (String c s)) eqn:Hp.
    + split; [|done]. intros _. apply prefix_iff in Hp as [r Hr].
      exists EmptyString, r. by rewrite app_nil_l_s.
    + rewrite IH. split.
      * intros (pre & post & ->). exists (String c pre), post.
        by rewrite app_cons_s.
      * intros (pre & post & Heq). destruct pre as [|d pre].
        -- rewrite app_nil_l_s in Heq.
           assert (String.prefix sub (String c s) = true); [|congruence].
           apply prefix_iff. eauto.
        -- rewrite app_cons_s in Heq. injection Heq as -> ->. eauto.
Qed.

(** [endswith] is the suffix relation. *)
Lemma endswith_iff (suf s : string) :
  endswith suf s = true <-> ∃ pre, s = String.append pre suf.
Proof.
  induction s as [|c s IH]; rewrite endswith_unfold.
  - destruct (String.eqb EmptyString suf) eqn:He.
    + apply eqb_true_iff in He as <-. split; [|done]. by exists EmptyString.
    + apply eqb_false_iff in He. split; [done|]. intros [pre Hp].
      destruct pre; [by rewrite app_nil_l_s in Hp|by rewrite app_cons_s in Hp].
  - destruct (String.eqb (String c s) suf) eqn:He.
    + apply eqb_true_iff in He as <-. split; [|done]. by exists EmptyString.
    + apply eqb_false_iff in He. rewrite IH. split.
      * intros [pre ->]. exists (String c pre). by rewrite app_cons_s.
      * intros [pre Hp]. destruct pre as [|d pre].
        -- by rewrite app_nil_l_s in Hp.
        -- rewrite app_cons_s in Hp. injection Hp as -> ->. eauto.
Qed.

Lemma split_nonempty (sep : ascii) (s : string) : split sep s ≠ [].
Proof.
  destruct s as [|c s]; simpl; [done|].
  destruct (Ascii.eqb c sep); [done|]. by destruct (split sep s).
Qed.

(** Joining the parts of a split gives the text back. *)
Lemma join_split (sep : ascii) (s : string) :
  join (String sep EmptyString) (split sep s) = s.
Proof.
  unfold join. induction s as [|c s IH]; [done|]. simpl.
  destruct (Ascii.eqb c sep) eqn:Hc.
  - apply Ascii.eqb_eq in Hc as ->.
    pose proof (split_nonempty sep s) as Hne.
    destruct (split sep s) as [|h t] eqn:Hs; [done|].
    change (String.concat (String sep EmptyString) (EmptyString :: h :: t))
      with (String.append EmptyString (String.append (String sep EmptyString)
              (String.concat (String sep EmptyString) (h :: t)))).
    by rewrite IH.
  - pose proof (split_nonempty sep s) as Hne.
    destruct (split sep s) as [|h t] eqn:Hs; [done|].
    destruct t as [|h' t].
    + simpl in *. by rewrite IH.
    + change (String.concat (String sep EmptyString) (String c h :: h' :: t))
        with (String c (String.append h (String.append (String sep EmptyString)
                (String.concat (String sep EmptyString) (h' :: t))))).
      by rewrite <- IH.
Qed.

(** No part of a split contains the separator. *)
Lemma split_no_sep (sep : ascii) (s : string) :
  Forall (fun part => contains (String sep EmptyString) part = false) (split sep s).
Proof.
  induction s as [|c s IH]; simpl.
  - by constructor.
  - destruct (Ascii.eqb c sep) eqn:Hc.
    + by constructor.
    + pose proof (split_nonempty sep s).
      destruct (split sep s) as [|h t]; [done|].
      inversion IH as [|?? Hh Ht]; subst. constructor; [|done].
      simpl. destruct (ascii_dec sep c) as [->|Hne].
      * by rewrite Ascii.eqb_refl in Hc.
      * destruct h; done.
Qed.

Lemma lower_true : lower "true" = "true".
Proof. reflexivity. Qed.

End StringFacts.

(** ** The UDF classifier *)

Section Classifier.
Import Py.

Lemma dict_get_attr (attrs : gmap string string) (key : string) :
  dict_get attrs key EmptyString = Spec.attr attrs key.
Proof. unfold dict_get, Spec.attr. by destruct (attrs !! key). Qed.

Lemma dict_get_default (attrs : gmap string string) (key d : string) :
  dict_get attrs key d = default d (attrs !! key).
Proof. unfold dict_get. by destruct (attrs !! key). Qed.

Lemma eqb_case (s t : string) :
  (String.eqb s t = true ∧ s = t) ∨ (String.eqb s t = false ∧ s ≠ t).
Proof.
  destruct (String.eqb s t) eqn:He; [left|right]; split; try done.
  - by apply eqb_true_iff.
  - by apply eqb_false_iff.
Qed.

Lemma prefix_case (p s : string) :
  (String.prefix p s = true ∧ Spec.is_prefix p s)
  ∨ (String.prefix p s = false ∧ ¬ Spec.is_prefix p s).
Proof.
  destruct (String.prefix p s) eqn:He; [left|right]; split; try done.
  - by apply prefix_iff.
  - intros H. apply prefix_iff in H. congruence.
Qed.

Lemma contains_case (sub s : string) :
  (contains sub s = true ∧ Spec.is_substring sub s)
  ∨ (contains sub s = false ∧ ¬ Spec.is_substring sub s).
Proof.
  destruct (contains sub s) eqn:He; [left|right]; split; try done.
  - by apply contains_iff.
  - intros H. apply contains_iff in H. congruence.
Qed.

(** C1. The classifier of [udf_filter.py] is a total boolean function of the
    attribute map alone, and it answers true exactly when the six rules hold:
    label is METHOD; IS_EXTERNAL (read as false when missing) is not true up
    to letter case; neither NAME nor FULL_NAME starts with <operator>; NAME is
    neither <clinit> nor <global>; FILENAME is none of <includes>, <empty> and
    the empty string; AST_PARENT_FULL_NAME does not contain <includes>.
    Missing attributes other than IS_EXTERNAL read as the empty string, and a
    node whose label is not METHOD is never a UDF. *)
Theorem C1_is_user_defined_method_rules (attrs : gmap string string) :
  (UdfFilter.is_user_defined_method attrs = true <-> Spec.udf_rules attrs)
  ∧ (Spec.attr attrs "label" ≠ "METHOD" ->
     UdfFilter.is_user_defined_method attrs = false).
Proof.
  unfold UdfFilter.is_user_defined_method, Spec.udf_rules, Spec.caseless_eq,
    startswith.
  rewrite !dict_get_attr, dict_get_default, lower_true.
  destruct (eqb_case (Spec.attr attrs "label") "METHOD") as [[-> Hl]|[-> Hl]];
    simpl; [|split; [split; [done|tauto]|done]].
  split; [|done].
  destruct (eqb_case (lower (default "false" (attrs !! "IS_EXTERNAL"))) "true")
    as [[-> He]|[-> He]]; [split; [done|tauto]|].
  destruct (prefix_case "<operator>" (Spec.attr attrs "NAME")) as [[-> Hn]|[-> Hn]];
    simpl; [split; [done|tauto]|].
  destruct (prefix_case "<operator>" (Spec.attr attrs "FULL_NAME"))
    as [[-> Hf]|[-> Hf]]; simpl; [split; [done|tauto]|].
  destruct (eqb_case (Spec.attr attrs "NAME") "<clinit>") as [[-> H1]|[-> H1]];
    simpl; [split; [done|tauto]|].
  destruct (eqb_case (Spec.attr attrs "NAME") "<global>") as [[-> H2]|[-> H2]];
    simpl; [split; [done|tauto]|].
  destruct (eqb_case (Spec.attr attrs "FILENAME") "<includes>") as [[-> H3]|[-> H3]];
    simpl; [split; [done|tauto]|].
  destruct (eqb_case (Spec.attr attrs "FILENAME") "<empty>") as [[-> H4]|[-> H4]];
    simpl; [split; [done|tauto]|].
  destruct (eqb_case (Spec.attr attrs "FILENAME") EmptyString) as [[-> H5]|[-> H5]];
    simpl; [split; [done|tauto]|].
  destruct (contains_case "<includes>" (Spec.attr attrs "AST_PARENT_FULL_NAME"))
    as [[-> H6]|[-> H6]]; [split; [done|tauto]|].
  split; [|done]. intros _. tauto.
Qed.

(** The two copies of the classifier are the same function. *)
Lemma classifier_copies_agree (attrs : gmap string string) :
  UdfVerifier.is_user_defined_method attrs = UdfFilter.is_user_defined_method attrs.
Proof. reflexivity. Qed.

Lemma elem_of_udf_ids (nodes : list (string * UdfVerifier.node_data)) (x : string) :
  x ∈ UdfVerifier.udf_ids nodes <->
  ∃ d, (x, d) ∈ nodes
       ∧ UdfVerifier.attributes d !! "label" = Some "METHOD"
       ∧ UdfVerifier.is_user_defined_method (UdfVerifier.attributes d) = true.
Proof.
  unfold UdfVerifier.udf_ids, UdfVerifier.is_method.
  rewrite elem_of_list_to_set, list_elem_of_fmap. split.
  - intros ([k d] & -> & Hin). apply list_elem_of_filter in Hin as [[Hm Hu] Hin].
    simpl in *. apply bool_decide_eq_true in Hm. eauto.
  - intros (d & Hin & Hm & Hu). exists (x, d). split; [done|].
    apply list_elem_of_filter. simpl. split; [|done].
    split; [by apply bool_decide_eq_true|done].
Qed.

Lemma elem_of_udf_methods (nodes_info : gmap string (gmap string string)) (x : string) :
  x ∈ UdfFilter.udf_methods nodes_info <->
  ∃ attrs, nodes_info !! x = Some attrs
           ∧ attrs !! "label" = Some "METHOD"
           ∧ UdfFilter.is_user_defined_method attrs = true.
Proof.
  unfold UdfFilter.udf_methods. rewrite elem_of_dom. split.
  - intros [attrs Ha]. apply map_lookup_filter_Some in Ha as [Hl [Hm Hu]].
    simpl in *. eauto.
  - intros (attrs & Hl & Hm & Hu). exists attrs.
    by apply map_lookup_filter_Some.
Qed.

(** C9. The classifier written in the verifier returns, on every attribute
    map, the boolean the producer's classifier returns; hence over one node
    table (the same ids with the same attribute maps, whatever the raw texts
    kept beside them) the verifier's seed set is the producer's seed set. *)
Theorem C9_classifier_copies_agree :
  (∀ attrs : gmap string string,
     UdfVerifier.is_user_defined_method attrs
     = UdfFilter.is_user_defined_method attrs)
  ∧ (∀ (nodes_info : gmap string (gmap string string)) (raw : string -> string),
       UdfVerifier.udf_ids
         (map (fun kv => (kv.1, UdfVerifier.NodeData kv.2 (raw kv.1)))
              (map_to_list nodes_info))
       = UdfFilter.udf_methods nodes_info).
Proof.
  split; [apply classifier_copies_agree|].
  intros nodes_info raw. apply set_eq. intros x.
  rewrite elem_of_udf_ids, elem_of_udf_methods. split.
  - intros (d & Hin & Hm & Hu). apply list_elem_of_fmap in Hin as ([k a] & Heq & Hin).
    simpl in Heq. injection Heq as -> ->. simpl in *.
    apply elem_of_map_to_list in Hin. exists a.
    by rewrite <- classifier_copies_agree.
  - intros (a & Hl & Hm & Hu).
    exists (UdfVerifier.NodeData a (raw x)). simpl. split; [|by rewrite classifier_copies_agree].
    apply list_elem_of_fmap. exists (x, a). split; [done|].
    by apply elem_of_map_to_list.
Qed.

End Classifier.

(** ** Edge recognition *)

Section EdgeRecognition.
Import Py.

Lemma span_spec (p : ascii -> bool) (s a b : string) :
  span p s = (a, b) ->
  s = String.append a b ∧ Spec.all_chars p a = true
  ∧ match b with
    | EmptyString => True
    | String c _ => p c = false
    end.
Proof.
  revert a b. induction s as [|c s IH]; intros a b; simpl.
  - intros [= <- <-]. done.
  - destruct (p c) eqn:Hc.
    + destruct (span p s) as [a' b'] eqn:Hs. intros [= <- <-].
      destruct (IH _ _ eq_refl) as (-> & Ha & Hb).
      rewrite app_cons_s. simpl. by rewrite Hc, Ha.
    + intros [= <- <-]. by rewrite app_nil_l_s.
Qed.

Lemma drop_app_length (p r : string) : drop (String.length p) (String.append p r) = r.
Proof. induction p as [|c p IH]; [by destruct r|]. by rewrite app_cons_s. Qed.

Lemma literal_spec (p s r : string) :
  Re.literal p s = Some r <-> s = String.append p r.
Proof.
  unfold Re.literal. destruct (String.prefix p s) eqn:Hp.
  - apply prefix_iff in Hp as [r' ->]. rewrite drop_app_length. split.
    + by intros [= ->].
    + by intros ->%(inj (String.append p)).
  - split; [done|]. intros ->.
    assert (String.prefix p (String.append p r) = true); [|congruence].
    apply prefix_iff. eauto.
Qed.


Lemma quoted_app (s r : string) :
  String.append (Spec.quoted s) r
  = String dquote (String.append s (String dquote r)).
Proof. unfold Spec.quoted. by rewrite app_cons_s, app_assoc_s, app_cons_s. Qed.





Lemma span_app (p : ascii -> bool) (a b : string) :
  Spec.all_chars p a = true ->
  match b with
  | EmptyString => True
  | String c _ => p c = false
  end ->
  span p (String.append a b) = (a, b).
Proof.
  intros Ha Hb. induction a as [|c a IH].
  - rewrite app_nil_l_s. destruct b as [|c b]; [done|]. simpl. by rewrite Hb.
  - simpl in Ha. apply andb_prop in Ha as [Hc Ha].
    rewrite app_cons_s. simpl. by rewrite Hc, IH.
Qed.

Lemma skip_ws_app (ws r : string) :
  Spec.all_chars isspace ws = true ->
  match r with
  | EmptyString => True
  | String c _ => isspace c = false
  end ->
  Re.skip_ws (String.append ws r) = r.
Proof. intros Hw Hr. unfold Re.skip_ws. by rewrite span_app. Qed.

Lemma quoted_id_quoted (id r : string) :
  Spec.plain_id id -> Re.quoted_id (String.append (Spec.quoted id) r) = Some (id, r).
Proof.
  intros [Hne Hq]. rewrite quoted_app. unfold Re.quoted_id.
  rewrite Ascii.eqb_refl, span_app; [|done|done].
  destruct id; [done|]. by rewrite Ascii.eqb_refl.
Qed.

Lemma label_here_shape (ty mid post : string) :
  Spec.plain_id ty ->
  Re.label_here (String.append "label=" (String.append (Spec.quoted ty)
     (String.append mid (String.append "];" post)))) = Some ty.
Proof.
  intros [Hne Hq]. unfold Re.label_here.
  assert (Re.literal (String.append "label=" (String dquote EmptyString))
            (String.append "label=" (String.append (Spec.quoted ty)
               (String.append mid (String.append "];" post))))
          = Some (String.append ty (String dquote
               (String.append mid (String.append "];" post))))) as ->.
  { apply literal_spec. rewrite quoted_app. by rewrite !app_assoc_s. }
  simpl. rewrite span_app; [|done|done]. destruct ty; [done|].
  rewrite Ascii.eqb_refl. simpl.
  assert (contains "];" (String.append mid (String.append "];" post)) = true)
    as ->; [|done].
  apply contains_iff. eauto.
Qed.

Lemma label_search_app (pre s : string) :
  is_Some (Re.label_here s) -> is_Some (Re.label_search (String.append pre s)).
Proof.
  intros Hs. induction pre as [|c pre IH].
  - rewrite app_nil_l_s. destruct s as [|c s]; [by destruct Hs|].
    simpl. by destruct (Re.label_search s).
  - rewrite app_cons_s. simpl. destruct IH as [ty ->]. eauto.
Qed.

(** Conversely, every line of the edge shape is matched, with the same
    source and target. *)
Lemma shape_edge_match (s src tgt ty : string) :
  Spec.edge_shape s src tgt ty -> ∃ ty', Re.edge_match s = Some (src, tgt, ty').
Proof.
  intros (ws1 & ws2 & ws3 & pre & mid & post & -> & Hw1 & Hw2 & Hw3 & Hs & Ht & Hy).
  unfold Re.edge_match.
  rewrite quoted_id_quoted by done. simpl.
  rewrite skip_ws_app by done.
  assert (∀ r, Re.literal "->" (String.append "->" r) = Some r) as ->
    by (intros r; by apply literal_spec). simpl.
  rewrite skip_ws_app by done.
  rewrite quoted_id_quoted by done. simpl.
  rewrite skip_ws_app by done.
  assert (∀ r, Re.literal "[" (String.append "[" r) = Some r) as ->
    by (intros r; by apply literal_spec). simpl.
  destruct (label_search_app pre _ (mk_is_Some _ _ (label_here_shape ty mid post Hy)))
    as [ty' ->].
  simpl. eauto.
Qed.

End EdgeRecognition.

(** ** The four edge passes *)

Section EdgePasses.
Import Py.

Lemma recognised_app (raw : string -> string) (ls1 ls2 : list string) :
  Spec.recognised raw (ls1 ++ ls2)
  = Spec.recognised raw ls1 ++ Spec.recognised raw ls2.
Proof. apply omap_app. Qed.

Lemma recognised_cons (raw : string -> string) (l : string) (ls : list string) :
  Spec.recognised raw (l :: ls)
  = match Spec.recognise raw l with
    | Some e => e :: Spec.recognised raw ls
    | None => Spec.recognised raw ls
    end.
Proof. reflexivity. Qed.

(** Every recognised edge comes from one physical line that the edge
    pattern matches. *)
Lemma recognised_elem (raw : string -> string) (ls : list string) (e : edge_info) :
  e ∈ Spec.recognised raw ls <->
  ∃ l, l ∈ ls
       ∧ Re.edge_match (strip l) = Some (Spec.signature e)
       ∧ line e = raw l.
Proof.
  unfold Spec.recognised. rewrite list_elem_of_omap. unfold Spec.recognise.
  split.
  - intros (l & Hin & Hr). exists l. split; [done|].
    destruct (Re.edge_match (strip l)) as [[[a b] c]|]; [|done].
    by injection Hr as <-.
  - intros (l & Hin & Hm & Hl). exists l. split; [done|].
    rewrite Hm. destruct e; simpl in *. by subst.
Qed.

Lemma sub_parse_edges_fold (ls : list string) (acc : list edge_info) :
  fold_left SubgraphVerifier.parse_edges_step ls acc
  = acc ++ Spec.recognised strip ls.
Proof.
  revert acc. induction ls as [|l ls IH]; intros acc; cbn [fold_left].
  - simpl. by rewrite app_nil_r.
  - rewrite IH, recognised_cons.
    unfold SubgraphVerifier.parse_edges_step, Spec.recognise.
    destruct (Re.edge_match (strip l)) as [[[a b] c]|]; [|done].
    by rewrite <- app_assoc.
Qed.

Lemma sub_parse_edges_spec (dot_content : string) :
  SubgraphVerifier.parse_edges dot_content
  = Spec.recognised strip (lines dot_content).
Proof. unfold SubgraphVerifier.parse_edges. by rewrite sub_parse_edges_fold. Qed.

Lemma udf_parse_edges_fold (ls : list string) (acc : list edge_info) :
  fold_left UdfVerifier.parse_edges_step ls acc
  = acc ++ Spec.recognised (fun l => strip (strip l)) ls.
Proof.
  revert acc. induction ls as [|l ls IH]; intros acc; cbn [fold_left].
  - simpl. by rewrite app_nil_r.
  - rewrite IH, recognised_cons.
    unfold UdfVerifier.parse_edges_step, Spec.recognise.
    destruct (Re.edge_match (strip l)) as [[[a b] c]|]; [|done].
    by rewrite <- app_assoc.
Qed.

Lemma udf_parse_edges_spec (dot_content : string) :
  UdfVerifier.parse_edges dot_content
  = Spec.recognised (fun l => strip (strip l)) (lines dot_content).
Proof. unfold UdfVerifier.parse_edges. by rewrite udf_parse_edges_fold. Qed.

Lemma filter_edges_fold (ls : list string) (st : UdfFilter.edges_state) :
  let R := Spec.recognised id ls in
  fold_left UdfFilter.edges_step ls st
  = UdfFilter.EdgesState
      (UdfFilter.edge_lines st ++ R)
      (fold_left (fun adj e => adj_append adj (source e) (target e))
         (filter Spec.is_cfg R) (UdfFilter.cfg_adjacency st))
      (UdfFilter.cfg_edges st ++ filter Spec.is_cfg R)
      (UdfFilter.call_edges st ++ filter Spec.is_call R).
Proof.
  revert st. induction ls as [|l ls IH]; intros st; cbn [fold_left].
  - simpl. rewrite !app_nil_r. by destruct st.
  - rewrite IH, recognised_cons. clear IH.
    unfold UdfFilter.edges_step, Spec.recognise.
    destruct (Re.edge_match (strip l)) as [[[a b] c]|]; [|done].
    unfold Spec.is_cfg, Spec.is_call.
    destruct (String.eqb c "CFG") eqn:Hc.
    + apply eqb_true_iff in Hc as ->. simpl.
      rewrite filter_cons_True by done. rewrite filter_cons_False by done.
      simpl. by rewrite <- !app_assoc.
    + apply eqb_false_iff in Hc.
      destruct (String.eqb c "CALL") eqn:Hc'.
      * apply eqb_true_iff in Hc' as ->. simpl.
        rewrite filter_cons_False by done. rewrite filter_cons_True by done.
        simpl. by rewrite <- !app_assoc.
      * apply eqb_false_iff in Hc'. simpl.
        rewrite !filter_cons_False by done. by rewrite <- !app_assoc.
Qed.

Lemma filter_edges_spec (dot_content : string) :
  let st := UdfFilter.extract_edges_simple dot_content in
  let R := Spec.recognised id (lines dot_content) in
  UdfFilter.edge_lines st = R
  ∧ UdfFilter.cfg_edges st = filter Spec.is_cfg R
  ∧ UdfFilter.call_edges st = filter Spec.is_call R
  ∧ UdfFilter.cfg_adjacency st
    = fold_left (fun adj e => adj_append adj (source e) (target e)) (filter Spec.is_cfg R) ∅.
Proof.
  simpl. unfold UdfFilter.extract_edges_simple. by rewrite filter_edges_fold.
Qed.

Lemma endpoints_app (es1 es2 : list edge_info) :
  Spec.endpoints (es1 ++ es2) = Spec.endpoints es1 ∪ Spec.endpoints es2.
Proof.
  unfold Spec.endpoints. rewrite map_app. apply leibniz_equiv.
  apply union_list_app.
Qed.

Lemma extractor_edges_fold (edge_types : gset string) (ls : list string)
    (st : list string * gset string) :
  let W := filter (fun e => edge_type e ∈ edge_types) (Spec.recognised strip ls) in
  fold_left (Extractor.edges_step edge_types) ls st
  = (st.1 ++ map line W, st.2 ∪ Spec.endpoints W).
Proof.
  revert st. induction ls as [|l ls IH]; intros [acc nodes]; cbn [fold_left].
  - simpl. rewrite app_nil_r. f_equal. unfold Spec.endpoints. simpl. set_solver.
  - rewrite IH, recognised_cons. clear IH.
    unfold Extractor.edges_step, Spec.recognise.
    destruct (Re.edge_match (strip l)) as [[[a b] c]|]; [|done].
    destruct (decide (c ∈ edge_types)) as [Hin|Hin]; simpl.
    + rewrite filter_cons_True by done. simpl. rewrite <- app_assoc. f_equal.
      change (EdgeInfo a b c (strip l) :: ?x) with ([EdgeInfo a b c (strip l)] ++ x).
      rewrite endpoints_app. unfold Spec.endpoints at 2. simpl. set_solver.
    + by rewrite filter_cons_False by done.
Qed.

Lemma recognised_strip_line (ls : list string) :
  Forall (fun e => Re.edge_match (line e) = Some (Spec.signature e))
    (Spec.recognised strip ls).
Proof.
  apply Forall_forall. intros e He.
  apply recognised_elem in He as (l & _ & Hm & ->). done.
Qed.

Lemma omap_edge_match_lines (es : list edge_info) :
  Forall (fun e => Re.edge_match (line e) = Some (Spec.signature e)) es ->
  omap Re.edge_match (map line es) = map Spec.signature es.
Proof.
  induction 1 as [|e es He _ IH]; [done|].
  change (omap Re.edge_match (map line (e :: es)))
    with (match Re.edge_match (line e) with
          | Some y => y :: omap Re.edge_match (map line es)
          | None => omap Re.edge_match (map line es)
          end).
  by rewrite He, IH.
Qed.

(** C4. The edge lines kept by the extractor are the lines of exactly those
    edges of the graph whose type is in the wanted set, in the order of the
    source text, so the two lists of (source, target, type) signatures are
    equal with multiplicities; every kept line is an edge whose type is
    wanted; and the kept node ids are the union of the source and target ids
    of the kept edges. *)
Theorem C4_extract_edges_by_type (dot_content : string) (edge_types : gset string) :
  let G := SubgraphVerifier.parse_edges dot_content in
  let wanted := filter (fun e => edge_type e ∈ edge_types) G in
  let out := Extractor.extract_edges_simple dot_content edge_types in
  out.1 = map line wanted
  ∧ omap Re.edge_match out.1 = map Spec.signature wanted
  ∧ (∀ l, l ∈ out.1 ->
       ∃ src tgt ty, Re.edge_match l = Some (src, tgt, ty) ∧ ty ∈ edge_types)
  ∧ out.2 = Spec.endpoints wanted.
Proof.
  simpl. unfold Extractor.extract_edges_simple.
  rewrite extractor_edges_fold, sub_parse_edges_spec. simpl.
  set (W := filter _ _).
  assert (Forall (fun e => Re.edge_match (line e) = Some (Spec.signature e)) W) as HW.
  { apply Forall_forall. intros e He. apply list_elem_of_filter in He as [_ He].
    by apply (proj1 (Forall_forall _ _) (recognised_strip_line (lines dot_content))). }
  split; [done|]. split; [by apply omap_edge_match_lines|]. split.
  - intros l Hl. apply list_elem_of_fmap in Hl as (e & -> & He).
    exists (source e), (target e), (edge_type e). split.
    + by apply (proj1 (Forall_forall _ _) HW).
    + by apply list_elem_of_filter in He as [? _].
  - set_solver.
Qed.

Lemma retain_edges_perm (kept_nodes seeds : gset string) (E : list edge_info) :
  UdfFilter.retain_edges (filter Spec.is_cfg E) (filter Spec.is_call E) kept_nodes seeds
  ≡ₚ filter (Spec.retained kept_nodes seeds) E.
Proof.
  unfold UdfFilter.retain_edges. induction E as [|e E IH]; [done|].
  destruct (decide (Spec.is_cfg e)) as [Hc|Hc].
  - assert (¬ Spec.is_call e) as Hn by (unfold Spec.is_cfg, Spec.is_call in *; congruence).
    rewrite (filter_cons_True Spec.is_cfg) by done.
    rewrite (filter_cons_False Spec.is_call) by done.
    destruct (decide (source e ∈ kept_nodes ∧ target e ∈ kept_nodes)) as [Hk|Hk].
    + rewrite (filter_cons_True _ e (filter Spec.is_cfg E)) by done.
      rewrite (filter_cons_True (Spec.retained _ _)) by (by left).
      simpl. by rewrite IH.
    + rewrite (filter_cons_False _ e (filter Spec.is_cfg E)) by done.
      rewrite (filter_cons_False (Spec.retained _ _)); [done|].
      intros [[_ ?]|[? _]]; [tauto|done].
  - rewrite (filter_cons_False Spec.is_cfg) by done.
    destruct (decide (Spec.is_call e)) as [Hl|Hl].
    + rewrite (filter_cons_True Spec.is_call) by done.
      destruct (decide (source e ∈ kept_nodes ∧ target e ∈ seeds)) as [Hk|Hk].
      * rewrite (filter_cons_True _ e (filter Spec.is_call E)) by done.
        rewrite (filter_cons_True (Spec.retained _ _)) by (by right).
        rewrite <- IH. by rewrite Permutation_middle.
      * rewrite (filter_cons_False _ e (filter Spec.is_call E)) by done.
        rewrite (filter_cons_False (Spec.retained _ _)); [done|].
        intros [[? _]|[_ ?]]; [done|tauto].
    + rewrite (filter_cons_False Spec.is_call) by done.
      rewrite (filter_cons_False (Spec.retained _ _)); [done|].
      intros [[? _]|[? _]]; done.
Qed.

(** C2. Of the edges of the graph, the retention filter keeps a CFG edge
    exactly when both endpoints are kept nodes, keeps a CALL edge exactly
    when its source is a kept node and its target is a seed (a kept node that
    is no seed does not do), and keeps no edge of another type; each edge that
    passes is kept as often as it occurs. *)
Theorem C2_edge_retention_rule (dot_content : string) (kept_nodes seeds : gset string) :
  let st := UdfFilter.extract_edges_simple dot_content in
  let kept_edges :=
    UdfFilter.retain_edges (UdfFilter.cfg_edges st) (UdfFilter.call_edges st)
      kept_nodes seeds in
  (∀ e, e ∈ kept_edges <->
        e ∈ UdfFilter.edge_lines st
        ∧ ((edge_type e = "CFG" ∧ source e ∈ kept_nodes ∧ target e ∈ kept_nodes)
           ∨ (edge_type e = "CALL" ∧ source e ∈ kept_nodes ∧ target e ∈ seeds)))
  ∧ kept_edges ≡ₚ filter (Spec.retained kept_nodes seeds) (UdfFilter.edge_lines st).
Proof.
  simpl. destruct (filter_edges_spec dot_content) as (-> & -> & -> & _).
  pose proof (retain_edges_perm kept_nodes seeds
                (Spec.recognised id (lines dot_content))) as HP.
  split; [|done]. intros e. rewrite HP, list_elem_of_filter.
  unfold Spec.retained. tauto.
Qed.

End EdgePasses.

Section UnmatchedLines.
Import Py.





End UnmatchedLines.

(** ** The reachability slicer *)

Section Slicer.

Implicit Types (adj : gmap string (list string)) (visited U X : gset string)
  (queue : list string).

Lemma succ_in_targets adj (x y : string) :
  Spec.succ_of adj x y -> y ∈ Spec.targets adj.
Proof.
  unfold Spec.succ_of, adj_get, Spec.targets. intros Hy.
  destruct (adj !! x) as [ys|] eqn:Hx; simpl in Hy; [|by apply elem_of_nil in Hy].
  apply elem_of_union_list. exists (list_to_set ys). split.
  - apply list_elem_of_fmap. exists (x, ys). split; [done|].
    by apply elem_of_map_to_list.
  - by apply elem_of_list_to_set.
Qed.

(** What one pass over the successors of a node does to the visited set and
    to the queue. *)
Lemma visit_neighbors_spec (neighbors : list string) visited queue :
  ∃ fresh : list string,
    Bfs.visit_neighbors neighbors visited queue
    = (visited ∪ list_to_set neighbors, queue ++ fresh)
    ∧ NoDup fresh
    ∧ (∀ y, y ∈ fresh <-> y ∈ neighbors ∧ y ∉ visited).
Proof.
  revert visited queue. induction neighbors as [|n ns IH]; intros visited queue.
  - exists []. simpl. rewrite app_nil_r. split; [f_equal; set_solver|].
    split; [constructor|]. set_solver.
  - simpl. destruct (decide (n ∈ visited)) as [Hin|Hin].
    + destruct (IH visited queue) as (fresh & -> & Hnd & Hf). exists fresh.
      split; [f_equal; set_solver|]. split; [done|].
      intros y. rewrite Hf. set_solver.
    + destruct (IH (visited ∪ {[n]}) (queue ++ [n])) as (fresh & -> & Hnd & Hf).
      exists (n :: fresh). split; [|split].
      * rewrite <- app_assoc. f_equal. set_solver.
      * constructor; [|done]. rewrite Hf. set_solver.
      * intros y. rewrite elem_of_cons, Hf. split.
        -- intros [->|[? ?]]; set_solver.
        -- intros [[->|?]%elem_of_cons ?]; [by left|].
           destruct (decide (y = n)) as [->|]; [by left|right]. set_solver.
Qed.

Lemma size_difference_fresh (fresh : list string) visited U :
  NoDup fresh ->
  (∀ y, y ∈ fresh -> y ∈ U ∧ y ∉ visited) ->
  length fresh + size (U ∖ (visited ∪ list_to_set fresh)) = size (U ∖ visited).
Proof.
  revert visited. induction fresh as [|y fresh IH]; intros visited Hnd Hf.
  - simpl. f_equal. set_solver.
  - inversion Hnd as [|?? Hy Hnd']; subst.
    destruct (Hf y ltac:(left)) as [HyU Hyv].
    specialize (IH (visited ∪ {[y]}) Hnd').
    assert (visited ∪ list_to_set (y :: fresh)
            = visited ∪ {[y]} ∪ list_to_set fresh) as -> by set_solver.
    cbn [length]. rewrite Nat.add_succ_l, IH.
    + assert (U ∖ visited = {[y]} ∪ U ∖ (visited ∪ {[y]})) as ->.
      { apply set_eq. intros z. destruct (decide (z = y)) as [->|]; set_solver. }
      rewrite (size_union (C:=gset string) {[y]} (U ∖ (visited ∪ {[y]})))
        by set_solver.
      rewrite size_singleton. lia.
    + intros z Hz. destruct (Hf z ltac:(by right)) as [? ?].
      split; [done|]. set_solver.
Qed.

(** The loop ends within the budget: each turn removes one node from the
    queue, and what it adds to the queue it takes from the nodes not yet
    visited. *)
Lemma bfs_loop_terminates adj U (fuel : nat) visited queue :
  Spec.targets adj ⊆ U -> visited ⊆ U ->
  length queue + size (U ∖ visited) ≤ fuel ->
  is_Some (Bfs.bfs_loop fuel adj visited queue).
Proof.
  intros HU. revert visited queue.
  induction fuel as [|fuel IH]; intros visited queue Hv Hm.
  - destruct queue; [by eexists|simpl in Hm; lia].
  - destruct queue as [|current queue]; [by eexists|]. simpl.
    destruct (visit_neighbors_spec (adj_get adj current) visited queue)
      as (fresh & -> & Hnd & Hf).
    assert (∀ y, y ∈ fresh -> y ∈ U ∧ y ∉ visited) as Hf'.
    { intros y [Hy ?]%Hf. split; [|done].
      apply HU. by apply (succ_in_targets adj current). }
    assert (list_to_set (adj_get adj current) ⊆ U) as Hsub.
    { intros y Hy%elem_of_list_to_set. apply HU.
      by apply (succ_in_targets adj current). }
    assert (visited ∪ list_to_set (adj_get adj current)
            = visited ∪ list_to_set fresh) as Heq.
    { apply set_eq. intros y. rewrite !elem_of_union, !elem_of_list_to_set, Hf.
      destruct (decide (y ∈ visited)); tauto. }
    apply IH; [set_solver|].
    rewrite Heq, length_app.
    pose proof (size_difference_fresh fresh visited U Hnd Hf').
    simpl in Hm. lia.
Qed.

Lemma bfs_loop_more_fuel adj (fuel fuel' : nat) visited queue (R : gset string) :
  Bfs.bfs_loop fuel adj visited queue = Some R -> fuel ≤ fuel' ->
  Bfs.bfs_loop fuel' adj visited queue = Some R.
Proof.
  revert fuel' visited queue.
  induction fuel as [|fuel IH]; intros fuel' visited queue HR Hle.
  - destruct queue; [|done]. by destruct fuel'.
  - destruct queue as [|current queue]; [by destruct fuel'|].
    destruct fuel' as [|fuel']; [lia|]. simpl in *.
    destruct (Bfs.visit_neighbors _ visited queue) as [v q].
    apply IH; [done|lia].
Qed.

(** What the loop returns: a superset of the visited set that is closed
    once every visited node is either waiting in the queue or has all its
    successors visited, and that lies inside every closed set holding the
    visited set. *)
Lemma bfs_loop_result adj (fuel : nat) visited queue (R : gset string) :
  Bfs.bfs_loop fuel adj visited queue = Some R ->
  (∀ x, x ∈ queue -> x ∈ visited) ->
  (∀ x, x ∈ visited -> x ∈ queue ∨ ∀ y, Spec.succ_of adj x y -> y ∈ visited) ->
  visited ⊆ R
  ∧ Spec.closed adj R
  ∧ (∀ X, visited ⊆ X -> Spec.closed adj X -> R ⊆ X).
Proof.
  revert visited queue.
  induction fuel as [|fuel IH]; intros visited queue HR Hq Hinv.
  - destruct queue; [|done]. injection HR as <-.
    split; [done|]. split; [|done].
    intros x y Hx Hxy. destruct (Hinv x Hx) as [Hin|Hs]; [by apply elem_of_nil in Hin|].
    by apply Hs.
  - destruct queue as [|current queue].
    { injection HR as <-. split; [done|]. split; [|done].
      intros x y Hx Hxy. destruct (Hinv x Hx) as [Hin|Hs]; [by apply elem_of_nil in Hin|].
      by apply Hs. }
    simpl in HR.
    destruct (visit_neighbors_spec (adj_get adj current) visited queue)
      as (fresh & Heq & Hnd & Hf).
    rewrite Heq in HR. apply IH in HR as (Hsub & Hcl & Hmin).
    + split; [set_solver|]. split; [done|].
      intros X HX HclX. apply Hmin; [|done].
      intros y [Hy|Hy%elem_of_list_to_set]%elem_of_union; [by apply HX|].
      apply (HclX current y); [|done]. apply HX, Hq. by left.
    + intros x [Hx|Hx]%elem_of_app.
      * apply elem_of_union. left. apply Hq. by right.
      * apply Hf in Hx as [Hx _]. apply elem_of_union. right.
        by apply elem_of_list_to_set.
    + intros x [Hx|Hx%elem_of_list_to_set]%elem_of_union.
      * destruct (decide (x = current)) as [->|Hne].
        { right. intros y Hy. apply elem_of_union. right.
          by apply elem_of_list_to_set. }
        destruct (Hinv x Hx) as [[->|Hin]%elem_of_cons|Hs]; [done| |].
        -- left. apply elem_of_app. by left.
        -- right. intros y Hy. apply elem_of_union. left. by apply Hs.
      * destruct (decide (x ∈ visited)) as [Hv|Hv].
        -- destruct (decide (x = current)) as [->|Hne].
           { right. intros y Hy. apply elem_of_union. right.
             by apply elem_of_list_to_set. }
           destruct (Hinv x Hv) as [[->|Hin]%elem_of_cons|Hs]; [done| |].
           ++ left. apply elem_of_app. by left.
           ++ right. intros y Hy. apply elem_of_union. left. by apply Hs.
        -- left. apply elem_of_app. right. by apply Hf.
Qed.

(** One search: it ends within the budget, and its result is the least
    closed set that holds the start node. *)
Lemma bfs_cfg_reachable_spec adj (start_node : string) :
  ∃ R : gset string,
    (∀ fuel, Spec.bfs_bound adj ≤ fuel ->
             Bfs.bfs_cfg_reachable fuel adj start_node = Some R)
    ∧ start_node ∈ R
    ∧ Spec.closed adj R
    ∧ (∀ X, start_node ∈ X -> Spec.closed adj X -> R ⊆ X).
Proof.
  unfold Bfs.bfs_cfg_reachable.
  destruct (bfs_loop_terminates adj ({[start_node]} ∪ Spec.targets adj)
              (Spec.bfs_bound adj) {[start_node]} [start_node]) as [R HR].
  - set_solver.
  - set_solver.
  - unfold Spec.bfs_bound. simpl.
    assert (size (({[start_node]} ∪ Spec.targets adj) ∖ {[start_node]})
            ≤ size (Spec.targets adj)); [|lia].
    apply subseteq_size. set_solver.
  - exists R. split.
    { intros fuel Hle. by apply (bfs_loop_more_fuel adj (Spec.bfs_bound adj)). }
    apply bfs_loop_result in HR as (Hsub & Hcl & Hmin).
    + split; [set_solver|]. split; [done|].
      intros X HX HclX. apply Hmin; [set_solver|done].
    + intros x ->%list_elem_of_singleton. set_solver.
    + intros x ->%elem_of_singleton. left. by left.
Qed.

Lemma collect_reachable_spec adj (seeds : list string) (kept_nodes : gset string) :
  ∃ R : gset string,
    (∀ fuel, Spec.bfs_bound adj ≤ fuel ->
             Bfs.collect_reachable fuel adj seeds kept_nodes = Some (kept_nodes ∪ R))
    ∧ list_to_set seeds ⊆ R
    ∧ Spec.closed adj R
    ∧ (∀ X, list_to_set seeds ⊆ X -> Spec.closed adj X -> R ⊆ X).
Proof.
  revert kept_nodes. induction seeds as [|s seeds IH]; intros kept_nodes.
  - exists ∅. split; [|split; [|split]].
    + intros fuel _. simpl. f_equal. set_solver.
    + set_solver.
    + intros x y Hx. set_solver.
    + set_solver.
  - destruct (bfs_cfg_reachable_spec adj s) as (R1 & Hrun1 & Hin1 & Hcl1 & Hmin1).
    destruct (IH (kept_nodes ∪ R1)) as (R2 & Hrun2 & Hin2 & Hcl2 & Hmin2).
    exists (R1 ∪ R2). split; [|split; [|split]].
    + intros fuel Hle. simpl. rewrite (Hrun1 fuel Hle). simpl.
      rewrite (Hrun2 fuel Hle). f_equal. set_solver.
    + simpl. set_solver.
    + intros x y [Hx|Hx]%elem_of_union Hxy; apply elem_of_union.
      * left. by apply (Hcl1 x y).
      * right. by apply (Hcl2 x y).
    + intros X HX HclX. apply union_subseteq. split.
      * apply Hmin1; [|done]. apply HX. simpl. set_solver.
      * apply Hmin2; [|done]. simpl in HX. set_solver.
Qed.

(** C3. For every CFG successor relation and every seed set, the slicer
    returns, within a budget that depends on the graph alone and hence also
    on graphs with cycles, a set that contains every seed, is closed under
    following CFG edges forward, and is contained in every set with these two
    properties; the search from a seed without outgoing CFG edges returns
    that seed alone. *)
Theorem C3_slice_is_least_closed_set
    (adj : gmap string (list string)) (seeds : gset string) :
  ∃ slice : gset string,
    (∀ fuel, Spec.bfs_bound adj ≤ fuel ->
             Bfs.collect_reachable fuel adj (elements seeds) ∅ = Some slice)
    ∧ seeds ⊆ slice
    ∧ (∀ x y, x ∈ slice -> y ∈ adj_get adj x -> y ∈ slice)
    ∧ (∀ X : gset string,
         seeds ⊆ X -> (∀ x y, x ∈ X -> y ∈ adj_get adj x -> y ∈ X) -> slice ⊆ X)
    ∧ (∀ u fuel, adj_get adj u = [] -> 1 ≤ fuel ->
                 Bfs.bfs_cfg_reachable fuel adj u = Some {[u]}).
Proof.
  destruct (collect_reachable_spec adj (elements seeds) ∅)
    as (R & Hrun & Hin & Hcl & Hmin).
  exists R. split; [|split; [|split; [|split]]].
  - intros fuel Hle. rewrite (Hrun fuel Hle). f_equal. set_solver.
  - intros x Hx. apply Hin, elem_of_list_to_set. by apply elem_of_elements.
  - done.
  - intros X HX HclX. apply Hmin; [|done].
    intros x Hx%elem_of_list_to_set. apply HX. by apply elem_of_elements.
  - intros u [|fuel] Hu Hle; [lia|].
    unfold Bfs.bfs_cfg_reachable. simpl. rewrite Hu. simpl. by destruct fuel.
Qed.

End Slicer.

(** ** The slicer inside the filter *)

Section FilterPipeline.
Import Py.

Lemma adj_get_append (adj : gmap string (list string)) (k v x : string) :
  adj_get (adj_append adj k v) x
  = if decide (k = x) then adj_get adj k ++ [v] else adj_get adj x.
Proof.
  unfold adj_append, adj_get at 1. rewrite lookup_insert.
  destruct (decide (k = x)) as [->|]; done.
Qed.

(** The adjacency built from a list of edges has exactly their
    (source, target) pairs. *)
Lemma adjacency_fold (es : list edge_info) (adj : gmap string (list string))
    (x y : string) :
  y ∈ adj_get (fold_left (fun adj e => adj_append adj (source e) (target e)) es adj) x
  <-> y ∈ adj_get adj x ∨ ∃ e, e ∈ es ∧ source e = x ∧ target e = y.
Proof.
  revert adj. induction es as [|e es IH]; intros adj; simpl.
  - split; [by left|]. intros [?|(e & He & _)]; [done|by apply elem_of_nil in He].
  - rewrite IH, adj_get_append. destruct (decide (source e = x)) as [Hs|Hs].
    + rewrite elem_of_app, list_elem_of_singleton. split.
      * intros [[?| ->]|(e' & He' & ?)].
        -- left. by rewrite <- Hs.
        -- right. exists e. split; [by left|done].
        -- right. exists e'. split; [by right|done].
      * intros [?|(e' & [->|He']%elem_of_cons & Hx & Hy)].
        -- left. left. by rewrite Hs.
        -- left. by right.
        -- right. eauto.
    + split.
      * intros [?|(e' & He' & ?)]; [by left|].
        right. exists e'. split; [by right|done].
      * intros [?|(e' & [->|He']%elem_of_cons & Hx & Hy)]; [by left|done|].
        right. eauto.
Qed.

(** In the filter, [y] is a successor of [x] exactly when the text has a
    recognised CFG edge from [x] to [y]. *)
Lemma filter_adjacency_edges (dot_content : string) (x y : string) :
  let st := UdfFilter.extract_edges_simple dot_content in
  y ∈ adj_get (UdfFilter.cfg_adjacency st) x
  <-> ∃ e, e ∈ UdfFilter.edge_lines st
           ∧ edge_type e = "CFG" ∧ source e = x ∧ target e = y.
Proof.
  simpl. destruct (filter_edges_spec dot_content) as (-> & _ & _ & ->).
  rewrite adjacency_fold. split.
  - intros [Hin|(e & [Hc He]%list_elem_of_filter & ? & ?)]; [|eauto].
    unfold adj_get in Hin. rewrite lookup_empty in Hin. by apply elem_of_nil in Hin.
  - intros (e & He & Hc & ? & ?). right. exists e. split; [|done].
    by apply list_elem_of_filter.
Qed.

(** The filter returns for every text, given the budget of its graph. *)
Lemma filter_udf_subgraph_returns (dot_content : string) (fuel : nat) :
  Spec.bfs_bound (UdfFilter.cfg_adjacency (UdfFilter.extract_edges_simple dot_content))
  ≤ fuel ->
  is_Some (UdfFilter.filter_udf_subgraph fuel dot_content).
Proof.
  intros Hle. unfold UdfFilter.filter_udf_subgraph.
  destruct (collect_reachable_spec
              (UdfFilter.cfg_adjacency (UdfFilter.extract_edges_simple dot_content))
              (elements (UdfFilter.udf_methods
                           (UdfFilter.extract_node_minimal_info dot_content))) ∅)
    as (slice & Hrun & _).
  rewrite (Hrun fuel Hle). simpl. by eexists.
Qed.

(** The scenario of the specification: the seed is A, the slice is A and C,
    the two CFG edges are kept and the call to the external method is
    dropped; the verifier passes the written file. *)
Lemma scenario_slice :
  ∃ node_definitions kept_edges,
    UdfFilter.filter_udf_subgraph 10 Examples.scenario
    = Some (node_definitions, kept_edges)
    ∧ UdfFilter.udf_methods (UdfFilter.extract_node_minimal_info Examples.scenario)
      = {["A"]}
    ∧ dom node_definitions = {["A"; "C"]}
    ∧ map Spec.signature kept_edges = [("A", "C", "CFG"); ("C", "A", "CFG")]
    ∧ UdfVerifier.run_verification Examples.set_repr_any 10 Examples.scenario
        (UdfFilter.write_dot_file node_definitions kept_edges "g")
      = Some Examples.all_passed.
Proof.
  destruct (UdfFilter.filter_udf_subgraph 10 Examples.scenario)
    as [[node_definitions kept_edges]|] eqn:E; [|by vm_compute in E].
  exists node_definitions, kept_edges. split; [done|].
  vm_compute in E. injection E as <- <-.
  repeat split; vm_compute; reflexivity.
Qed.

End FilterPipeline.

(** ** Node scanning and the two writers *)

Section Writers.
Import Py.

Lemma concat_nil_cons (s : string) (ls : list string) :
  String.concat "" (s :: ls) = String.append s (String.concat "" ls).
Proof. destruct ls; simpl; [by rewrite app_nil_r_s|done]. Qed.

Lemma concat_nil_app (ls1 ls2 : list string) :
  String.concat "" (ls1 ++ ls2)
  = String.append (String.concat "" ls1) (String.concat "" ls2).
Proof.
  induction ls1 as [|s ls1 IH]; [done|].
  rewrite <- app_comm_cons, !concat_nil_cons, IH. by rewrite app_assoc_s.
Qed.

Lemma join_lines_terminated (first : string) (rest : list string) :
  String.append (join (String nl EmptyString) (first :: rest)) (String nl EmptyString)
  = String.append first (String.append (String nl EmptyString)
      (String.concat "" (map (fun l => String.append l (String nl EmptyString)) rest))).
Proof.
  unfold join. revert first. induction rest as [|l rest IH]; intros first.
  - simpl. by rewrite app_nil_r_s.
  - change (String.concat (String nl EmptyString) (first :: l :: rest))
      with (String.append first (String.append (String nl EmptyString)
              (String.concat (String nl EmptyString) (l :: rest)))).
    rewrite !app_assoc_s, IH. cbn [map]. by rewrite concat_nil_cons, !app_assoc_s.
Qed.

(** Both branches of the node writer put the two-space indent in front of
    the declaration and a line feed behind it, and change nothing else: the
    text after the first line of a multi-line declaration is as it was. *)
Lemma write_node_def_indented (node_def : string) :
  write_node_def node_def = Spec.indented node_def.
Proof.
  unfold write_node_def, Spec.indented.
  destruct (contains _ node_def); [|done].
  pose proof (split_nonempty nl node_def) as Hne.
  pose proof (join_split nl node_def) as Hj.
  destruct (split nl node_def) as [|first rest]; [done|].
  rewrite app_assoc_s. f_equal.
  rewrite <- Hj, join_lines_terminated. by rewrite app_assoc_s.
Qed.

Lemma scan_decls_pending (wanted : string -> bool) (node_id : string)
    (full_lines ls : list string) :
  ∃ taken rest,
    ls = taken ++ rest
    ∧ Scan.scan_decls wanted (Some (node_id, full_lines)) ls
      = (node_id, full_lines ++ taken) :: Scan.scan_decls wanted None rest.
Proof.
  revert full_lines. induction ls as [|l ls IH]; intros full_lines.
  - exists [], []. simpl. by rewrite app_nil_r.
  - simpl. destruct (endswith Scan.end_mark (rstrip l)).
    + by exists [l], ls.
    + destruct (IH (full_lines ++ [l])) as (taken & rest & -> & ->).
      exists (l :: taken), rest. by rewrite <- app_assoc.
Qed.

(** The declarations found by the scanning loop are disjoint runs of
    consecutive lines of the text, in the order of the text. *)
Lemma scan_decls_layout (wanted : string -> bool) (ls : list string) :
  Spec.decl_layout ls (Scan.scan_decls wanted None ls).
Proof.
  remember (length ls) as n eqn:Hn. revert ls Hn.
  induction n as [n IH] using lt_wf_ind. intros ls ->.
  destruct ls as [|l ls]; [constructor|]. simpl.
  assert (Spec.decl_layout (l :: ls) (Scan.scan_decls wanted None ls)) as Hskip.
  { constructor. apply (IH (length ls)); [simpl; lia|done]. }
  destruct (Re.node_match (strip l)) as [node_id|]; [|done].
  destruct (wanted node_id); [|done].
  destruct (endswith Scan.end_mark (strip l)).
  - apply (Spec.layout_decl node_id l [] ls).
    apply (IH (length ls)); [simpl; lia|done].
  - destruct (scan_decls_pending wanted node_id [l] ls) as (taken & rest & -> & ->).
    apply (Spec.layout_decl node_id l taken rest).
    apply (IH (length rest)); [|done]. simpl. rewrite length_app. lia.
Qed.


Lemma layout_infix (ls : list string) (ds : list (string * list string)) :
  Spec.decl_layout ls ds ->
  Forall (fun d => ∃ before after, ls = before ++ d.2 ++ after) ds.
Proof.
  induction 1 as [|l ls ds _ IH|node_id l seg ls ds _ IH].
  - constructor.
  - eapply Forall_impl; [exact IH|]. intros d (before & after & ->).
    by exists (l :: before), after.
  - constructor.
    + by exists [], ls.
    + eapply Forall_impl; [exact IH|]. intros d (before & after & ->).
      exists ((l :: seg) ++ before), after. by rewrite <- app_assoc.
Qed.

Lemma scan_decls_heads (wanted : string -> bool) (ls : list string)
    (pending : option (string * list string)) :
  (∀ p, pending = Some p -> wanted p.1 = true) ->
  Forall (fun d => wanted d.1 = true) (Scan.scan_decls wanted pending ls).
Proof.
  revert pending. induction ls as [|l ls IH]; intros pending Hp; simpl.
  - destruct pending as [[node_id fl]|]; [|constructor].
    constructor; [|constructor]. by apply (Hp (node_id, fl)).
  - destruct pending as [[node_id fl]|].
    + destruct (endswith _ _).
      * constructor; [by apply (Hp (node_id, fl))|]. by apply IH.
      * apply IH. intros p [= <-]. by apply (Hp (node_id, fl)).
    + destruct (Re.node_match (strip l)) as [node_id|]; [|by apply IH].
      destruct (wanted node_id) eqn:Hw; [|by apply IH].
      destruct (endswith _ _).
      * constructor; [done|]. by apply IH.
      * apply IH. by intros p [= <-].
Qed.

End Writers.

Section Serialized.
Import Py.



Lemma sorted_keys_spec (node_definitions : gmap string string) :
  StronglySorted String.le (UdfFilter.sorted_keys node_definitions)
  ∧ NoDup (UdfFilter.sorted_keys node_definitions)
  ∧ (∀ node_id, node_id ∈ UdfFilter.sorted_keys node_definitions
                <-> is_Some (node_definitions !! node_id)).
Proof.
  unfold UdfFilter.sorted_keys. split; [|split].
  - apply StronglySorted_merge_sort; apply _.
  - rewrite merge_sort_Permutation. apply NoDup_fst_map_to_list.
  - intros node_id. rewrite merge_sort_Permutation, list_elem_of_fmap. split.
    + intros ([k v] & -> & Hin). apply elem_of_map_to_list in Hin. by exists v.
    + intros [v Hv]. exists (node_id, v). split; [done|].
      by apply elem_of_map_to_list.
Qed.

Lemma write_dot_file_text (node_definitions : gmap string string)
    (edges : list edge_info) (original_name : string) :
  UdfFilter.write_dot_file node_definitions edges original_name
  = String.append
      (Spec.udf_header original_name (size node_definitions) (length edges))
      (String.append
         (String.concat ""
            (map (fun node_id => Spec.indented (dict_get node_definitions node_id ""))
                 (UdfFilter.sorted_keys node_definitions)))
         (String.append Spec.edge_banner
            (String.append
               (String.concat "" (map (fun e => Spec.indented (line e)) edges))
               Spec.closing))).
Proof.
  unfold UdfFilter.write_dot_file, Spec.udf_header.
  rewrite !concat_nil_app. f_equal.
  assert (map (fun node_id => write_node_def (dict_get node_definitions node_id ""))
              (UdfFilter.sorted_keys node_definitions)
          = map (fun node_id => Spec.indented (dict_get node_definitions node_id ""))
                (UdfFilter.sorted_keys node_definitions)) as ->.
  { apply map_ext. intros node_id. apply write_node_def_indented. }
  reflexivity.
Qed.

(** C7 (as amended). The file written by the UDF filter is the header
    comment block with the two counts, then the node declarations in
    increasing order of id, each behind the two-space indent, then the kept
    CFG edges followed by the kept CALL edges, each of the two groups in its
    order in the input, each edge line as it is in the input behind the
    two-space indent. *)
Theorem C7_serialized_udf_output (fuel : nat) (dot_content original_name : string)
    (node_definitions : gmap string string) (kept_edges : list edge_info) :
  UdfFilter.filter_udf_subgraph fuel dot_content
  = Some (node_definitions, kept_edges) ->
  let E := UdfFilter.edge_lines (UdfFilter.extract_edges_simple dot_content) in
  UdfFilter.write_dot_file node_definitions kept_edges original_name
  = String.append
      (Spec.udf_header original_name (size node_definitions) (length kept_edges))
      (String.append
         (String.concat ""
            (map (fun node_id => Spec.indented (dict_get node_definitions node_id ""))
                 (UdfFilter.sorted_keys node_definitions)))
         (String.append Spec.edge_banner
            (String.append
               (String.concat "" (map (fun e => Spec.indented (line e)) kept_edges))
               Spec.closing)))
  ∧ StronglySorted String.le (UdfFilter.sorted_keys node_definitions)
  ∧ NoDup (UdfFilter.sorted_keys node_definitions)
  ∧ (∀ node_id, node_id ∈ UdfFilter.sorted_keys node_definitions
                <-> is_Some (node_definitions !! node_id))
  ∧ (∃ cfg_kept call_kept,
       kept_edges = cfg_kept ++ call_kept
       ∧ cfg_kept `sublist_of` E ∧ Forall Spec.is_cfg cfg_kept
       ∧ call_kept `sublist_of` E ∧ Forall Spec.is_call call_kept)
  ∧ Forall (fun e => line e ∈ lines dot_content) kept_edges.
Proof.
  intros Hf. simpl.
  split; [apply write_dot_file_text|].
  destruct (sorted_keys_spec node_definitions) as (Hs & Hnd & Hk).
  split; [done|]. split; [done|]. split; [done|].
  unfold UdfFilter.filter_udf_subgraph in Hf.
  destruct (Bfs.collect_reachable _ _ _ _) as [kept_nodes|]; [|done].
  simpl in Hf. injection Hf as <- <-.
  destruct (filter_edges_spec dot_content) as (HE & Hc & Hl & _).
  rewrite HE, Hc, Hl. unfold UdfFilter.retain_edges. split.
  - eexists _, _. split; [done|]. split; [|split; [|split]].
    + etrans; apply sublist_filter.
    + apply Forall_forall. intros e He.
      apply list_elem_of_filter in He as [_ He].
      by apply list_elem_of_filter in He as [? _].
    + etrans; apply sublist_filter.
    + apply Forall_forall. intros e He.
      apply list_elem_of_filter in He as [_ He].
      by apply list_elem_of_filter in He as [? _].
  - apply Forall_forall. intros e He.
    assert (e ∈ Spec.recognised id (lines dot_content)) as Hr.
    { apply elem_of_app in He as [He|He];
        apply list_elem_of_filter in He as [_ He];
        by apply list_elem_of_filter in He as [_ ?]. }
    apply recognised_elem in Hr as (l & Hin & _ & ->). done.
Qed.

(** A self-calling user method: the run of the filter and the order of the
    ids written. *)
Lemma C7_witness :
  ∃ node_definitions kept_edges,
    UdfFilter.filter_udf_subgraph 10 Examples.call_before_cfg
    = Some (node_definitions, kept_edges)
    ∧ StronglySorted String.le (UdfFilter.sorted_keys node_definitions)
    ∧ map edge_type kept_edges = ["CFG"; "CALL"].
Proof.
  destruct (UdfFilter.filter_udf_subgraph 10 Examples.call_before_cfg)
    as [[node_definitions kept_edges]|] eqn:E; [|by vm_compute in E].
  exists node_definitions, kept_edges. split; [done|]. split.
  - apply (C7_serialized_udf_output 10 Examples.call_before_cfg ""
             node_definitions kept_edges E).
  - vm_compute in E. by injection E as <- <-.
Defined.

(** C7 as stated fails: a kept CALL edge written before a kept CFG edge in
    the input comes after it in the output. *)
Lemma C7_counterexample :
  ¬ (∀ (fuel : nat) (dot_content : string)
       (node_definitions : gmap string string) (kept_edges : list edge_info),
       UdfFilter.filter_udf_subgraph fuel dot_content
       = Some (node_definitions, kept_edges) ->
       kept_edges
       `sublist_of` UdfFilter.edge_lines (UdfFilter.extract_edges_simple dot_content)).
Proof.
  intros H.
  destruct (UdfFilter.filter_udf_subgraph 10 Examples.call_before_cfg)
    as [[node_definitions kept_edges]|] eqn:E; [|by vm_compute in E].
  specialize (H 10 Examples.call_before_cfg node_definitions kept_edges E).
  vm_compute in E. injection E as <- <-.
  assert (map edge_type
            (UdfFilter.edge_lines (UdfFilter.extract_edges_simple Examples.call_before_cfg))
          = ["CALL"; "CFG"]) as HE by (vm_compute; reflexivity).
  apply (fmap_sublist edge_type) in H.
  change (fmap edge_type) with (map edge_type) in H. rewrite HE in H. simpl in H.
  apply sublist_cons_l in H as (k1 & k2 & Hk & H).
  destruct k1 as [|a k1]; [done|]. injection Hk as <- Hk.
  destruct k1 as [|b k1].
  - injection Hk as <-. by apply sublist_nil_r in H.
  - injection Hk as _ Hk. by destruct k1.
Qed.

End Serialized.

(** ** The UDF-filter verifier *)

Section VerifierChecks.
Import Py.

Implicit Types (nodes before after : list (string * UdfVerifier.node_data)).







Lemma integrity_step_intact (original_nodes : list (string * UdfVerifier.node_data))
    (st : UdfVerifier.integrity_state) (kv : string * UdfVerifier.node_data) :
  Spec.intact original_nodes kv -> UdfVerifier.integrity_step original_nodes st kv = st.
Proof.
  destruct kv as [k d]. intros (o & Ho & Hraw). simpl in *.
  unfold UdfVerifier.integrity_step. rewrite Ho, Hraw.
  by rewrite String.eqb_refl.
Qed.

Lemma integrity_fold_intact (original_nodes : list (string * UdfVerifier.node_data))
    nodes (st : UdfVerifier.integrity_state) :
  Forall (Spec.intact original_nodes) nodes ->
  fold_left (UdfVerifier.integrity_step original_nodes) nodes st = st.
Proof.
  intros H. revert st. induction H as [|kv nodes Hkv _ IH]; intros st; [done|].
  simpl. by rewrite integrity_step_intact, IH.
Qed.




End VerifierChecks.

(** ** Where a node declaration ends *)

Section DeclarationEnd.
Import Py.

(** The test that ends a declaration in the extractor, the filter and the
    verifiers: the right-stripped line ends with a quote, a bracket and a
    semicolon. *)
Lemma scan_decls_single_line (wanted : string -> bool) (l : string)
    (rest : list string) (node_id : string) :
  Re.node_match (strip l) = Some node_id -> wanted node_id = true ->
  Scan.scan_decls wanted None (l :: rest)
  = if endswith Scan.end_mark (strip l)
    then (node_id, [l]) :: Scan.scan_decls wanted None rest
    else Scan.scan_decls wanted (Some (node_id, [l])) rest.
Proof. intros Hm Hw. simpl. by rewrite Hm, Hw. Qed.

(** The scanner of [schema_report.py], inside a quoted value: a line
    without a double quote neither ends the declaration nor leaves the
    value, whatever else it holds. *)
Lemma scan_chars_inside_value (s : string) (escape : bool) (buf : string) :
  Spec.all_chars Re.notquote s = true ->
  ∃ buf', SchemaReport.scan_chars s true escape buf = (false, true, buf').
Proof.
  revert escape buf. induction s as [|c s IH]; intros escape buf Hs.
  - by eexists.
  - simpl in Hs. apply andb_prop in Hs as [Hc Hs]. simpl.
    unfold Re.notquote in Hc. apply negb_true_iff in Hc. rewrite Hc.
    destruct (negb escape && Ascii.eqb c "092"%char); [by apply IH|].
    destruct escape; by apply IH.
Qed.

(** The same scanner, outside any quoted value: the first closing bracket
    that is followed, after optional whitespace, by a semicolon ends the
    declaration, also behind an unquoted last value. *)
Lemma scan_chars_ends_at_bracket (pre ws post buf : string) :
  Spec.all_chars Spec.plain_char pre = true ->
  Spec.all_chars isspace ws = true ->
  ∃ buf',
    SchemaReport.scan_chars
      (String.append pre (String "]"%char
         (String.append ws (String ";"%char post)))) false false buf
    = (true, false, buf').
Proof.
  intros Hpre Hws. revert buf. induction pre as [|c pre IH]; intros buf.
  - rewrite app_nil_l_s. simpl. rewrite span_app by done.
    by eexists.
  - simpl in Hpre. apply andb_prop in Hpre as [Hc Hpre].
    unfold Spec.plain_char, Re.notquote in Hc.
    apply andb_prop in Hc as [Hq Hb].
    apply negb_true_iff in Hq, Hb.
    rewrite app_cons_s. simpl. rewrite Hq, Hb. by apply IH.
Qed.

(** C5 at its failing inputs.  A declaration whose last value is an
    unquoted token is not ended at its bracket and semicolon: the extractor
    and the filter run on into the next declaration, whose id is then not
    found.  A line feed inside a quoted value ends the declaration when the
    text before it ends with an escaped quote, a bracket and a semicolon.
    The scanner of [schema_report.py] ends both declarations where they
    end. *)
Lemma C5_declaration_end_by_line_suffix :
  Extractor.extract_nodes_simple Examples.bare_tail {["1"; "2"]}
  = ([unlines [Examples.bare_tail_1; Examples.bare_tail_2]], {["1"]})
  ∧ UdfFilter.extract_nodes_simple Examples.bare_tail {["1"; "2"]}
    = {["1" := unlines [Examples.bare_tail_1; Examples.bare_tail_2]]}
  ∧ map fst (SchemaReport.scan_nodes Examples.bare_tail) = ["1"; "2"]
  ∧ Extractor.extract_nodes_simple Examples.quoted_end {["1"; "2"]}
    = ([Examples.quoted_end_1; Examples.bare_tail_2], {["1"; "2"]})
  ∧ UdfFilter.extract_nodes_simple Examples.quoted_end {["1"; "2"]}
    = {["1" := Examples.quoted_end_1; "2" := Examples.bare_tail_2]}
  ∧ map fst (SchemaReport.scan_nodes Examples.quoted_end) = ["1"; "2"]
  ∧ contains "return x;" (default EmptyString
       (odict_get "1" (SchemaReport.scan_nodes Examples.quoted_end))) = true.
Proof. repeat split; vm_compute; reflexivity. Qed.

End DeclarationEnd.

(** * Further properties *)

(** ** The slicer: reachability, seed order, closure *)

Section SlicerMore.

Implicit Types (adj : gmap string (list string)) (visited X : gset string)
  (queue seeds : list string).

Lemma closed_rtc adj X (x y : string) :
  Spec.closed adj X -> x ∈ X -> rtc (Spec.succ_of adj) x y -> y ∈ X.
Proof.
  intros Hcl Hx Hxy. induction Hxy as [x|x y z Hxy _ IH]; [done|].
  apply IH. by apply (Hcl x y).
Qed.

(** Whatever the loop returns was reached from a visited node. *)
Lemma bfs_loop_reached adj (fuel : nat) visited queue (R : gset string) :
  Bfs.bfs_loop fuel adj visited queue = Some R ->
  (∀ x, x ∈ queue -> x ∈ visited) ->
  ∀ x, x ∈ R -> ∃ v, v ∈ visited ∧ rtc (Spec.succ_of adj) v x.
Proof.
  revert visited queue.
  induction fuel as [|fuel IH]; intros visited queue HR Hq x Hx.
  - destruct queue; [|done]. injection HR as <-. by exists x.
  - destruct queue as [|current queue].
    { injection HR as <-. by exists x. }
    simpl in HR.
    destruct (visit_neighbors_spec (adj_get adj current) visited queue)
      as (fresh & Heq & _ & Hf).
    rewrite Heq in HR.
    destruct (IH _ _ HR) with (x := x) as (v & Hv & Hvx); [|done|].
    + intros y [Hy|Hy]%elem_of_app.
      * apply elem_of_union. left. apply Hq. by right.
      * apply Hf in Hy as [Hy _]. apply elem_of_union. right.
        by apply elem_of_list_to_set.
    + apply elem_of_union in Hv as [Hv|Hv%elem_of_list_to_set]; [by exists v|].
      exists current. split; [apply Hq; by left|].
      by apply (rtc_l _ _ v).
Qed.

(** One search with any budget: if it returns, it returns the least closed
    set that holds the start node, and all of it is reached from there. *)
Lemma bfs_result adj (fuel : nat) (start_node : string) (R : gset string) :
  Bfs.bfs_cfg_reachable fuel adj start_node = Some R ->
  start_node ∈ R ∧ Spec.closed adj R
  ∧ (∀ X, start_node ∈ X -> Spec.closed adj X -> R ⊆ X)
  ∧ (∀ x, x ∈ R -> rtc (Spec.succ_of adj) start_node x).
Proof.
  unfold Bfs.bfs_cfg_reachable. intros HR.
  assert (∀ x, x ∈ [start_node] -> x ∈ ({[start_node]} : gset string)) as Hq.
  { intros x ->%list_elem_of_singleton. by apply elem_of_singleton. }
  pose proof (bfs_loop_reached _ _ _ _ _ HR Hq) as Hreach.
  apply bfs_loop_result in HR as (Hsub & Hcl & Hmin); [|done|].
  - split; [set_solver|]. split; [done|]. split.
    + intros X HX HclX. apply Hmin; [set_solver|done].
    + intros x Hx. destruct (Hreach x Hx) as (v & ->%elem_of_singleton & Hvx). done.
  - intros x ->%elem_of_singleton. left. by left.
Qed.

(** The seed loop as one expression: it fails when one search fails, and
    otherwise adds the union of the results. *)
Lemma collect_reachable_unfold adj (fuel : nat) seeds (kept_nodes : gset string) :
  Bfs.collect_reachable fuel adj seeds kept_nodes
  = if decide (Forall (fun s => is_Some (Bfs.bfs_cfg_reachable fuel adj s)) seeds)
    then Some (kept_nodes
               ∪ ⋃ (map (fun s => default ∅ (Bfs.bfs_cfg_reachable fuel adj s)) seeds))
    else None.
Proof.
  revert kept_nodes.
  induction seeds as [|s seeds IH]; intros kept_nodes;
    cbn [Bfs.collect_reachable map].
  - rewrite decide_True by constructor. f_equal. set_solver.
  - destruct (Bfs.bfs_cfg_reachable fuel adj s) as [R|] eqn:Hs;
      cbn [mbind option_bind].
    + rewrite IH. destruct (decide (Forall _ seeds)) as [Hall|Hall].
      * rewrite decide_True; [f_equal; set_solver|].
        constructor; [by rewrite Hs|done].
      * rewrite decide_False; [done|]. by intros [_ ?]%Forall_cons.
    + rewrite decide_False; [done|]. intros [[? H] _]%Forall_cons.
      rewrite Hs in H. done.
Qed.

Lemma collect_reachable_result adj (fuel : nat) seeds (slice : gset string) :
  Bfs.collect_reachable fuel adj seeds ∅ = Some slice ->
  (∀ s, s ∈ seeds -> s ∈ slice)
  ∧ Spec.closed adj slice
  ∧ (∀ X, (∀ s, s ∈ seeds -> s ∈ X) -> Spec.closed adj X -> slice ⊆ X)
  ∧ (∀ x, x ∈ slice -> Vocab.reachable (Spec.succ_of adj) seeds x).
Proof.
  rewrite collect_reachable_unfold. destruct (decide _) as [Hall|]; [|done].
  intros [= <-].
  assert (∀ s, s ∈ seeds ->
            ∃ R, Bfs.bfs_cfg_reachable fuel adj s = Some R) as Hsome.
  { intros s Hs. by apply (proj1 (Forall_forall _ _) Hall). }
  assert (∀ x, x ∈ (∅ ∪ ⋃ map (fun s => default ∅ (Bfs.bfs_cfg_reachable fuel adj s))
                               seeds : gset string)
               <-> ∃ s R, s ∈ seeds ∧ Bfs.bfs_cfg_reachable fuel adj s = Some R ∧ x ∈ R)
    as Hin.
  { intros x. rewrite elem_of_union, elem_of_union_list. split.
    - intros [?|(X & HX & Hx)]; [set_solver|].
      apply list_elem_of_fmap in HX as (s & -> & Hs).
      destruct (Hsome s Hs) as [R HR]. rewrite HR in Hx. eauto.
    - intros (s & R & Hs & HR & Hx). right. exists R. split; [|done].
      apply list_elem_of_fmap. exists s. by rewrite HR. }
  split; [|split; [|split]].
  - intros s Hs. apply Hin. destruct (Hsome s Hs) as [R HR].
    exists s, R. split; [done|]. split; [done|].
    by apply bfs_result in HR as (? & _).
  - intros x y (s & R & Hs & HR & Hx)%Hin Hxy. apply Hin.
    exists s, R. split; [done|]. split; [done|].
    apply bfs_result in HR as (_ & Hcl & _). by apply (Hcl x y).
  - intros X HX HclX x (s & R & Hs & HR & Hx)%Hin.
    apply bfs_result in HR as (_ & _ & Hmin & _).
    apply (Hmin X); [by apply HX|done|done].
  - intros x (s & R & Hs & HR & Hx)%Hin. exists s. split; [done|].
    apply bfs_result in HR as (_ & _ & _ & Hr). by apply Hr.
Qed.

Lemma collect_reachable_returns adj (fuel : nat) seeds :
  Spec.bfs_bound adj ≤ fuel ->
  is_Some (Bfs.collect_reachable fuel adj seeds ∅).
Proof.
  intros Hle. destruct (collect_reachable_spec adj seeds ∅) as (R & Hrun & _).
  rewrite (Hrun fuel Hle). by eexists.
Qed.

(** X1.  Within the iteration budget the seed loop returns, and the slice
    it returns is the set of nodes reached from a seed by following CFG
    successors zero or more times. *)
Theorem slice_is_reachable_set adj (fuel : nat) seeds :
  Spec.bfs_bound adj ≤ fuel ->
  ∃ slice : gset string,
    Bfs.collect_reachable fuel adj seeds ∅ = Some slice
    ∧ ∀ x, x ∈ slice <-> Vocab.reachable (Spec.succ_of adj) seeds x.
Proof.
  intros Hle. destruct (collect_reachable_returns adj fuel seeds Hle) as [slice Hrun].
  exists slice. split; [done|].
  apply collect_reachable_result in Hrun as (Hseed & Hcl & _ & Hreach).
  intros x. split.
  - apply Hreach.
  - intros (s & Hs & Hsx). apply (closed_rtc adj slice s x); [done| |done].
    by apply Hseed.
Qed.

(** X2.  The result of the seed loop depends on the set of seeds only: neither
    their order nor a repeated seed changes it, for any budget. *)
Theorem slice_independent_of_seed_order adj (fuel : nat) seeds1 seeds2
    (kept_nodes : gset string) :
  (∀ s, s ∈ seeds1 <-> s ∈ seeds2) ->
  Bfs.collect_reachable fuel adj seeds1 kept_nodes
  = Bfs.collect_reachable fuel adj seeds2 kept_nodes.
Proof.
  intros Hsame. rewrite !collect_reachable_unfold.
  assert (Forall (fun s => is_Some (Bfs.bfs_cfg_reachable fuel adj s)) seeds1
          <-> Forall (fun s => is_Some (Bfs.bfs_cfg_reachable fuel adj s)) seeds2)
    as Hall.
  { rewrite !Forall_forall. split; intros H s Hs; apply H, Hsame, Hs. }
  destruct (decide (Forall _ seeds1)) as [H1|H1].
  - rewrite decide_True by (by apply Hall). f_equal. apply set_eq. intros x.
    rewrite !elem_of_union, !elem_of_union_list.
    split; (intros [?|(X & HX & Hx)]; [by left|right]; exists X; split; [|done];
            apply list_elem_of_fmap in HX as (s & -> & Hs);
            apply list_elem_of_fmap; exists s; split; [done|]; by apply Hsame).
  - rewrite decide_False; [done|]. by rewrite <- Hall.
Qed.

(** X3.  Slicing is a closure operator: within the iteration budget the
    seed loop returns a slice that lies in the slice of every larger seed
    set, and the slice taken as the seed set gives itself. *)
Theorem slice_monotone_and_idempotent adj (fuel : nat) seeds :
  Spec.bfs_bound adj ≤ fuel ->
  ∃ slice : gset string,
    Bfs.collect_reachable fuel adj seeds ∅ = Some slice
    ∧ (∀ fuel' seeds' slice',
         (∀ s, s ∈ seeds -> s ∈ seeds') ->
         Bfs.collect_reachable fuel' adj seeds' ∅ = Some slice' -> slice ⊆ slice')
    ∧ Bfs.collect_reachable fuel adj (elements slice) ∅ = Some slice.
Proof.
  intros Hle. destruct (collect_reachable_returns adj fuel seeds Hle) as [slice Hrun].
  exists slice. split; [done|].
  apply collect_reachable_result in Hrun as (Hseed & Hcl & Hmin & _). split.
  - intros fuel' seeds' slice' Hsub (Hseed' & Hcl' & _)%collect_reachable_result.
    apply Hmin; [|done]. intros s Hs. by apply Hseed', Hsub.
  - destruct (collect_reachable_returns adj fuel (elements slice) Hle) as [S2 HS2].
    rewrite HS2. f_equal.
    apply collect_reachable_result in HS2 as (Hseed2 & Hcl2 & Hmin2 & _).
    apply set_eq. intros x. split.
    + apply Hmin2; [|done]. intros s Hs. by apply elem_of_elements.
    + intros Hx. by apply Hseed2, elem_of_elements.
Qed.

End SlicerMore.

Section SlicerWitnesses.

Lemma slice_is_reachable_set_witness :
  ∃ slice : gset string,
    Bfs.collect_reachable 10 Samples.scenario_adj ["A"] ∅ = Some slice
    ∧ ∀ x, x ∈ slice <-> Vocab.reachable (Spec.succ_of Samples.scenario_adj) ["A"] x.
Proof.
  apply (slice_is_reachable_set Samples.scenario_adj 10 ["A"]).
  vm_compute. lia.
Defined.

Lemma slice_independent_of_seed_order_witness :
  Bfs.collect_reachable 10 Samples.scenario_adj ["A"; "B"] ∅
  = Bfs.collect_reachable 10 Samples.scenario_adj ["B"; "A"; "B"] ∅.
Proof.
  apply (slice_independent_of_seed_order Samples.scenario_adj 10
           ["A"; "B"] ["B"; "A"; "B"] ∅).
  intros s. rewrite !elem_of_cons, elem_of_nil. tauto.
Defined.

Lemma slice_monotone_and_idempotent_witness :
  ∃ slice : gset string,
    Bfs.collect_reachable 10 Samples.scenario_adj ["A"] ∅ = Some slice
    ∧ (∀ fuel' seeds' slice',
         (∀ s, s ∈ ["A"] -> s ∈ seeds') ->
         Bfs.collect_reachable fuel' Samples.scenario_adj seeds' ∅ = Some slice' ->
         slice ⊆ slice')
    ∧ Bfs.collect_reachable 10 Samples.scenario_adj (elements slice) ∅ = Some slice.
Proof.
  apply (slice_monotone_and_idempotent Samples.scenario_adj 10 ["A"]).
  vm_compute. lia.
Defined.

End SlicerWitnesses.

(** ** The verifier's checks on node and edge tables *)

Section VerifierMore.
Import Py.

Implicit Types (original_nodes filtered_nodes nodes : list (string * UdfVerifier.node_data))
  (original_edges filtered_edges : list edge_info).

Lemma filter_nil_iff {A} (P : A -> Prop) `{!∀ x, Decision (P x)} (l : list A) :
  filter P l = [] <-> Forall (fun x => ¬ P x) l.
Proof.
  induction l as [|x l IH]; [by split; [constructor|]|].
  rewrite filter_cons, Forall_cons. destruct (decide (P x)); [|tauto].
  split; [done|]. by intros [? _].
Qed.

Lemma intact_cases original_nodes (kv : string * UdfVerifier.node_data) :
  Spec.intact original_nodes kv
  <-> Vocab.is_foreign original_nodes kv = false
      ∧ Vocab.is_corrupted original_nodes kv = false.
Proof.
  unfold Spec.intact, Vocab.is_foreign, Vocab.is_corrupted.
  destruct (odict_get kv.1 original_nodes) as [o|].
  - rewrite negb_false_iff, eqb_true_iff. split.
    + intros (o' & [= <-] & Hraw). done.
    + intros [_ Hraw]. by exists o.
  - split; [intros (o' & [=] & _)|intros [[=] _]].
Qed.

(** The loop of [verify_node_integrity] as three passes over the table. *)
Lemma integrity_fold original_nodes nodes (st : UdfVerifier.integrity_state) :
  fold_left (UdfVerifier.integrity_step original_nodes) nodes st
  = UdfVerifier.IntegrityState
      (UdfVerifier.int_passed st
       && forallb (fun kv => negb (Vocab.is_foreign original_nodes kv)
                             && negb (Vocab.is_corrupted original_nodes kv)) nodes)
      (UdfVerifier.int_issues st
       ++ map Vocab.not_found_issue
            (filter (fun kv => Vocab.is_foreign original_nodes kv = true) nodes))
      (UdfVerifier.corrupted_nodes st
       ++ map fst
            (filter (fun kv => Vocab.is_corrupted original_nodes kv = true) nodes)).
Proof.
  revert st. induction nodes as [|[k d] nodes IH]; intros [p i c]; cbn [fold_left].
  - cbn. by rewrite andb_true_r, !app_nil_r.
  - rewrite IH, !filter_cons. cbn [forallb].
    unfold UdfVerifier.integrity_step, Vocab.is_foreign, Vocab.is_corrupted.
    cbn [fst snd].
    destruct (odict_get k original_nodes) as [o|].
    + destruct (String.eqb _ _); cbn [negb].
      * rewrite !decide_False by done. by cbn.
      * rewrite decide_False, decide_True by done. cbn.
        by rewrite andb_false_r, <- app_assoc.
    + rewrite decide_True, decide_False by done. cbn.
      by rewrite andb_false_r, <- app_assoc.
Qed.

(** X4.  [verify_node_integrity]: the report holds one issue for every
    filtered node whose id the original does not declare, in table order,
    followed by one issue that counts the nodes whose stripped raw text
    differs from the original's; the check passes exactly when every
    filtered node is an original node with the same stripped raw text. *)
Theorem node_integrity_report original_nodes filtered_nodes :
  let foreign :=
    filter (fun kv => Vocab.is_foreign original_nodes kv = true) filtered_nodes in
  let corrupted :=
    filter (fun kv => Vocab.is_corrupted original_nodes kv = true) filtered_nodes in
  let c := UdfVerifier.verify_node_integrity original_nodes filtered_nodes in
  UdfVerifier.issues c
  = map Vocab.not_found_issue foreign
    ++ match corrupted with
       | [] => []
       | _ => [String.append "Corrupted node definitions: "
                 (pretty (length corrupted))]
       end
  ∧ (UdfVerifier.passed c = true
     <-> Forall (Spec.intact original_nodes) filtered_nodes)
  ∧ (UdfVerifier.passed c = true <-> UdfVerifier.issues c = []).
Proof.
  intros foreign corrupted c.
  assert (c = UdfVerifier.Verdict
                (forallb (fun kv => negb (Vocab.is_foreign original_nodes kv)
                                    && negb (Vocab.is_corrupted original_nodes kv))
                   filtered_nodes)
                (map Vocab.not_found_issue foreign
                 ++ match corrupted with
                    | [] => []
                    | _ => [String.append "Corrupted node definitions: "
                              (pretty (length corrupted))]
                    end)) as ->.
  { unfold c, UdfVerifier.verify_node_integrity.
    rewrite integrity_fold. cbn [UdfVerifier.int_passed UdfVerifier.int_issues
      UdfVerifier.corrupted_nodes andb app].
    fold corrupted. fold foreign.
    destruct corrupted as [|x xs]; cbn [map]; [by rewrite app_nil_r|].
    cbn [length]. by rewrite length_map. }
  cbn [UdfVerifier.passed UdfVerifier.issues].
  assert (forallb (fun kv => negb (Vocab.is_foreign original_nodes kv)
                             && negb (Vocab.is_corrupted original_nodes kv))
            filtered_nodes = true
          <-> Forall (Spec.intact original_nodes) filtered_nodes) as Hall.
  { rewrite forallb_forall, Forall_forall. apply forall_proper. intros kv.
    rewrite <- list_elem_of_In, intact_cases, andb_true_iff, !negb_true_iff. done. }
  split; [done|]. split; [done|]. rewrite Hall. split.
  - intros Hi. unfold foreign, corrupted.
    rewrite !(proj2 (filter_nil_iff _ _)); [done| |].
    + eapply Forall_impl; [exact Hi|]. intros kv [_ ?]%intact_cases. congruence.
    + eapply Forall_impl; [exact Hi|]. intros kv [? _]%intact_cases. congruence.
  - intros Hnil. apply app_eq_nil in Hnil as [Hf Hc].
    apply fmap_nil_inv in Hf.
    assert (corrupted = []) as Hc' by (by destruct corrupted).
    unfold foreign, corrupted in *.
    apply filter_nil_iff in Hf, Hc'. apply Forall_forall. intros kv Hkv.
    apply intact_cases.
    rewrite Forall_forall in Hf, Hc'. specialize (Hf kv Hkv). specialize (Hc' kv Hkv).
    split; [by destruct (Vocab.is_foreign _ _)|by destruct (Vocab.is_corrupted _ _)].
Qed.

Lemma verifier_adjacency original_edges (x y : string) :
  Spec.succ_of (UdfVerifier.cfg_adjacency original_edges) x y
  <-> Vocab.cfg_step original_edges x y.
Proof.
  unfold Spec.succ_of, UdfVerifier.cfg_adjacency, Vocab.cfg_step.
  rewrite adjacency_fold. split.
  - intros [H|(e & He & Hs & Ht)]; [by apply elem_of_nil in H|].
    apply list_elem_of_filter in He as [Hty He]. by exists e.
  - intros (e & He & Hty & Hs & Ht). right. exists e.
    split; [by apply list_elem_of_filter|done].
Qed.

Lemma differences_empty (A B : gset string) :
  A ∖ B = ∅ ∧ B ∖ A = ∅ <-> ∀ x, x ∈ A <-> x ∈ B.
Proof.
  split.
  - intros [H1 H2] x. split; intros Hx.
    + destruct (decide (x ∈ B)); [done|]. set_solver.
    + destruct (decide (x ∈ A)); [done|]. set_solver.
  - intros H. split; set_solver.
Qed.

Lemma reachable_ext (R1 R2 : string -> string -> Prop) (seeds : list string)
    (x : string) :
  (∀ a b, R1 a b <-> R2 a b) ->
  Vocab.reachable R1 seeds x <-> Vocab.reachable R2 seeds x.
Proof.
  intros H. unfold Vocab.reachable.
  split; intros (s & Hs & Hr); exists s; (split; [done|]);
    (eapply rtc_subrel; [|exact Hr]); intros a b; apply H.
Qed.

(** X5.  [verify_cfg_reachability] returns within the iteration budget, and
    it passes exactly when the ids of the filtered table are the nodes that
    CFG edges of the original reach from the original's UDF methods; a
    passing check reports no issue. *)
Theorem cfg_reachability_passes_iff original_edges original_nodes filtered_nodes
    (fuel : nat) :
  Spec.bfs_bound (UdfVerifier.cfg_adjacency original_edges) ≤ fuel ->
  ∃ c, UdfVerifier.verify_cfg_reachability original_edges original_nodes
         filtered_nodes fuel = Some c
       ∧ (UdfVerifier.passed c = true
          <-> ∀ x, x ∈ odict_keys filtered_nodes
                   <-> Vocab.reachable (Vocab.cfg_step original_edges)
                         (elements (UdfVerifier.udf_ids original_nodes)) x)
       ∧ (UdfVerifier.passed c = true -> UdfVerifier.issues c = []).
Proof.
  intros Hle. unfold UdfVerifier.verify_cfg_reachability.
  destruct (collect_reachable_returns (UdfVerifier.cfg_adjacency original_edges)
              fuel (elements (UdfVerifier.udf_ids original_nodes)) Hle)
    as [slice Hrun].
  rewrite Hrun. cbn [mbind option_bind]. eexists. split; [reflexivity|].
  assert (∀ x, x ∈ slice
               <-> Vocab.reachable (Vocab.cfg_step original_edges)
                     (elements (UdfVerifier.udf_ids original_nodes)) x) as Hsl.
  { intros x. rewrite <- (reachable_ext _ _ _ _ (verifier_adjacency original_edges)).
    apply (collect_reachable_result _ fuel) in Hrun as (Hseed & Hcl & _ & Hreach).
    split; [apply Hreach|]. intros (s & Hs & Hsx).
    apply (closed_rtc (UdfVerifier.cfg_adjacency original_edges) slice s x);
      [done|by apply Hseed|done]. }
  pose proof (differences_empty (odict_keys filtered_nodes) slice) as Hd.
  assert (∀ P : string -> Prop, (∀ x, x ∈ slice <-> P x) ->
            ((∀ x, x ∈ odict_keys filtered_nodes <-> x ∈ slice)
             <-> ∀ x, x ∈ odict_keys filtered_nodes <-> P x)) as Hsw.
  { intros P HP. split; intros H x; [by rewrite H, HP|by rewrite H, <- HP]. }
  rewrite <- (Hsw _ Hsl), <- Hd. clear Hd Hsw Hsl.
  destruct (decide (odict_keys filtered_nodes ∖ slice = ∅)) as [He|He];
    destruct (decide (slice ∖ odict_keys filtered_nodes = ∅)) as [Hm|Hm];
    cbn; (split; [|done]); split; try done; by intros [? ?].
Qed.

Lemma cfg_reachability_passes_iff_witness :
  ∃ c, UdfVerifier.verify_cfg_reachability
         (UdfVerifier.parse_edges Examples.small_graph)
         Samples.small_original Samples.small_table 10 = Some c
       ∧ (UdfVerifier.passed c = true
          <-> ∀ x, x ∈ odict_keys Samples.small_table
                   <-> Vocab.reachable
                         (Vocab.cfg_step (UdfVerifier.parse_edges Examples.small_graph))
                         (elements (UdfVerifier.udf_ids Samples.small_original)) x)
       ∧ (UdfVerifier.passed c = true -> UdfVerifier.issues c = []).
Proof.
  apply (cfg_reachability_passes_iff
           (UdfVerifier.parse_edges Examples.small_graph)
           Samples.small_original Samples.small_table 10).
  vm_compute. lia.
Defined.

Lemma signature_elem (es1 es2 : list edge_info) (e : edge_info) :
  map Spec.signature es1 = map Spec.signature es2 ->
  e ∈ es1 -> ∃ e', e' ∈ es2 ∧ Spec.signature e' = Spec.signature e.
Proof.
  intros Hmap He.
  assert (Spec.signature e ∈ map Spec.signature es2) as Hin.
  { rewrite <- Hmap. apply list_elem_of_fmap. by exists e. }
  apply list_elem_of_fmap in Hin as (e' & Hsig & He'). by exists e'.
Qed.

Lemma edge_filtering_all_valid original_nodes filtered_nodes filtered_edges :
  (∀ e, e ∈ filtered_edges -> edge_type e = "CFG" ->
        source e ∈ odict_keys filtered_nodes ∧ target e ∈ odict_keys filtered_nodes) ->
  (∀ e, e ∈ filtered_edges -> edge_type e = "CALL" ->
        source e ∈ odict_keys filtered_nodes
        ∧ target e ∈ UdfVerifier.udf_ids original_nodes) ->
  UdfVerifier.verify_edge_filtering original_nodes filtered_edges filtered_nodes
  = UdfVerifier.Verdict true [].
Proof.
  intros Hcfg Hcall. unfold UdfVerifier.verify_edge_filtering.
  rewrite (proj2 (filter_nil_iff _ (filter (fun e => edge_type e = "CFG") filtered_edges))).
  2:{ apply Forall_forall. intros e [Hty He]%list_elem_of_filter.
      destruct (Hcfg e He Hty) as [Hs Ht]. by intros [H|H]. }
  rewrite (proj2 (filter_nil_iff _ (filter (fun e => edge_type e = "CALL") filtered_edges))).
  2:{ apply Forall_forall. intros e [Hty He]%list_elem_of_filter.
      intros H. apply H. by apply Hcall. }
  done.
Qed.

(** X6.  The verifier accepts what the retention rule keeps: when the
    filtered file holds the edges that [retain_edges] keeps of the original
    edges for the verifier's UDF set, and declares every kept node,
    [verify_edge_filtering] passes without an issue. *)
Theorem edge_filtering_accepts_retained_edges original_nodes filtered_nodes
    (E filtered_edges : list edge_info) (kept_nodes : gset string) :
  map Spec.signature filtered_edges
  = map Spec.signature
      (UdfFilter.retain_edges (filter Spec.is_cfg E) (filter Spec.is_call E)
         kept_nodes (UdfVerifier.udf_ids original_nodes)) ->
  kept_nodes ⊆ odict_keys filtered_nodes ->
  UdfVerifier.verify_edge_filtering original_nodes filtered_edges filtered_nodes
  = UdfVerifier.Verdict true [].
Proof.
  intros Hsig Hkeys.
  assert (∀ e, e ∈ filtered_edges ->
               Spec.retained kept_nodes (UdfVerifier.udf_ids original_nodes) e) as Hret.
  { intros e He. destruct (signature_elem _ _ e Hsig He) as (e' & He' & Hs).
    rewrite retain_edges_perm in He'. apply list_elem_of_filter in He' as [Hr _].
    unfold Spec.signature in Hs. injection Hs as Hs Ht Hty.
    unfold Spec.retained in *. by rewrite <- Hs, <- Ht, <- Hty. }
  apply edge_filtering_all_valid.
  - intros e He Hty.
    destruct (Hret e He) as [(_ & Hs & Ht)|(Hty' & _)]; [|congruence]. set_solver.
  - intros e He Hty.
    destruct (Hret e He) as [(Hty' & _)|(_ & Hs & Ht)]; [congruence|]. set_solver.
Qed.

Lemma edge_filtering_accepts_retained_edges_witness :
  UdfVerifier.verify_edge_filtering Samples.small_original
    (UdfVerifier.parse_edges Examples.small_filtered) Samples.small_table
  = UdfVerifier.Verdict true [].
Proof.
  apply (edge_filtering_accepts_retained_edges Samples.small_original
           Samples.small_table (UdfVerifier.parse_edges Examples.small_graph)
           (UdfVerifier.parse_edges Examples.small_filtered) {["7"; "8"]}).
  - vm_compute. reflexivity.
  - apply (bool_decide_unpack _). vm_compute. exact I.
Defined.

End VerifierMore.

(** ** Node tables *)

Section NodeTables.
Import Py.

Lemma odict_get_set {V} (k k' : string) (v : V) (d : list (string * V)) :
  odict_get k' (odict_set k v d)
  = if String.eqb k' k then Some v else odict_get k' d.
Proof.
  induction d as [|[k0 v0] d IH]; simpl.
  - by destruct (String.eqb k' k).
  - destruct (String.eqb k k0) eqn:Hk; simpl.
    + apply eqb_true_iff in Hk as ->. by destruct (String.eqb k' k0).
    + rewrite IH. destruct (String.eqb k' k0) eqn:Hk0; [|done].
      apply eqb_true_iff in Hk0 as ->.
      by rewrite String.eqb_sym, Hk.
Qed.

Lemma odict_set_keys {V} (k : string) (v : V) (d : list (string * V)) :
  map fst (odict_set k v d)
  = if decide (k ∈ map fst d) then map fst d else map fst d ++ [k].
Proof.
  induction d as [|[k0 v0] d IH]; cbn [odict_set map fst].
  - rewrite decide_False; [done|]. apply not_elem_of_nil.
  - destruct (String.eqb k k0) eqn:Hk; cbn [map fst].
    + apply eqb_true_iff in Hk as ->. rewrite decide_True; [done|]. by left.
    + apply eqb_false_iff in Hk. rewrite IH.
      destruct (decide (k ∈ map fst d)) as [Hin|Hin].
      * rewrite decide_True; [done|]. by right.
      * rewrite decide_False; [done|]. by intros [?|?]%elem_of_cons.
Qed.

Lemma odict_get_elem {V} (k : string) (v : V) (d : list (string * V)) :
  odict_get k d = Some v -> (k, v) ∈ d.
Proof.
  induction d as [|[k0 v0] d IH]; simpl; [done|].
  destruct (String.eqb k k0) eqn:Hk.
  - apply eqb_true_iff in Hk as ->. intros [= ->]. by left.
  - intros H. right. by apply IH.
Qed.

Lemma odict_get_None {V} (k : string) (d : list (string * V)) :
  odict_get k d = None <-> k ∉ map fst d.
Proof.
  induction d as [|[k0 v0] d IH]; simpl.
  - split; [intros _; apply not_elem_of_nil|done].
  - destruct (String.eqb k k0) eqn:Hk.
    + apply eqb_true_iff in Hk as ->. split; [done|]. intros H. exfalso. apply H. by left.
    + apply eqb_false_iff in Hk. rewrite IH, not_elem_of_cons. tauto.
Qed.

Lemma odict_get_unique {V} (k : string) (v : V) (d : list (string * V)) :
  NoDup (map fst d) -> (k, v) ∈ d -> odict_get k d = Some v.
Proof.
  induction d as [|[k0 v0] d IH]; simpl; intros Hnd Hin.
  - by apply elem_of_nil in Hin.
  - apply NoDup_cons in Hnd as [Hk0 Hnd].
    apply elem_of_cons in Hin as [[= -> ->]|Hin].
    + by rewrite String.eqb_refl.
    + destruct (String.eqb k k0) eqn:Hk; [|by apply IH].
      apply eqb_true_iff in Hk as ->. exfalso. apply Hk0.
      apply list_elem_of_fmap. by exists (k0, v).
Qed.

(** A table built by successive [odict_set]s: the keys in the order of
    their first insertion, each with the value of its last insertion. *)
Lemma odict_fold {V W} (f : W -> V) (ds : list (string * W)) :
  let table := fold_left (fun nodes '(k, w) => odict_set k (f w) nodes) ds [] in
  map fst table = reverse (remove_dups (reverse (map fst ds)))
  ∧ ∀ k, odict_get k table = f <$> odict_get k (reverse ds).
Proof.
  induction ds as [|[k w] ds IH] using rev_ind; [done|].
  cbn zeta in *. destruct IH as [IHk IHv].
  rewrite fold_left_app. cbn [fold_left]. split.
  - rewrite odict_set_keys, IHk, map_app, reverse_app. cbn [map reverse rev_append app].
    change (rev_append [k] []) with [k]. cbn [app remove_dups fst].
    destruct (decide_rel elem_of k (reverse (map fst ds))) as [Hin|Hin].
    + rewrite decide_True; [done|].
      by rewrite elem_of_reverse, elem_of_remove_dups.
    + rewrite decide_False; [by rewrite reverse_cons|].
      by rewrite elem_of_reverse, elem_of_remove_dups.
  - intros k'. rewrite odict_get_set, reverse_app. cbn [reverse rev_append app].
    change (rev_append [(k, w)] []) with [(k, w)]. cbn [app odict_get].
    destruct (String.eqb k' k); [done|apply IHv].
Qed.

(** X7.  [parse_nodes] returns a table with one entry per declared id, the
    ids in the order of their first declaration in the text; the entry of an
    id holds the attributes and the stripped text of its last declaration. *)
Theorem parse_nodes_first_place_last_text (dot_content : string) :
  let decls := Scan.scan_decls (fun _ => true) None (lines dot_content) in
  let entry full_definition_lines :=
    let full_definition := join (String nl EmptyString) full_definition_lines in
    UdfVerifier.NodeData (UdfVerifier.extract_node_attributes full_definition)
      (strip full_definition) in
  NoDup (map fst (UdfVerifier.parse_nodes dot_content))
  ∧ map fst (UdfVerifier.parse_nodes dot_content)
    = reverse (remove_dups (reverse (map fst decls)))
  ∧ ∀ node_id, odict_get node_id (UdfVerifier.parse_nodes dot_content)
               = entry <$> odict_get node_id (reverse decls).
Proof.
  intros decls entry.
  destruct (odict_fold entry decls) as [Hk Hv].
  change (UdfVerifier.parse_nodes dot_content)
    with (fold_left (fun nodes '(k, w) => odict_set k (entry w) nodes) decls []).
  split; [|split; [exact Hk|exact Hv]].
  rewrite Hk, reverse_Permutation. apply NoDup_remove_dups.
Qed.

Lemma elem_of_method_ids nodes0 (k : string) :
  k ∈ UdfVerifier.method_ids nodes0
  <-> ∃ d, (k, d) ∈ nodes0 ∧ UdfVerifier.is_method d = true.
Proof.
  unfold UdfVerifier.method_ids. rewrite elem_of_list_to_set, list_elem_of_fmap.
  split.
  - intros ([k' d] & -> & [Hm Hin]%list_elem_of_filter). by exists d.
  - intros (d & Hin & Hm). exists (k, d). split; [done|].
    by apply list_elem_of_filter.
Qed.

Lemma elem_of_udf_ids' nodes0 (k : string) :
  k ∈ UdfVerifier.udf_ids nodes0
  <-> ∃ d, (k, d) ∈ nodes0 ∧ UdfVerifier.is_method d = true
           ∧ UdfVerifier.is_user_defined_method (UdfVerifier.attributes d) = true.
Proof.
  unfold UdfVerifier.udf_ids. rewrite elem_of_list_to_set, list_elem_of_fmap.
  split.
  - intros ([k' d] & -> & [[Hm Hu] Hin]%list_elem_of_filter). by exists d.
  - intros (d & Hin & Hm & Hu). exists (k, d). split; [done|].
    by apply list_elem_of_filter.
Qed.

Lemma is_method_attributes (d d' : UdfVerifier.node_data) :
  UdfVerifier.attributes d' = UdfVerifier.attributes d ->
  UdfVerifier.is_method d' = UdfVerifier.is_method d.
Proof. unfold UdfVerifier.is_method. by intros ->. Qed.

Lemma faithful_ids (original_nodes filtered_nodes : list (string * UdfVerifier.node_data)) :
  NoDup (map fst original_nodes) ->
  Vocab.faithful original_nodes filtered_nodes ->
  (∀ k, k ∈ UdfVerifier.udf_ids filtered_nodes
        <-> k ∈ odict_keys filtered_nodes ∧ k ∈ UdfVerifier.udf_ids original_nodes)
  ∧ (∀ k, k ∈ UdfVerifier.method_ids filtered_nodes
          <-> k ∈ odict_keys filtered_nodes ∧ k ∈ UdfVerifier.method_ids original_nodes).
Proof.
  intros Hnd Hf.
  assert (∀ k, k ∈ odict_keys filtered_nodes <-> ∃ d, (k, d) ∈ filtered_nodes) as Hkeys.
  { intros k. unfold odict_keys. rewrite elem_of_list_to_set, list_elem_of_fmap. split.
    - intros ([k' d] & -> & Hin). by exists d.
    - intros (d & Hin). by exists (k, d). }
  split; intros k.
  - rewrite !elem_of_udf_ids', Hkeys. split.
    + intros (d & Hin & Hm & Hu). split; [by exists d|].
      destruct (Hf k d Hin) as (d' & Hget & Ha). exists d'.
      split; [by apply odict_get_elem|].
      by rewrite (is_method_attributes d d' Ha), Ha.
    + intros [(d & Hin) (d' & Hin' & Hm & Hu)]. exists d. split; [done|].
      destruct (Hf k d Hin) as (d'' & Hget & Ha).
      rewrite (odict_get_unique k d' original_nodes Hnd Hin') in Hget.
      injection Hget as <-.
      by rewrite <- (is_method_attributes d d' Ha), <- Ha.
  - rewrite !elem_of_method_ids, Hkeys. split.
    + intros (d & Hin & Hm). split; [by exists d|].
      destruct (Hf k d Hin) as (d' & Hget & Ha). exists d'.
      split; [by apply odict_get_elem|].
      by rewrite (is_method_attributes d d' Ha).
    + intros [(d & Hin) (d' & Hin' & Hm)]. exists d. split; [done|].
      destruct (Hf k d Hin) as (d'' & Hget & Ha).
      rewrite (odict_get_unique k d' original_nodes Hnd Hin') in Hget.
      injection Hget as <-.
      by rewrite <- (is_method_attributes d d' Ha).
Qed.

Lemma udf_identification_verdict (set_repr : gset string -> string)
    (original_nodes filtered_nodes : list (string * UdfVerifier.node_data)) :
  let c := UdfVerifier.verify_udf_identification set_repr original_nodes filtered_nodes in
  (UdfVerifier.passed c = true
   <-> UdfVerifier.udf_ids original_nodes ∖ UdfVerifier.udf_ids filtered_nodes = ∅
       ∧ UdfVerifier.method_ids filtered_nodes ∖ UdfVerifier.udf_ids original_nodes = ∅)
  ∧ (UdfVerifier.passed c = true -> UdfVerifier.issues c = []).
Proof.
  cbn zeta. unfold UdfVerifier.verify_udf_identification.
  destruct (decide (UdfVerifier.udf_ids original_nodes
                    ∖ UdfVerifier.udf_ids filtered_nodes = ∅));
    destruct (decide (UdfVerifier.method_ids filtered_nodes
                      ∖ UdfVerifier.udf_ids original_nodes = ∅));
    cbn; (split; [|done]); split; try done; by intros [? ?].
Qed.

Lemma faithful_differences
    (original_nodes filtered_nodes : list (string * UdfVerifier.node_data)) :
  NoDup (map fst original_nodes) ->
  Vocab.faithful original_nodes filtered_nodes ->
  (UdfVerifier.udf_ids original_nodes ∖ UdfVerifier.udf_ids filtered_nodes = ∅
   <-> UdfVerifier.udf_ids original_nodes ⊆ odict_keys filtered_nodes)
  ∧ (UdfVerifier.method_ids filtered_nodes ∖ UdfVerifier.udf_ids original_nodes = ∅
     <-> ∀ k, k ∈ odict_keys filtered_nodes ->
              k ∈ UdfVerifier.method_ids original_nodes ->
              k ∈ UdfVerifier.udf_ids original_nodes).
Proof.
  intros Hnd Hf. destruct (faithful_ids _ _ Hnd Hf) as [Hu Hm].
  set (U := UdfVerifier.udf_ids original_nodes) in *.
  set (K := odict_keys filtered_nodes) in *.
  set (M := UdfVerifier.method_ids original_nodes) in *.
  split.
  - rewrite elem_of_equiv_empty_L. split.
    + intros H k Hk. destruct (decide (k ∈ K)) as [|Hn]; [done|].
      exfalso. apply (H k). apply elem_of_difference. split; [done|].
      rewrite Hu. tauto.
    + intros H k [Hk Hn]%elem_of_difference. apply Hn, Hu. split; [by apply H|done].
  - rewrite elem_of_equiv_empty_L. split.
    + intros H k HK HM. destruct (decide (k ∈ U)) as [|Hn]; [done|].
      exfalso. apply (H k). apply elem_of_difference. split; [|done].
      by apply Hm.
    + intros H k [[HK HM]%Hm Hn]%elem_of_difference. by apply Hn, H.
Qed.

(** X8.  [verify_udf_identification] on a filtered table whose nodes carry
    the attributes of the original nodes of the same id: the check passes
    exactly when every UDF method of the original is in the filtered table
    and every METHOD node of the original that is in the filtered table is a
    UDF method; a passing check reports no issue. *)
Theorem udf_identification_passes_iff (set_repr : gset string -> string)
    (original_nodes filtered_nodes : list (string * UdfVerifier.node_data)) :
  NoDup (map fst original_nodes) ->
  Vocab.faithful original_nodes filtered_nodes ->
  let c := UdfVerifier.verify_udf_identification set_repr original_nodes filtered_nodes in
  (UdfVerifier.passed c = true
   <-> UdfVerifier.udf_ids original_nodes ⊆ odict_keys filtered_nodes
       ∧ ∀ k, k ∈ odict_keys filtered_nodes ->
              k ∈ UdfVerifier.method_ids original_nodes ->
              k ∈ UdfVerifier.udf_ids original_nodes)
  ∧ (UdfVerifier.passed c = true -> UdfVerifier.issues c = []).
Proof.
  intros Hnd Hf c.
  destruct (faithful_differences _ _ Hnd Hf) as [H1 H2].
  destruct (udf_identification_verdict set_repr original_nodes filtered_nodes)
    as [Hp Hi].
  split; [|exact Hi]. fold c in Hp. by rewrite Hp, H1, H2.
Qed.

Lemma udf_identification_passes_iff_witness :
  let c := UdfVerifier.verify_udf_identification Examples.set_repr_any
             Samples.small_original Samples.small_table in
  (UdfVerifier.passed c = true
   <-> UdfVerifier.udf_ids Samples.small_original ⊆ odict_keys Samples.small_table
       ∧ ∀ k, k ∈ odict_keys Samples.small_table ->
              k ∈ UdfVerifier.method_ids Samples.small_original ->
              k ∈ UdfVerifier.udf_ids Samples.small_original)
  ∧ (UdfVerifier.passed c = true -> UdfVerifier.issues c = []).
Proof.
  apply (udf_identification_passes_iff Examples.set_repr_any
           Samples.small_original Samples.small_table).
  - apply (bool_decide_unpack _). vm_compute. exact I.
  - intros k d Hin.
    assert (Forall (fun kd =>
              ∃ d', odict_get kd.1 Samples.small_original = Some d'
                    ∧ UdfVerifier.attributes d' = UdfVerifier.attributes kd.2)
              Samples.small_table) as Hall.
    { vm_compute. repeat constructor; eexists; split; reflexivity. }
    rewrite Forall_forall in Hall. apply (Hall (k, d) Hin).
Defined.

End NodeTables.

(** ** What the filter keeps *)

Section FilterOutput.
Import Py.

Lemma dom_fold_insert {W} (f : W -> string) (ds : list (string * W))
    (m : gmap string string) :
  dom (fold_left (fun node_lines '(k, w) => <[k := f w]> node_lines) ds m)
  = dom m ∪ list_to_set (map fst ds).
Proof.
  revert m. induction ds as [|[k w] ds IH]; intros m; cbn [fold_left map fst].
  - set_solver.
  - rewrite IH, dom_insert_L. set_solver.
Qed.

Lemma dom_extract_nodes_simple (dot_content : string) (node_ids : gset string) :
  dom (UdfFilter.extract_nodes_simple dot_content node_ids) ⊆ node_ids.
Proof.
  unfold UdfFilter.extract_nodes_simple.
  rewrite (dom_fold_insert (join (String nl EmptyString))).
  rewrite dom_empty_L, union_empty_l_L. intros k Hk.
  apply elem_of_list_to_set, list_elem_of_fmap in Hk as (d & -> & Hd).
  pose proof (scan_decls_heads (fun node_id => bool_decide (node_id ∈ node_ids))
                (lines dot_content) None) as Hall.
  rewrite Forall_forall in Hall.
  specialize (Hall ltac:(by intros p [=]) d Hd). cbn beta in Hall.
  by apply bool_decide_eq_true in Hall.
Qed.

(** X9.  Within the iteration budget [filter_udf_subgraph] returns; every
    node it keeps a declaration of, and both endpoints of every edge it
    keeps, are reached from a UDF method along CFG edges of the input; every
    kept edge is an edge of the input; and no CFG edge is cut: a CFG edge of
    the input whose source is reached is kept. *)
Theorem filter_output_within_slice (fuel : nat) (dot_content : string) :
  let st := UdfFilter.extract_edges_simple dot_content in
  let udfs := UdfFilter.udf_methods (UdfFilter.extract_node_minimal_info dot_content) in
  let reach :=
    Vocab.reachable (Vocab.cfg_step (UdfFilter.edge_lines st)) (elements udfs) in
  Spec.bfs_bound (UdfFilter.cfg_adjacency st) ≤ fuel ->
  ∃ node_definitions kept_edges,
    UdfFilter.filter_udf_subgraph fuel dot_content
    = Some (node_definitions, kept_edges)
    ∧ (∀ node_id, node_id ∈ dom node_definitions -> reach node_id)
    ∧ (∀ e, e ∈ kept_edges ->
            e ∈ UdfFilter.edge_lines st ∧ reach (source e) ∧ reach (target e))
    ∧ (∀ e, e ∈ UdfFilter.edge_lines st -> edge_type e = "CFG" ->
            reach (source e) -> e ∈ kept_edges).
Proof.
  intros st udfs reach Hle. unfold UdfFilter.filter_udf_subgraph.
  fold st. fold udfs.
  destruct (collect_reachable_returns (UdfFilter.cfg_adjacency st) fuel
              (elements udfs) Hle) as [slice Hrun].
  rewrite Hrun. cbn [mbind option_bind]. eexists _, _. split; [reflexivity|].
  assert (∀ x y, Spec.succ_of (UdfFilter.cfg_adjacency st) x y
                 <-> Vocab.cfg_step (UdfFilter.edge_lines st) x y) as Hadj.
  { intros x y. apply (filter_adjacency_edges dot_content x y). }
  apply collect_reachable_result in Hrun as (Hseed & Hcl & _ & Hreach).
  assert (∀ x, x ∈ slice <-> reach x) as Hsl.
  { intros x. unfold reach. rewrite <- (reachable_ext _ _ _ _ Hadj). split.
    - apply Hreach.
    - intros (s & Hs & Hsx).
      apply (closed_rtc (UdfFilter.cfg_adjacency st) slice s x);
        [done|by apply Hseed|done]. }
  destruct (filter_edges_spec dot_content) as (HR & Hcfg & Hcall & _).
  fold st in HR, Hcfg, Hcall.
  assert (∀ e, e ∈ UdfFilter.retain_edges (UdfFilter.cfg_edges st)
                     (UdfFilter.call_edges st) slice udfs
               <-> Spec.retained slice udfs e ∧ e ∈ UdfFilter.edge_lines st) as Hkept.
  { intros e. rewrite Hcfg, Hcall, retain_edges_perm, list_elem_of_filter.
    by rewrite HR. }
  split; [|split].
  - intros node_id Hin. apply Hsl.
    by apply (dom_extract_nodes_simple dot_content slice).
  - intros e [Hret He]%Hkept. split; [done|].
    destruct Hret as [(_ & Hs & Ht)|(_ & Hs & Ht)].
    + split; by apply Hsl.
    + split; [by apply Hsl|]. exists (target e). split; [|apply rtc_refl].
      by apply elem_of_elements.
  - intros e He Hty Hs. apply Hkept. split; [|done]. left.
    apply Hsl in Hs. split; [done|]. split; [done|].
    apply (Hcl (source e) (target e) Hs). apply Hadj. by exists e.
Qed.

Lemma filter_output_within_slice_witness :
  let st := UdfFilter.extract_edges_simple Examples.scenario in
  let udfs := UdfFilter.udf_methods (UdfFilter.extract_node_minimal_info Examples.scenario) in
  let reach :=
    Vocab.reachable (Vocab.cfg_step (UdfFilter.edge_lines st)) (elements udfs) in
  ∃ node_definitions kept_edges,
    UdfFilter.filter_udf_subgraph 10 Examples.scenario
    = Some (node_definitions, kept_edges)
    ∧ (∀ node_id, node_id ∈ dom node_definitions -> reach node_id)
    ∧ (∀ e, e ∈ kept_edges ->
            e ∈ UdfFilter.edge_lines st ∧ reach (source e) ∧ reach (target e))
    ∧ (∀ e, e ∈ UdfFilter.edge_lines st -> edge_type e = "CFG" ->
            reach (source e) -> e ∈ kept_edges).
Proof.
  apply (filter_output_within_slice 10 Examples.scenario).
  vm_compute. lia.
Defined.

End FilterOutput.

(** ** Lines of a written file *)

Section TextFacts.
Import Py.

Lemma split_app_sep (sep : ascii) (a b : string) :
  split sep (String.append a (String sep b)) = split sep a ++ split sep b.
Proof.
  induction a as [|c a IH].
  - rewrite app_nil_l_s. cbn [split]. by rewrite Ascii.eqb_refl.
  - rewrite app_cons_s. cbn [split]. rewrite IH.
    destruct (Ascii.eqb c sep); [done|].
    pose proof (split_nonempty sep a). by destruct (split sep a).
Qed.

Lemma lines_app_nl (a b : string) :
  lines (String.append a (String nl b)) = lines a ++ lines b.
Proof. apply split_app_sep. Qed.

Lemma one_line_chars (s : string) :
  Vocab.one_line s <-> Spec.all_chars (fun c => negb (Ascii.eqb c nl)) s = true.
Proof.
  unfold Vocab.one_line. induction s as [|c s IH]; [done|].
  rewrite contains_unfold. cbn [String.prefix Spec.all_chars].
  destruct (ascii_dec nl c) as [<-|Hne].
  - rewrite Ascii.eqb_refl. by destruct s.
  - assert (Ascii.eqb c nl = false) as -> by (apply Ascii.eqb_neq; congruence).
    cbn [negb andb]. exact IH.
Qed.

Lemma one_line_app (a b : string) :
  Vocab.one_line (String.append a b) <-> Vocab.one_line a ∧ Vocab.one_line b.
Proof.
  rewrite !one_line_chars. induction a as [|c a IH].
  - rewrite app_nil_l_s. cbn. tauto.
  - rewrite app_cons_s. cbn [Spec.all_chars]. rewrite !andb_true_iff, IH. tauto.
Qed.

Lemma lines_one_line (s : string) : Vocab.one_line s -> lines s = [s].
Proof.
  rewrite one_line_chars. unfold lines.
  induction s as [|c s IH]; [done|]. cbn [Spec.all_chars split].
  intros [Hc Hs]%andb_true_iff. apply negb_true_iff in Hc. rewrite Hc.
  by rewrite (IH Hs).
Qed.

Lemma lines_are_one_line (s l : string) : l ∈ lines s -> Vocab.one_line l.
Proof.
  intros Hl. pose proof (split_no_sep nl s) as Hall.
  rewrite Forall_forall in Hall. by apply Hall.
Qed.

(** The text of pieces each closed by a line feed. *)
Lemma lines_terminated (pieces : list string) :
  lines (String.concat "" (map (fun p => String.append p (String nl EmptyString)) pieces))
  = concat (map lines pieces) ++ [EmptyString].
Proof.
  induction pieces as [|p pieces IH]; [done|].
  cbn [map]. rewrite concat_nil_cons, app_assoc_s, app_cons_s, app_nil_l_s.
  rewrite lines_app_nl, IH. cbn [concat]. by rewrite <- app_assoc.
Qed.

(** Decimal numerals. *)
Lemma pretty_N_go_chars (P : ascii -> bool) :
  (∀ d, P (pretty_N_char d) = true) ->
  ∀ (x : N) (s : string), Spec.all_chars P s = true ->
                          Spec.all_chars P (pretty_N_go x s) = true.
Proof.
  intros Hd x. induction (N.lt_wf_0 x) as [x _ IH]. intros s Hs.
  destruct (decide (0 < x)%N) as [Hx|Hx].
  - rewrite pretty_N_go_step by done. apply IH.
    + by apply N.div_lt.
    + cbn [Spec.all_chars]. by rewrite Hd, Hs.
  - assert (x = 0%N) as -> by lia. by rewrite pretty_N_go_0.
Qed.

Lemma pretty_nat_one_line (n : nat) : Vocab.one_line (pretty n).
Proof.
  apply one_line_chars. unfold pretty, pretty_nat, pretty, pretty_N.
  destruct (decide (N.of_nat n = 0%N)); [done|].
  apply pretty_N_go_chars; [|done].
  intros d. unfold pretty_N_char. destruct d as [|p]; [done|].
  do 4 (try (destruct p as [p|p|]; try done)).
Qed.

(** *** Stripping *)

Lemma rstrip_cons (c : ascii) (s : string) :
  rstrip (String c s)
  = match rstrip s with
    | EmptyString => if isspace c then EmptyString else String c EmptyString
    | r => String c r
    end.
Proof. reflexivity. Qed.

Lemma rstrip_idem (s : string) : rstrip (rstrip s) = rstrip s.
Proof.
  induction s as [|c s IH]; [done|]. rewrite rstrip_cons.
  destruct (rstrip s) as [|d r] eqn:Hr.
  - destruct (isspace c) eqn:Hc; [done|]. rewrite rstrip_cons. cbn [rstrip]. by rewrite Hc.
  - rewrite rstrip_cons, IH. done.
Qed.

Lemma rstrip_lstrip (s : string) : rstrip s = s -> rstrip (lstrip s) = lstrip s.
Proof.
  induction s as [|c s IH]; [done|]. cbn [lstrip].
  destruct (isspace c) eqn:Hc; [|done].
  rewrite rstrip_cons. intros H. apply IH.
  destruct (rstrip s) as [|d r]; [by rewrite Hc in H|]. by injection H.
Qed.

Lemma lstrip_idem (s : string) : lstrip (lstrip s) = lstrip s.
Proof.
  induction s as [|c s IH]; [done|]. cbn [lstrip].
  destruct (isspace c) eqn:Hc; [done|]. cbn [lstrip]. by rewrite Hc.
Qed.

Lemma strip_idem (s : string) : strip (strip s) = strip s.
Proof.
  unfold strip. rewrite (rstrip_lstrip (rstrip s)) by apply rstrip_idem.
  apply lstrip_idem.
Qed.

Lemma strip_space (c : ascii) (s : string) :
  isspace c = true -> strip (String c s) = strip s.
Proof.
  intros Hc. unfold strip. rewrite rstrip_cons.
  destruct (rstrip s) as [|d r]; [by rewrite Hc|]. cbn [lstrip]. by rewrite Hc.
Qed.

Lemma strip_indent (l : string) : strip (String.append "  " l) = strip l.
Proof. rewrite !app_cons_s, app_nil_l_s. by rewrite !strip_space. Qed.

Lemma strip_head (c : ascii) (s : string) :
  isspace c = false -> ∃ r, strip (String c s) = String c r.
Proof.
  intros Hc. unfold strip. rewrite rstrip_cons.
  destruct (rstrip s) as [|d r]; rewrite ?Hc; cbn [lstrip]; rewrite Hc; eauto.
Qed.

Lemma rstrip_space_end_mark (c : ascii) (s : string) :
  isspace c = true ->
  endswith Scan.end_mark (rstrip (String c s)) = endswith Scan.end_mark (rstrip s).
Proof.
  intros Hc. rewrite rstrip_cons.
  destruct (rstrip s) as [|d r]; [by rewrite Hc|].
  rewrite endswith_unfold.
  assert (String.eqb (String c (String d r)) Scan.end_mark = false) as ->; [|done].
  apply eqb_false_iff. intros [= -> _]. done.
Qed.

(** *** Lines that no scanner reads *)

Lemma unquoted_no_match (c : ascii) (r : string) :
  c ≠ dquote ->
  Re.edge_match (String c r) = None ∧ Re.node_match (String c r) = None.
Proof.
  intros Hc. unfold Re.edge_match, Re.node_match, Re.quoted_id.
  assert (Ascii.eqb c dquote = false) as -> by (by apply Ascii.eqb_neq). done.
Qed.

Lemma inert_head (c : ascii) (s : string) :
  isspace c = false -> c ≠ dquote -> Vocab.inert (String c s).
Proof.
  intros Hs Hq. unfold Vocab.inert.
  destruct (strip_head c s Hs) as [r ->]. by apply unquoted_no_match.
Qed.

Lemma inert_indent (l : string) :
  Vocab.inert l -> Vocab.inert (String.append "  " l).
Proof. unfold Vocab.inert. by rewrite strip_indent. Qed.

Lemma inert_empty : Vocab.inert EmptyString.
Proof. done. Qed.

Lemma node_line_no_edge (s node_id : string) :
  Re.node_match s = Some node_id -> Re.edge_match s = None.
Proof.
  unfold Re.node_match, Re.edge_match.
  destruct (Re.quoted_id s) as [[id r]|]; [|done]. cbn [mbind option_bind].
  destruct (Re.literal "[" (Re.skip_ws r)) as [a|] eqn:Ha; [|done].
  apply literal_spec in Ha. intros _.
  destruct (Re.literal "->" (Re.skip_ws r)) as [b|] eqn:Hb; [|done].
  apply literal_spec in Hb. rewrite Ha in Hb. done.
Qed.

Lemma edge_line_no_node (s : string) (sig : string * string * string) :
  Re.edge_match s = Some sig -> Re.node_match s = None.
Proof.
  intros He. destruct (Re.node_match s) as [node_id|] eqn:Hn; [|done].
  apply node_line_no_edge in Hn. congruence.
Qed.

Lemma recognised_inert (raw : string -> string) (ls : list string) :
  Forall Vocab.inert ls -> Spec.recognised raw ls = [].
Proof.
  induction 1 as [|l ls [He _] _ IH]; [done|].
  rewrite recognised_cons. unfold Spec.recognise. by rewrite He.
Qed.

Lemma scan_decls_inert (wanted : string -> bool) (ls rest : list string) :
  Forall Vocab.inert ls ->
  Scan.scan_decls wanted None (ls ++ rest) = Scan.scan_decls wanted None rest.
Proof.
  induction 1 as [|l ls [_ Hn] _ IH]; [done|].
  cbn [app Scan.scan_decls]. by rewrite Hn.
Qed.

End TextFacts.

(** ** Reading back what the filter writes *)

Section RoundTrip.
Import Py.

Lemma split_cons_other (sep c : ascii) (s : string) :
  Ascii.eqb c sep = false ->
  split sep (String c s)
  = match split sep s with
    | h :: t => String c h :: t
    | [] => [String c EmptyString]
    end.
Proof. intros H. cbn [split]. by rewrite H. Qed.

Lemma lines_indent (d : string) :
  lines (String.append "  " d)
  = match lines d with
    | h :: t => String.append "  " h :: t
    | [] => []
    end.
Proof.
  unfold lines. rewrite !app_cons_s, app_nil_l_s.
  rewrite !split_cons_other by done.
  pose proof (split_nonempty nl d). by destruct (split nl d).
Qed.

Lemma concat_lines_one_line (ls : list string) :
  Forall Vocab.one_line ls -> concat (map lines ls) = ls.
Proof.
  induction 1 as [|l ls Hl _ IH]; [done|].
  cbn [map concat]. by rewrite (lines_one_line l Hl), IH.
Qed.

Lemma join_cons2 (sep x y : string) (ys : list string) :
  join sep (x :: y :: ys) = String.append x (String.append sep (join sep (y :: ys))).
Proof. reflexivity. Qed.

Lemma lines_unlines (ls : list string) :
  ls ≠ [] -> Forall Vocab.one_line ls -> lines (unlines ls) = ls.
Proof.
  intros Hne Hall. induction Hall as [|l ls Hl Hls IH]; [done|].
  destruct ls as [|l' ls].
  - by apply lines_one_line.
  - unfold unlines in *. rewrite join_cons2, app_cons_s, app_nil_l_s.
    rewrite lines_app_nl, (lines_one_line l Hl), IH; done.
Qed.

(** The file written by [write_dot_file], as pieces each closed by a line
    feed. *)
Lemma write_dot_file_pieces (node_definitions : gmap string string)
    (edges : list edge_info) (original_name : string) :
  UdfFilter.write_dot_file node_definitions edges original_name
  = String.concat ""
      (map (fun p => String.append p (String nl EmptyString))
         ([ String.append "digraph udf_" (String.append original_name " {");
            "  // UDF-filtered subgraph";
            "  // Only user-defined functions and their bodies";
            String.append
              (String.append "  // Nodes: "
                 (String.append (pretty (size node_definitions))
                    (String.append ", Edges: " (pretty (length edges)))))
              (String nl EmptyString);
            "  // Node definitions" ]
          ++ map (fun node_id => String.append "  " (dict_get node_definitions node_id ""))
               (UdfFilter.sorted_keys node_definitions)
          ++ [ String.append (String nl EmptyString) "  // Edge definitions" ]
          ++ map (fun e => String.append "  " (line e)) edges
          ++ [ "}" ])).
Proof.
  unfold UdfFilter.write_dot_file. f_equal.
  rewrite !map_app, !map_map. cbn [map].
  rewrite (map_ext (fun node_id => write_node_def (dict_get node_definitions node_id ""))
             (fun node_id => String.append
                               (String.append "  " (dict_get node_definitions node_id ""))
                               (String nl EmptyString))).
  2:{ intros node_id. rewrite write_node_def_indented.
      unfold Spec.indented. by rewrite app_assoc_s. }
  rewrite (map_ext (fun e => String.append "  " (String.append (line e) (String nl EmptyString)))
             (fun e => String.append (String.append "  " (line e)) (String nl EmptyString))).
  2:{ intros e. by rewrite app_assoc_s. }
  by rewrite !app_assoc_s.
Qed.

(** The lines of the file written by [write_dot_file]. *)
Lemma write_dot_file_lines (node_definitions : gmap string string)
    (edges : list edge_info) (original_name : string) :
  Vocab.one_line original_name ->
  Forall (fun e => Vocab.one_line (line e)) edges ->
  lines (UdfFilter.write_dot_file node_definitions edges original_name)
  = [ String.append "digraph udf_" (String.append original_name " {");
      "  // UDF-filtered subgraph";
      "  // Only user-defined functions and their bodies";
      String.append "  // Nodes: "
        (String.append (pretty (size node_definitions))
           (String.append ", Edges: " (pretty (length edges))));
      EmptyString;
      "  // Node definitions" ]
    ++ concat (map (fun node_id =>
                      lines (String.append "  " (dict_get node_definitions node_id "")))
                 (UdfFilter.sorted_keys node_definitions))
    ++ [ EmptyString; "  // Edge definitions" ]
    ++ map (fun e => String.append "  " (line e)) edges
    ++ [ "}"; EmptyString ].
Proof.
  intros Hname Hedges. rewrite write_dot_file_pieces, lines_terminated.
  rewrite !map_app, !concat_app, !map_map. cbn [map concat].
  rewrite lines_app_nl.
  rewrite (lines_one_line (String.append "digraph udf_" _)).
  2:{ apply one_line_app. split; [done|]. apply one_line_app. by split. }
  rewrite (lines_one_line (String.append "  // Nodes: " _)).
  2:{ apply one_line_app. split; [done|]. apply one_line_app.
      split; [apply pretty_nat_one_line|]. apply one_line_app.
      split; [done|apply pretty_nat_one_line]. }
  rewrite <- (map_map (fun e => String.append "  " (line e)) lines).
  rewrite (concat_lines_one_line (map _ edges)).
  2:{ apply Forall_fmap. eapply Forall_impl; [exact Hedges|].
      intros e He. cbn. apply one_line_app. by split. }
  change (lines "  // UDF-filtered subgraph") with ["  // UDF-filtered subgraph"].
  change (lines "  // Only user-defined functions and their bodies")
    with ["  // Only user-defined functions and their bodies"].
  change (lines "  // Node definitions") with ["  // Node definitions"].
  change (lines EmptyString) with [EmptyString].
  change (lines "}") with ["}"].
  change (lines (String.append (String nl EmptyString) "  // Edge definitions"))
    with [EmptyString; "  // Edge definitions"].
  cbn [app]. do 6 f_equal. rewrite <- !app_assoc. cbn [app].
  by rewrite <- !app_assoc.
Qed.

Lemma recognised_concat (raw : string -> string) (lss : list (list string)) :
  Forall (Forall (fun l => Re.edge_match (strip l) = None)) lss ->
  Spec.recognised raw (concat lss) = [].
Proof.
  induction 1 as [|ls lss Hls _ IH]; [done|].
  cbn [concat]. rewrite recognised_app, IH, app_nil_r.
  induction Hls as [|l ls Hl _ IHl]; [done|].
  rewrite recognised_cons. unfold Spec.recognise. by rewrite Hl.
Qed.

Lemma recognised_written_edges (edges : list edge_info) :
  Forall (fun e => Re.edge_match (strip (line e)) = Some (Spec.signature e)) edges ->
  Spec.recognised (fun l => strip (strip l))
    (map (fun e => String.append "  " (line e)) edges)
  = map (fun e => EdgeInfo (source e) (target e) (edge_type e) (strip (line e))) edges.
Proof.
  induction 1 as [|e edges He _ IH]; [done|].
  cbn [map]. rewrite recognised_cons, IH. unfold Spec.recognise.
  rewrite strip_indent, He, strip_idem. done.
Qed.

(** The edges of a written file, read by the verifier. *)
Lemma written_edges_read_back (node_definitions : gmap string string)
    (edges : list edge_info) (original_name : string) :
  Vocab.one_line original_name ->
  (∀ node_id d l, node_definitions !! node_id = Some d ->
                  l ∈ lines (String.append "  " d) ->
                  Re.edge_match (strip l) = None) ->
  Forall (fun e => Vocab.one_line (line e)
                   ∧ Re.edge_match (strip (line e)) = Some (Spec.signature e)) edges ->
  UdfVerifier.parse_edges
    (UdfFilter.write_dot_file node_definitions edges original_name)
  = map (fun e => EdgeInfo (source e) (target e) (edge_type e) (strip (line e))) edges.
Proof.
  intros Hname Hnodes Hedges.
  rewrite udf_parse_edges_spec, write_dot_file_lines; [|done|].
  2:{ eapply Forall_impl; [exact Hedges|]. by intros e [? _]. }
  rewrite !recognised_app.
  rewrite (recognised_inert _ [_; _; _; _; _; _]).
  2:{ apply Forall_cons. split; [by apply (inert_head "d")|].
      apply Forall_cons. split; [by vm_compute|].
      apply Forall_cons. split; [by vm_compute|].
      apply Forall_cons. split; [by apply (inert_indent (String "/" _)), inert_head|].
      apply Forall_cons. split; [by vm_compute|].
      apply Forall_cons. split; [by vm_compute|]. constructor. }
  rewrite recognised_concat.
  2:{ apply Forall_fmap, Forall_forall. intros node_id Hid. cbn.
      apply sorted_keys_spec in Hid as [d Hd].
      apply Forall_forall. intros l Hl. apply (Hnodes node_id d l Hd).
      unfold dict_get in Hl. by rewrite Hd in Hl. }
  rewrite (recognised_inert _ [_; _]).
  2:{ apply Forall_cons. split; [by vm_compute|].
      apply Forall_cons. split; [by vm_compute|]. constructor. }
  rewrite (recognised_inert _ [ "}"; _]).
  2:{ apply Forall_cons. split; [by vm_compute|].
      apply Forall_cons. split; [by vm_compute|]. constructor. }
  cbn [app]. rewrite app_nil_r. apply recognised_written_edges.
  eapply Forall_impl; [exact Hedges|]. by intros e [_ ?].
Qed.

(** Every declaration the scanner returns starts with a line that opens
    it. *)
Lemma scan_decls_headed (wanted : string -> bool) (ls : list string)
    (pending : option (string * list string)) :
  (∀ p, pending = Some p ->
        ∃ l seg, p.2 = l :: seg ∧ Re.node_match (strip l) = Some p.1) ->
  Forall (fun d => ∃ l seg, d.2 = l :: seg ∧ Re.node_match (strip l) = Some d.1)
    (Scan.scan_decls wanted pending ls).
Proof.
  revert pending. induction ls as [|l ls IH]; intros pending Hp; cbn [Scan.scan_decls].
  - destruct pending as [[node_id fl]|]; [|constructor].
    constructor; [|constructor]. by apply (Hp (node_id, fl)).
  - destruct pending as [[node_id fl]|].
    + destruct (Hp (node_id, fl) eq_refl) as (l0 & seg & Hfl & Hn). cbn [fst snd] in *.
      subst fl. destruct (endswith _ _).
      * constructor; [by exists l0, (seg ++ [l])|]. apply IH. by intros p [=].
      * apply IH. intros p [= <-]. by exists l0, (seg ++ [l]).
    + destruct (Re.node_match (strip l)) as [node_id|] eqn:Hn;
        [|apply IH; by intros p [=]].
      destruct (wanted node_id); [|apply IH; by intros p [=]].
      destruct (endswith _ _).
      * constructor; [by exists l, []|]. apply IH. by intros p [=].
      * apply IH. intros p [= <-]. by exists l, [].
Qed.

Lemma lookup_insert_fold {W} (f : W -> string) (ds : list (string * W)) (k v : string) :
  fold_left (fun (m : gmap string string) '(k, w) => <[k := f w]> m) ds ∅ !! k = Some v ->
  ∃ w, (k, w) ∈ ds ∧ v = f w.
Proof.
  induction ds as [|[k0 w] ds IH] using rev_ind; [done|].
  rewrite fold_left_app. cbn [fold_left]. rewrite lookup_insert.
  destruct (decide (k0 = k)) as [->|Hne].
  - intros [= <-]. exists w. split; [|done]. apply elem_of_app. right. by left.
  - intros (w' & Hin & ->)%IH. exists w'. split; [|done]. apply elem_of_app. by left.
Qed.

(** A declaration the filter keeps: its text is the lines of one
    declaration of the input, the first of which opens it. *)
Lemma kept_declaration_lines (dot_content : string) (node_ids : gset string)
    (node_id d : string) :
  UdfFilter.extract_nodes_simple dot_content node_ids !! node_id = Some d ->
  ∃ l seg, lines d = l :: seg ∧ Re.node_match (strip l) = Some node_id.
Proof.
  unfold UdfFilter.extract_nodes_simple.
  intros (fl & Hin & ->)%(lookup_insert_fold (join (String nl EmptyString))).
  pose proof (scan_decls_headed (fun x => bool_decide (x ∈ node_ids))
                (lines dot_content) None ltac:(by intros p [=])) as Hh.
  pose proof (layout_infix _ _
                (scan_decls_layout (fun x => bool_decide (x ∈ node_ids))
                   (lines dot_content))) as Hl.
  rewrite Forall_forall in Hh, Hl.
  destruct (Hh _ Hin) as (l & seg & Hfl & Hn).
  destruct (Hl _ Hin) as (before & after & Hls). cbn [fst snd] in *. subst fl.
  exists l, seg. split; [|done]. apply lines_unlines; [done|].
  apply Forall_forall. intros x Hx. apply (lines_are_one_line dot_content).
  rewrite Hls. apply elem_of_app. right. apply elem_of_app. by left.
Qed.

(** X11.  The verifier reads back from the written file the edges the
    filter kept, in the same order and with the same source, target and
    type, the text of each stripped: provided the graph name holds no line
    feed and no continuation line of a kept declaration has the shape of an
    edge. *)
Theorem kept_edges_read_back (fuel : nat) (dot_content original_name : string)
    (node_definitions : gmap string string) (kept_edges : list edge_info) :
  UdfFilter.filter_udf_subgraph fuel dot_content
  = Some (node_definitions, kept_edges) ->
  Vocab.one_line original_name ->
  (∀ node_id d l, node_definitions !! node_id = Some d ->
                  l ∈ tail (lines d) -> Re.edge_match (strip l) = None) ->
  UdfVerifier.parse_edges
    (UdfFilter.write_dot_file node_definitions kept_edges original_name)
  = map (fun e => EdgeInfo (source e) (target e) (edge_type e) (strip (line e)))
      kept_edges.
Proof.
  unfold UdfFilter.filter_udf_subgraph.
  set (st := UdfFilter.extract_edges_simple dot_content) in *.
  destruct (Bfs.collect_reachable _ _ _ _) as [S|]; [|done].
  cbn [mbind option_bind]. intros [= <- <-] Hname Hcont.
  apply written_edges_read_back; [done| |].
  - intros node_id d l Hd Hl.
    destruct (kept_declaration_lines _ _ _ _ Hd) as (l0 & seg & Hlines & Hn).
    rewrite lines_indent, Hlines in Hl.
    apply elem_of_cons in Hl as [->|Hl].
    + rewrite strip_indent. by apply (node_line_no_edge _ node_id).
    + apply (Hcont node_id d l Hd). by rewrite Hlines.
  - destruct (filter_edges_spec dot_content) as (HR & Hcfg & Hcall & _).
    fold st in HR, Hcfg, Hcall. apply Forall_forall. intros e.
    rewrite Hcfg, Hcall, retain_edges_perm, list_elem_of_filter.
    intros [_ (l & Hl & Hm & Hline)%recognised_elem].
    rewrite Hline. split; [by apply (lines_are_one_line dot_content)|done].
Qed.

Lemma continuation_check (node_definitions : gmap string string) :
  bool_decide
    (map_Forall (fun (_ : string) d =>
                   Forall (fun l => Re.edge_match (strip l) = None) (tail (lines d)))
       node_definitions) = true ->
  ∀ node_id d l, node_definitions !! node_id = Some d ->
                 l ∈ tail (lines d) -> Re.edge_match (strip l) = None.
Proof.
  intros H%bool_decide_eq_true node_id d l Hd Hl.
  apply (H node_id d) in Hd. rewrite Forall_forall in Hd. by apply Hd.
Defined.

Lemma kept_edges_read_back_witness :
  match UdfFilter.filter_udf_subgraph 10 Samples.two_lines with
  | Some (node_definitions, kept_edges) =>
      UdfVerifier.parse_edges
        (UdfFilter.write_dot_file node_definitions kept_edges "g")
      = map (fun e => EdgeInfo (source e) (target e) (edge_type e) (strip (line e)))
          kept_edges
  | None => False
  end.
Proof.
  destruct (UdfFilter.filter_udf_subgraph 10 Samples.two_lines)
    as [[node_definitions kept_edges]|] eqn:E; [|by vm_compute in E].
  apply (kept_edges_read_back 10 Samples.two_lines "g" node_definitions kept_edges E).
  - reflexivity.
  - apply continuation_check. vm_compute in E. injection E as <- _.
    vm_compute. reflexivity.
Defined.

End RoundTrip.

(** ** Attributes and the margins of a declaration *)

Section AttributeMargins.
Import Py.

Lemma lstrip_spec (s : string) :
  ∃ w, s = String.append w (lstrip s) ∧ Spec.all_chars isspace w = true.
Proof.
  induction s as [|c s (w & Hs & Hw)]; [by exists EmptyString|].
  cbn [lstrip]. destruct (isspace c) eqn:Hc.
  - exists (String c w). rewrite app_cons_s, <- Hs. split; [done|].
    cbn [Spec.all_chars]. by rewrite Hc, Hw.
  - by exists EmptyString.
Qed.

Lemma rstrip_spec (s : string) :
  ∃ w, s = String.append (rstrip s) w ∧ Spec.all_chars isspace w = true.
Proof.
  induction s as [|c s (w & Hs & Hw)]; [by exists EmptyString|].
  rewrite rstrip_cons. destruct (rstrip s) as [|d r] eqn:Hr.
  - rewrite app_nil_l_s in Hs. subst w. destruct (isspace c) eqn:Hc.
    + exists (String c s). split; [done|]. cbn [Spec.all_chars]. by rewrite Hc, Hw.
    + exists s. by rewrite !app_cons_s, app_nil_l_s.
  - exists w. rewrite app_cons_s, <- Hs. done.
Qed.

Lemma space_not_quote (w : string) :
  Spec.all_chars isspace w = true -> Spec.all_chars Re.notquote w = true.
Proof.
  induction w as [|c w IH]; [done|]. cbn [Spec.all_chars].
  intros [Hc Hw]%andb_true_iff. rewrite (IH Hw), andb_true_r.
  unfold Re.notquote. apply negb_true_iff, Ascii.eqb_neq. by intros ->.
Qed.

Lemma prefix_nil (s : string) : String.prefix EmptyString s = true.
Proof. by destruct s. Qed.

(** A literal that ends with a double quote does not reach into a run of
    whitespace. *)
Lemma prefix_app_space (q a w : string) :
  Spec.all_chars isspace w = true ->
  String.prefix (String.append q (String dquote EmptyString)) (String.append a w)
  = String.prefix (String.append q (String dquote EmptyString)) a.
Proof.
  intros Hw. revert a w Hw. induction q as [|c q IH]; intros a w Hw.
  - rewrite app_nil_l_s. destruct a as [|d a].
    + rewrite app_nil_l_s. destruct w as [|d w]; [done|]. cbn [String.prefix].
      destruct (ascii_dec dquote d) as [<-|]; [|done].
      cbn [Spec.all_chars] in Hw. done.
    + rewrite app_cons_s. cbn [String.prefix].
      destruct (ascii_dec dquote d); [|done]. by rewrite !prefix_nil.
  - rewrite app_cons_s. destruct a as [|d a].
    + rewrite app_nil_l_s. destruct w as [|d w]; [done|]. cbn [String.prefix].
      destruct (ascii_dec c d); [|done].
      cbn [Spec.all_chars] in Hw. apply andb_true_iff in Hw as [_ Hw].
      rewrite <- (app_nil_l_s w), (IH EmptyString w Hw).
      by destruct q.
    + rewrite app_cons_s. cbn [String.prefix].
      destruct (ascii_dec c d); [|done]. by apply IH.
Qed.

Lemma attr_pattern (key : string) :
  String.append key (String "="%char (String dquote EmptyString))
  = String.append (String.append key "=") (String dquote EmptyString).
Proof. by rewrite app_assoc_s. Qed.

Lemma attr_here_app_space (key a w : string) :
  Spec.all_chars isspace w = true ->
  Re.attr_here key (String.append a w) = Re.attr_here key a.
Proof.
  intros Hw. unfold Re.attr_here, Re.literal.
  rewrite attr_pattern, (prefix_app_space _ a w Hw).
  set (pat := String.append (String.append key "=") (String dquote EmptyString)).
  destruct (String.prefix pat a) eqn:Hp; [|done].
  apply prefix_iff in Hp as [r ->].
  rewrite (app_assoc_s pat r w), !drop_app_length.
  cbn [mbind option_bind].
  destruct (span Re.notquote r) as [v b] eqn:Hs.
  apply span_spec in Hs as (Hr & Hv & Hb). subst r.
  destruct b as [|c' b].
  - rewrite app_nil_r_s.
    assert (Spec.all_chars Re.notquote (String.append v w) = true) as Hvw.
    { clear -Hv Hw. induction v as [|c v IH]; [by apply space_not_quote|].
      rewrite app_cons_s. cbn [Spec.all_chars] in *.
      apply andb_true_iff in Hv as [-> Hv]. by apply IH. }
    pose proof (span_app Re.notquote (String.append v w) EmptyString Hvw I) as E1.
    rewrite app_nil_r_s in E1. by rewrite E1.
  - rewrite app_assoc_s, app_cons_s.
    by rewrite (span_app Re.notquote v (String c' (String.append b w))).
Qed.

Lemma attr_here_nil (key : string) : Re.attr_here key EmptyString = None.
Proof. unfold Re.attr_here, Re.literal. by destruct key. Qed.

Lemma attr_search_unfold (key s : string) :
  Re.attr_search key s
  = match Re.attr_here key s with
    | Some v => Some v
    | None =>
        match s with
        | EmptyString => None
        | String _ s' => Re.attr_search key s'
        end
    end.
Proof. by destruct s. Qed.

Lemma attr_search_space (key w : string) :
  Spec.all_chars isspace w = true -> Re.attr_search key w = None.
Proof.
  induction w as [|c w IH]; intros Hw; rewrite attr_search_unfold.
  - by rewrite attr_here_nil.
  - assert (Re.attr_here key (String c w) = None) as ->.
    { pose proof (attr_here_app_space key EmptyString (String c w) Hw) as E.
      rewrite app_nil_l_s in E. by rewrite E, attr_here_nil. }
    apply IH. cbn [Spec.all_chars] in Hw. by apply andb_true_iff in Hw as [_ ?].
Qed.

(** Whitespace after the text changes no attribute. *)
Lemma attr_search_app_space (key a w : string) :
  Spec.all_chars isspace w = true ->
  Re.attr_search key (String.append a w) = Re.attr_search key a.
Proof.
  intros Hw. induction a as [|c a IH].
  - rewrite app_nil_l_s, attr_search_space by done.
    by rewrite attr_search_unfold, attr_here_nil.
  - rewrite attr_search_unfold, (attr_search_unfold key (String c a)).
    rewrite attr_here_app_space by done. rewrite app_cons_s.
    destruct (Re.attr_here key (String c a)); [done|]. exact IH.
Qed.

(** Whitespace before the text changes no attribute whose key does not
    start with a whitespace character. *)
Lemma attr_search_space_app (key a w : string) :
  match key with
  | String k _ => isspace k = false
  | EmptyString => True
  end ->
  Spec.all_chars isspace w = true ->
  Re.attr_search key (String.append w a) = Re.attr_search key a.
Proof.
  intros Hkey Hw. induction w as [|c w IH]; [done|].
  cbn [Spec.all_chars] in Hw. apply andb_true_iff in Hw as [Hc Hw].
  rewrite app_cons_s, attr_search_unfold.
  assert (Re.attr_here key (String c (String.append w a)) = None) as ->; [|by apply IH].
  unfold Re.attr_here, Re.literal.
  assert (String.prefix (String.append key (String "="%char (String dquote EmptyString)))
            (String c (String.append w a)) = false) as ->; [|done].
  destruct key as [|k key]; rewrite ?app_nil_l_s, ?app_cons_s; cbn [String.prefix].
  - destruct (ascii_dec "="%char c) as [<-|]; [done|done].
  - destruct (ascii_dec k c) as [<-|]; [congruence|done].
Qed.

Lemma attr_search_strip (key s : string) :
  match key with
  | String k _ => isspace k = false
  | EmptyString => True
  end ->
  Re.attr_search key (strip s) = Re.attr_search key s.
Proof.
  intros Hkey. unfold strip.
  destruct (rstrip_spec s) as (w2 & Hs & Hw2).
  destruct (lstrip_spec (rstrip s)) as (w1 & Hr & Hw1).
  rewrite Hs at 2. rewrite attr_search_app_space by done.
  rewrite Hr at 2. by rewrite attr_search_space_app.
Qed.

Lemma attr_search_indent (key s : string) :
  match key with
  | String k _ => isspace k = false
  | EmptyString => True
  end ->
  Re.attr_search key (String.append "  " s) = Re.attr_search key s.
Proof. intros Hkey. by apply attr_search_space_app. Qed.

Lemma attributes_margins (l : string) :
  UdfFilter.minimal_attrs (strip l) = UdfVerifier.extract_node_attributes l.
Proof.
  unfold UdfFilter.minimal_attrs, UdfVerifier.extract_node_attributes.
  cbn [fold_left]. by rewrite !attr_search_strip.
Qed.

Lemma attributes_indent (l : string) :
  UdfVerifier.extract_node_attributes (String.append "  " l)
  = UdfVerifier.extract_node_attributes l.
Proof.
  unfold UdfVerifier.extract_node_attributes.
  cbn [fold_left]. by rewrite !attr_search_indent.
Qed.

(** X10.  The filter reads the attributes of a one-line declaration from the
    stripped line, the verifier from the line as it stands, and from the
    indented line in the filtered file: the three attribute dictionaries are
    the same. *)
Theorem attributes_ignore_margins (l : string) :
  UdfFilter.minimal_attrs (strip l) = UdfVerifier.extract_node_attributes l
  ∧ UdfVerifier.extract_node_attributes (String.append "  " l)
    = UdfVerifier.extract_node_attributes l
  ∧ UdfVerifier.extract_node_attributes (strip l)
    = UdfVerifier.extract_node_attributes l.
Proof.
  unfold UdfFilter.minimal_attrs, UdfVerifier.extract_node_attributes.
  cbn [fold_left].
  rewrite !attr_search_strip, !attr_search_indent by done. done.
Qed.

End AttributeMargins.

(** ** Graphs with one-line declarations *)

Section OneLine.
Import Py.

Lemma omap_cons {A B} (f : A -> option B) (x : A) (l : list A) :
  omap f (x :: l) = match f x with Some y => y :: omap f l | None => omap f l end.
Proof. reflexivity. Qed.

Lemma scan_decls_skip (wanted : string -> bool) (ls rest : list string) :
  Forall (fun l => Re.node_match (strip l) = None) ls ->
  Scan.scan_decls wanted None (ls ++ rest) = Scan.scan_decls wanted None rest.
Proof.
  induction 1 as [|l ls Hn _ IH]; [done|].
  cbn [app Scan.scan_decls]. by rewrite Hn.
Qed.

(** With one-line declarations the scanner is a filter over the lines. *)
Lemma scan_one_line (wanted : string -> bool) (ls : list string) :
  (∀ l, l ∈ ls -> is_Some (Re.node_match (strip l)) ->
        endswith Scan.end_mark (strip l) = true) ->
  Scan.scan_decls wanted None ls
  = map (fun p => (p.1, [p.2]))
      (filter (fun p => wanted p.1 = true) (omap Vocab.decl_line ls)).
Proof.
  induction ls as [|l ls IH]; intros H; [done|].
  cbn [Scan.scan_decls]. rewrite omap_cons. unfold Vocab.decl_line at 1.
  rewrite IH by (intros l' Hl'; apply H; by right).
  destruct (Re.node_match (strip l)) as [node_id|] eqn:Hn; cbn [mbind option_bind]; [|done].
  rewrite filter_cons. cbn [fst].
  destruct (wanted node_id) eqn:Hw.
  - rewrite decide_True by done. rewrite H; [done|by left|by rewrite Hn].
  - rewrite decide_False by done. done.
Qed.

(** A run of one-line declarations in a written file. *)
Lemma scan_decl_lines {X} (f : X -> string) (g : X -> string) (xs : list X)
    (rest : list string) :
  (∀ x, x ∈ xs -> Re.node_match (strip (f x)) = Some (g x)
                  ∧ endswith Scan.end_mark (strip (f x)) = true) ->
  Scan.scan_decls (fun _ => true) None (map f xs ++ rest)
  = map (fun x => (g x, [f x])) xs ++ Scan.scan_decls (fun _ => true) None rest.
Proof.
  induction xs as [|x xs IH]; intros H; [done|].
  cbn [map app Scan.scan_decls].
  destruct (H x ltac:(by left)) as [-> ->].
  rewrite IH by (intros x' Hx'; apply H; by right). done.
Qed.

Lemma lookup_fold_insert {V W} (f : W -> V) (ds : list (string * W)) (k : string) :
  fold_left (fun (m : gmap string V) '(k, w) => <[k := f w]> m) ds ∅ !! k
  = f <$> odict_get k (reverse ds).
Proof.
  induction ds as [|[k0 w] ds IH] using rev_ind; [done|].
  rewrite fold_left_app, reverse_app. cbn [fold_left].
  change (reverse [(k0, w)]) with [(k0, w)]. cbn [app odict_get].
  rewrite lookup_insert. destruct (decide (k0 = k)) as [->|Hne].
  - by rewrite String.eqb_refl.
  - assert (String.eqb k k0 = false) as -> by (apply eqb_false_iff; congruence).
    exact IH.
Qed.

Lemma odict_get_filter {V} (wanted : string -> bool) (l : list (string * V))
    (k : string) :
  odict_get k (filter (fun p => wanted p.1 = true) l)
  = if wanted k then odict_get k l else None.
Proof.
  induction l as [|[k0 v0] l IH].
  - by destruct (wanted k).
  - rewrite filter_cons. cbn [fst odict_get].
    destruct (String.eqb k k0) eqn:Hk.
    + apply eqb_true_iff in Hk as ->.
      destruct (wanted k0) eqn:Hw.
      * rewrite decide_True by done. cbn [odict_get]. by rewrite String.eqb_refl.
      * rewrite decide_False by done. by rewrite IH.
    + destruct (decide (wanted k0 = true)); [|done].
      cbn [odict_get]. by rewrite Hk.
Qed.

Lemma odict_get_map {V W} (g : V -> W) (l : list (string * V)) (k : string) :
  odict_get k (map (fun p => (p.1, g p.2)) l) = g <$> odict_get k l.
Proof.
  induction l as [|[k0 v0] l IH]; [done|]. cbn [map odict_get fst snd].
  by destruct (String.eqb k k0).
Qed.

Lemma reverse_map {A B} (f : A -> B) (l : list A) :
  reverse (map f l) = map f (reverse l).
Proof. symmetry. apply (fmap_reverse f l). Qed.

Lemma filter_all {A} (P : A -> Prop) `{!∀ x, Decision (P x)} (l : list A) :
  (∀ x, P x) -> filter P l = l.
Proof.
  intros HP. induction l as [|x l IH]; [done|].
  by rewrite filter_cons, decide_True, IH.
Qed.

Lemma last_decl_elem (dot_content node_id l : string) :
  Vocab.last_decl dot_content node_id = Some l ->
  l ∈ lines dot_content ∧ Re.node_match (strip l) = Some node_id.
Proof.
  unfold Vocab.last_decl. intros H%odict_get_elem.
  apply elem_of_reverse, list_elem_of_omap in H as (l' & Hl' & Hd).
  unfold Vocab.decl_line in Hd.
  destruct (Re.node_match (strip l')) as [x|] eqn:Hn; [|done].
  cbn in Hd. injection Hd as -> ->. done.
Qed.

Lemma last_decl_declared (dot_content node_id : string) :
  Vocab.declared dot_content node_id
  <-> is_Some (Vocab.last_decl dot_content node_id).
Proof.
  split.
  - intros (l & Hl & Hn). unfold Vocab.last_decl.
    destruct (odict_get node_id _) as [l'|] eqn:Hg; [by eexists|].
    apply odict_get_None in Hg. exfalso. apply Hg.
    apply list_elem_of_fmap. exists (node_id, l). split; [done|].
    apply elem_of_reverse, list_elem_of_omap. exists l. split; [done|].
    unfold Vocab.decl_line. by rewrite Hn.
  - intros [l Hl]. apply last_decl_elem in Hl as [? ?]. by exists l.
Qed.

(** The declarations the filter keeps. *)
Lemma filter_definitions (dot_content : string) (node_ids : gset string)
    (node_id : string) :
  Vocab.one_line_declarations dot_content ->
  UdfFilter.extract_nodes_simple dot_content node_ids !! node_id
  = if bool_decide (node_id ∈ node_ids)
    then Vocab.last_decl dot_content node_id else None.
Proof.
  intros H1. unfold UdfFilter.extract_nodes_simple.
  rewrite (scan_one_line _ _ H1).
  rewrite (lookup_fold_insert (join (String nl EmptyString))).
  rewrite reverse_map, <- filter_reverse.
  rewrite (odict_get_map (fun l => [l])).
  pose proof (odict_get_filter (fun x => bool_decide (x ∈ node_ids))
                (reverse (omap Vocab.decl_line (lines dot_content))) node_id) as E.
  cbn beta in E. rewrite E. clear E.
  destruct (bool_decide (node_id ∈ node_ids)); [|done].
  unfold Vocab.last_decl. by destruct (odict_get node_id _).
Qed.

(** The attributes the filter classifies by. *)
Lemma minimal_info_one_line (dot_content node_id : string) :
  Vocab.one_line_declarations dot_content ->
  UdfFilter.extract_node_minimal_info dot_content !! node_id
  = (fun l => UdfVerifier.extract_node_attributes l)
      <$> Vocab.last_decl dot_content node_id.
Proof.
  intros H1. unfold UdfFilter.extract_node_minimal_info.
  rewrite (scan_one_line _ _ H1).
  rewrite (lookup_fold_insert
             (fun full_lines : list string =>
                UdfFilter.minimal_attrs
                  match full_lines with
                  | [] => EmptyString
                  | l :: more => join (String nl EmptyString) (strip l :: more)
                  end)).
  rewrite reverse_map, <- filter_reverse.
  rewrite (odict_get_map (fun l => [l])).
  rewrite filter_all by done.
  unfold Vocab.last_decl. destruct (odict_get node_id _) as [l|]; [|done].
  cbn. f_equal. apply attributes_margins.
Qed.

(** The table the verifier parses from the original. *)
Lemma parse_nodes_one_line (dot_content node_id : string) :
  Vocab.one_line_declarations dot_content ->
  odict_get node_id (UdfVerifier.parse_nodes dot_content)
  = (fun l => UdfVerifier.NodeData (UdfVerifier.extract_node_attributes l) (strip l))
      <$> Vocab.last_decl dot_content node_id.
Proof.
  intros H1.
  destruct (odict_fold
              (fun full_definition_lines =>
                 UdfVerifier.NodeData
                   (UdfVerifier.extract_node_attributes
                      (join (String nl EmptyString) full_definition_lines))
                   (strip (join (String nl EmptyString) full_definition_lines)))
              (Scan.scan_decls (fun _ => true) None (lines dot_content)))
    as [_ Hv].
  change (odict_get node_id (UdfVerifier.parse_nodes dot_content))
    with (odict_get node_id
            (fold_left
               (fun nodes '(k, w) =>
                  odict_set k
                    (UdfVerifier.NodeData
                       (UdfVerifier.extract_node_attributes
                          (join (String nl EmptyString) w))
                       (strip (join (String nl EmptyString) w))) nodes)
               (Scan.scan_decls (fun _ => true) None (lines dot_content)) [])).
  rewrite Hv, (scan_one_line _ _ H1), reverse_map, <- filter_reverse.
  rewrite (odict_get_map (fun l => [l])), filter_all by done.
  unfold Vocab.last_decl. by destruct (odict_get node_id _).
Qed.

Lemma parse_nodes_NoDup (dot_content : string) :
  NoDup (map fst (UdfVerifier.parse_nodes dot_content)).
Proof.
  destruct (odict_fold
              (fun full_definition_lines =>
                 UdfVerifier.NodeData
                   (UdfVerifier.extract_node_attributes
                      (join (String nl EmptyString) full_definition_lines))
                   (strip (join (String nl EmptyString) full_definition_lines)))
              (Scan.scan_decls (fun _ => true) None (lines dot_content)))
    as [Hk _].
  change (UdfVerifier.parse_nodes dot_content)
    with (fold_left
            (fun nodes '(k, w) =>
               odict_set k
                 (UdfVerifier.NodeData
                    (UdfVerifier.extract_node_attributes
                       (join (String nl EmptyString) w))
                    (strip (join (String nl EmptyString) w))) nodes)
            (Scan.scan_decls (fun _ => true) None (lines dot_content)) []).
  rewrite Hk, reverse_Permutation. apply NoDup_remove_dups.
Qed.

End OneLine.

(** ** The verifier on what the filter writes *)

Section FilterThenVerify.
Import Py.

(** The filter and the verifier start from the same UDF methods. *)
Lemma seeds_agree (dot_content : string) :
  Vocab.one_line_declarations dot_content ->
  UdfFilter.udf_methods (UdfFilter.extract_node_minimal_info dot_content)
  = UdfVerifier.udf_ids (UdfVerifier.parse_nodes dot_content).
Proof.
  intros H1. apply set_eq. intros x.
  rewrite elem_of_udf_methods, elem_of_udf_ids. split.
  - intros (attrs & Hl & Hm & Hu).
    rewrite (minimal_info_one_line _ _ H1) in Hl.
    destruct (Vocab.last_decl dot_content x) as [l|] eqn:Hd; [|done].
    cbn in Hl. injection Hl as <-.
    exists (UdfVerifier.NodeData (UdfVerifier.extract_node_attributes l) (strip l)).
    split; [|by rewrite classifier_copies_agree].
    apply odict_get_elem. by rewrite (parse_nodes_one_line _ _ H1), Hd.
  - intros (d & Hin & Hm & Hu).
    apply (odict_get_unique _ _ _ (parse_nodes_NoDup dot_content)) in Hin.
    rewrite (parse_nodes_one_line _ _ H1) in Hin.
    destruct (Vocab.last_decl dot_content x) as [l|] eqn:Hd; [|done].
    cbn in Hin. injection Hin as <-.
    exists (UdfVerifier.extract_node_attributes l).
    split; [by rewrite (minimal_info_one_line _ _ H1), Hd|].
    by rewrite <- classifier_copies_agree.
Qed.

Lemma adjacency_recognised (raw : string -> string) (ls : list string)
    (adj : gmap string (list string)) :
  fold_left (fun adj e => adj_append adj (source e) (target e))
    (filter (fun e => edge_type e = "CFG") (Spec.recognised raw ls)) adj
  = fold_left (fun adj e => adj_append adj (source e) (target e))
      (filter Spec.is_cfg (Spec.recognised id ls)) adj.
Proof.
  revert adj. induction ls as [|l ls IH]; intros adj; [done|].
  rewrite !recognised_cons. unfold Spec.recognise.
  destruct (Re.edge_match (strip l)) as [[[src tgt] ty]|]; [|apply IH].
  rewrite !filter_cons. unfold Spec.is_cfg at 1. cbn [edge_type].
  destruct (decide (ty = "CFG")); [|apply IH].
  cbn [fold_left source target]. apply IH.
Qed.

(** The filter and the verifier search the same adjacency. *)
Lemma adjacency_agree (dot_content : string) :
  UdfVerifier.cfg_adjacency (UdfVerifier.parse_edges dot_content)
  = UdfFilter.cfg_adjacency (UdfFilter.extract_edges_simple dot_content).
Proof.
  destruct (filter_edges_spec dot_content) as (_ & _ & _ & ->).
  unfold UdfVerifier.cfg_adjacency. rewrite udf_parse_edges_spec.
  apply adjacency_recognised.
Qed.

Lemma odict_set_fresh {V} (k : string) (v : V) (d : list (string * V)) :
  k ∉ map fst d -> odict_set k v d = d ++ [(k, v)].
Proof.
  induction d as [|[k0 v0] d IH]; [done|]. cbn [map fst odict_set app].
  intros [Hne Hk]%not_elem_of_cons.
  assert (String.eqb k k0 = false) as -> by (by apply eqb_false_iff).
  by rewrite IH.
Qed.

Lemma odict_fold_fresh {V W} (g : W -> V) (ds : list (string * W)) :
  NoDup (map fst ds) ->
  fold_left (fun nodes '(k, w) => odict_set k (g w) nodes) ds []
  = map (fun p => (p.1, g p.2)) ds.
Proof.
  induction ds as [|[k w] ds IH] using rev_ind; [done|].
  rewrite map_app. intros [Hnd [Hk _]]%NoDup_app.
  rewrite fold_left_app, map_app. cbn [fold_left map fst snd].
  rewrite (IH Hnd), odict_set_fresh; [done|].
  rewrite map_map. cbn [fst]. intros Hin. apply (Hk k Hin). by left.
Qed.

Lemma concat_map_lines {X} (f : X -> string) (xs : list X) :
  (∀ x, x ∈ xs -> Vocab.one_line (f x)) ->
  concat (map (fun x => lines (f x)) xs) = map f xs.
Proof.
  induction xs as [|x xs IH]; intros H; [done|].
  cbn [map concat]. rewrite (lines_one_line (f x)) by (apply H; by left).
  rewrite IH by (intros x' Hx'; apply H; by right). done.
Qed.

(** The node table the verifier parses from the file written for a graph
    with one-line declarations. *)
Lemma written_table (dot_content original_name : string) (kept_nodes : gset string)
    (edges : list edge_info) :
  Vocab.one_line_declarations dot_content ->
  Vocab.one_line original_name ->
  Forall (fun e => Vocab.one_line (line e)
                   ∧ Re.edge_match (strip (line e)) = Some (Spec.signature e)) edges ->
  let node_definitions := UdfFilter.extract_nodes_simple dot_content kept_nodes in
  UdfVerifier.parse_nodes
    (UdfFilter.write_dot_file node_definitions edges original_name)
  = map (fun node_id =>
           let d := String.append "  " (dict_get node_definitions node_id "") in
           (node_id,
            UdfVerifier.NodeData (UdfVerifier.extract_node_attributes d) (strip d)))
      (UdfFilter.sorted_keys node_definitions).
Proof.
  intros H1 Hname Hedges node_definitions.
  assert (∀ node_id, node_id ∈ UdfFilter.sorted_keys node_definitions ->
            ∃ l, dict_get node_definitions node_id "" = l
                 ∧ l ∈ lines dot_content
                 ∧ Re.node_match (strip l) = Some node_id) as Hkeys.
  { intros node_id [d Hd]%sorted_keys_spec. exists d. unfold dict_get. rewrite Hd.
    split; [done|]. unfold node_definitions in Hd.
    rewrite (filter_definitions _ _ _ H1) in Hd.
    destruct (bool_decide _); [|done]. by apply last_decl_elem. }
  unfold UdfVerifier.parse_nodes.
  rewrite write_dot_file_lines; [|done|].
  2:{ eapply Forall_impl; [exact Hedges|]. by intros e [? _]. }
  rewrite (concat_map_lines
             (fun node_id => String.append "  " (dict_get node_definitions node_id ""))).
  2:{ intros node_id (l & -> & Hl & _)%Hkeys. apply one_line_app.
      split; [done|]. by apply (lines_are_one_line dot_content). }
  rewrite (scan_decls_skip _ [_; _; _; _; _; _]).
  2:{ apply Forall_cons. split; [by apply (inert_head "d")|].
      apply Forall_cons. split; [by vm_compute|].
      apply Forall_cons. split; [by vm_compute|].
      apply Forall_cons. split; [by apply (inert_indent (String "/" _)), inert_head|].
      apply Forall_cons. split; [by vm_compute|].
      apply Forall_cons. split; [by vm_compute|]. constructor. }
  rewrite (scan_decl_lines _ (fun node_id => node_id)).
  2:{ intros node_id (l & -> & Hl & Hn)%Hkeys. rewrite strip_indent.
      split; [done|]. apply H1; [done|]. by rewrite Hn. }
  rewrite <- (app_nil_r (_ ++ _ ++ [ "}"; _])), scan_decls_skip.
  2:{ apply Forall_app. split.
      - apply Forall_cons. split; [by vm_compute|].
        apply Forall_cons. split; [by vm_compute|]. constructor.
      - apply Forall_app. split.
        + apply Forall_fmap. eapply Forall_impl; [exact Hedges|].
          intros e [_ He]. cbn beta. unfold compose. rewrite strip_indent.
          by apply (edge_line_no_node _ (Spec.signature e)).
        + apply Forall_cons. split; [by vm_compute|].
          apply Forall_cons. split; [by vm_compute|]. constructor. }
  cbn [Scan.scan_decls]. rewrite app_nil_r.
  rewrite (odict_fold_fresh
             (fun full_definition_lines =>
                UdfVerifier.NodeData
                  (UdfVerifier.extract_node_attributes
                     (join (String nl EmptyString) full_definition_lines))
                  (strip (join (String nl EmptyString) full_definition_lines)))).
  - by rewrite map_map.
  - rewrite map_map. cbn [fst]. rewrite map_id. apply sorted_keys_spec.
Qed.

Lemma reach_declared (dot_content : string) (s x : string) :
  Vocab.edges_join_declared dot_content ->
  rtc (Vocab.cfg_step (Spec.recognised id (lines dot_content))) s x ->
  Vocab.declared dot_content s -> Vocab.declared dot_content x.
Proof.
  intros H2 Hr. induction Hr as [x|x y z (e & He & _ & _ & Ht) _ IH]; [done|].
  intros _. apply IH. rewrite <- Ht. by apply (H2 e He).
Qed.

(** X12.  On a graph whose node declarations each sit on one line and whose
    edges join declared nodes, the verifier run on the original and on the
    file the filter writes finds nothing wrong with reachability, edges and
    node texts; its first check passes exactly when no kept METHOD node is
    an external method. *)
Theorem verifier_accepts_filter_output (set_repr : gset string -> string)
    (fuel : nat) (dot_content original_name : string) :
  Vocab.one_line_declarations dot_content ->
  Vocab.edges_join_declared dot_content ->
  Vocab.one_line original_name ->
  Spec.bfs_bound (UdfFilter.cfg_adjacency (UdfFilter.extract_edges_simple dot_content))
  ≤ fuel ->
  ∃ node_definitions kept_edges c,
    UdfFilter.filter_udf_subgraph fuel dot_content
    = Some (node_definitions, kept_edges)
    ∧ UdfVerifier.run_verification set_repr fuel dot_content
        (UdfFilter.write_dot_file node_definitions kept_edges original_name)
      = Some [ ("udf_identification", c);
               ("cfg_reachability", UdfVerifier.Verdict true []);
               ("edge_filtering", UdfVerifier.Verdict true []);
               ("node_integrity", UdfVerifier.Verdict true []) ]
    ∧ (UdfVerifier.passed c = true
       <-> ∀ x, x ∈ dom node_definitions ->
                x ∈ UdfVerifier.method_ids (UdfVerifier.parse_nodes dot_content) ->
                x ∈ UdfVerifier.udf_ids (UdfVerifier.parse_nodes dot_content))
    ∧ (UdfVerifier.passed c = true -> UdfVerifier.issues c = []).
Proof.
  intros H1 H2 Hname Hle.
  set (st := UdfFilter.extract_edges_simple dot_content) in *.
  set (U := UdfFilter.udf_methods (UdfFilter.extract_node_minimal_info dot_content)).
  set (O := UdfVerifier.parse_nodes dot_content).
  assert (U = UdfVerifier.udf_ids O) as HU by apply (seeds_agree _ H1).
  destruct (collect_reachable_returns (UdfFilter.cfg_adjacency st) fuel
              (elements U) Hle) as [S HS].
  set (defs := UdfFilter.extract_nodes_simple dot_content S).
  set (kept := UdfFilter.retain_edges (UdfFilter.cfg_edges st)
                 (UdfFilter.call_edges st) S U).
  set (file := UdfFilter.write_dot_file defs kept original_name).
  set (F := UdfVerifier.parse_nodes file).
  exists defs, kept, (UdfVerifier.verify_udf_identification set_repr O F).
  (* the filter *)
  split.
  { unfold UdfFilter.filter_udf_subgraph. fold st. fold U. by rewrite HS. }
  (* the kept edges *)
  destruct (filter_edges_spec dot_content) as (HR & Hcfg & Hcall & _).
  fold st in HR, Hcfg, Hcall.
  assert (∀ e, e ∈ kept ->
               Spec.retained S U e
               ∧ Vocab.one_line (line e)
               ∧ Re.edge_match (strip (line e)) = Some (Spec.signature e)) as Hkept.
  { intros e. unfold kept.
    rewrite Hcfg, Hcall, retain_edges_perm, list_elem_of_filter.
    intros [Hret (l & Hl & Hm & Hline)%recognised_elem]. split; [done|].
    rewrite Hline. split; [by apply (lines_are_one_line dot_content)|done]. }
  (* the slice *)
  pose proof HS as Hres.
  apply collect_reachable_result in Hres as (Hseed & Hcl & _ & Hreach).
  assert (∀ x, x ∈ S -> Vocab.declared dot_content x) as Hdecl.
  { intros x (s & Hs & Hr)%Hreach.
    apply (reach_declared dot_content s x H2).
    - eapply rtc_subrel; [|exact Hr]. intros a b Hab.
      apply (filter_adjacency_edges dot_content a b) in Hab. fold st in Hab.
      by rewrite HR in Hab.
    - apply elem_of_elements, elem_of_udf_methods in Hs as (attrs & Hl & _).
      rewrite (minimal_info_one_line _ _ H1) in Hl. apply last_decl_declared.
      by destruct (Vocab.last_decl dot_content s). }
  assert (∀ x, defs !! x = if bool_decide (x ∈ S)
                           then Vocab.last_decl dot_content x else None) as Hdefs
    by (intros x; apply (filter_definitions _ _ _ H1)).
  assert (∀ x, x ∈ UdfFilter.sorted_keys defs <-> x ∈ S) as Hkeys.
  { intros x. rewrite (proj2 (proj2 (sorted_keys_spec defs))), Hdefs.
    destruct (bool_decide (x ∈ S)) eqn:Hx.
    - apply bool_decide_eq_true in Hx. split; [done|]. intros _.
      by apply last_decl_declared, Hdecl.
    - apply bool_decide_eq_false in Hx. split; [by intros [? [=]]|done]. }
  assert (dom defs = S) as Hdom.
  { apply set_eq. intros x.
    by rewrite elem_of_dom, <- (proj2 (proj2 (sorted_keys_spec defs))). }
  (* the filtered table *)
  assert (F = map (fun node_id =>
                     let d := String.append "  " (dict_get defs node_id "") in
                     (node_id,
                      UdfVerifier.NodeData (UdfVerifier.extract_node_attributes d)
                        (strip d)))
                (UdfFilter.sorted_keys defs)) as HF.
  { apply (written_table dot_content original_name S kept H1 Hname).
    apply Forall_forall. intros e He. by apply Hkept. }
  assert (odict_keys F = S) as HFkeys.
  { unfold odict_keys. rewrite HF, map_map. cbn [fst]. rewrite map_id.
    apply set_eq. intros x. by rewrite elem_of_list_to_set. }
  assert (∀ k d, (k, d) ∈ F ->
            ∃ l, Vocab.last_decl dot_content k = Some l
                 ∧ d = UdfVerifier.NodeData
                         (UdfVerifier.extract_node_attributes (String.append "  " l))
                         (strip (String.append "  " l))) as HFin.
  { intros k d. rewrite HF. intros (x & [= -> ->] & Hx)%list_elem_of_fmap.
    pose proof Hx as HxS%Hkeys. apply sorted_keys_spec in Hx as [l Hl].
    exists l. unfold dict_get. rewrite Hl. split; [|done].
    rewrite Hdefs in Hl. by rewrite (bool_decide_true _ HxS) in Hl. }
  (* the filtered edges *)
  assert (UdfVerifier.parse_edges file
          = map (fun e => EdgeInfo (source e) (target e) (edge_type e) (strip (line e)))
              kept) as HE.
  { apply written_edges_read_back; [done| |].
    - intros node_id d l Hd Hl.
      assert (node_id ∈ UdfFilter.sorted_keys defs) as Hin
        by (apply sorted_keys_spec; by exists d).
      rewrite Hdefs in Hd. destruct (bool_decide (node_id ∈ S)); [|done].
      apply last_decl_elem in Hd as [Hd Hn].
      rewrite (lines_one_line (String.append "  " d)) in Hl.
      + apply list_elem_of_singleton in Hl as ->. rewrite strip_indent.
        by apply (node_line_no_edge _ node_id).
      + apply one_line_app. split; [done|by apply (lines_are_one_line dot_content)].
    - apply Forall_forall. intros e He. by apply Hkept. }
  (* the four checks *)
  split; [|split].
  - unfold UdfVerifier.run_verification, UdfVerifier.verification_results.
    fold file. fold O. fold F.
    assert (UdfVerifier.verify_cfg_reachability
              (UdfVerifier.parse_edges dot_content) O F fuel
            = Some (UdfVerifier.Verdict true [])) as ->.
    { unfold UdfVerifier.verify_cfg_reachability.
      rewrite adjacency_agree, <- HU. fold st. rewrite HS. cbn [mbind option_bind].
      rewrite HFkeys, difference_diag_L. by rewrite !decide_True. }
    cbn [mbind option_bind].
    assert (UdfVerifier.verify_edge_filtering O (UdfVerifier.parse_edges file) F
            = UdfVerifier.Verdict true []) as ->.
    { apply edge_filtering_all_valid; rewrite HE, HFkeys, <- ?HU;
        intros e (e' & -> & [Hret _]%Hkept)%list_elem_of_fmap; cbn [source target edge_type];
        intros Hty; destruct Hret as [(Hty' & Hs & Ht)|(Hty' & Hs & Ht)];
        try congruence; done. }
    assert (UdfVerifier.verify_node_integrity O F = UdfVerifier.Verdict true []) as ->.
    { unfold UdfVerifier.verify_node_integrity.
      rewrite integrity_fold_intact; [done|].
      apply Forall_forall. intros [k d] (l & Hl & ->)%HFin.
      exists (UdfVerifier.NodeData (UdfVerifier.extract_node_attributes l) (strip l)).
      split.
      - unfold O. cbn [fst]. by rewrite (parse_nodes_one_line _ _ H1), Hl.
      - cbn [snd UdfVerifier.raw_definition]. by rewrite strip_indent. }
    done.
  - destruct (udf_identification_verdict set_repr O F) as [Hp _]. cbn zeta in Hp.
    assert (Vocab.faithful O F) as Hfaith.
    { intros k d (l & Hl & ->)%HFin.
      exists (UdfVerifier.NodeData (UdfVerifier.extract_node_attributes l) (strip l)).
      split.
      - unfold O. by rewrite (parse_nodes_one_line _ _ H1), Hl.
      - cbn [UdfVerifier.attributes]. by rewrite attributes_indent. }
    destruct (faithful_differences O F (parse_nodes_NoDup dot_content) Hfaith)
      as [Hmiss Hext].
    rewrite Hp, Hmiss, Hext, HFkeys, Hdom, <- HU. split; [by intros [_ ?]|].
    intros H. split; [|done]. intros x Hx. by apply Hseed, elem_of_elements.
  - apply (udf_identification_verdict set_repr O F).
Qed.

Lemma scenario_one_line_declarations : Vocab.one_line_declarations Examples.scenario.
Proof.
  unfold Vocab.one_line_declarations.
  apply (proj1 (Forall_forall
                  (fun l => is_Some (Re.node_match (strip l)) ->
                            endswith Scan.end_mark (strip l) = true) _)).
  let ls := eval vm_compute in (lines Examples.scenario) in
  change (lines Examples.scenario) with ls.
  repeat (apply Forall_cons; split;
          [vm_compute; first [by intros [? [=]] | done]|]).
  constructor.
Defined.

Lemma scenario_edges_join_declared : Vocab.edges_join_declared Examples.scenario.
Proof.
  unfold Vocab.edges_join_declared.
  apply (proj1 (Forall_forall
                  (fun e => Vocab.declared Examples.scenario (source e)
                            ∧ Vocab.declared Examples.scenario (target e)) _)).
  let es := eval vm_compute in (Spec.recognised id (lines Examples.scenario)) in
  change (Spec.recognised id (lines Examples.scenario)) with es.
  repeat (apply Forall_cons; split;
          [split; apply last_decl_declared; vm_compute; by eexists|]).
  constructor.
Defined.

Lemma verifier_accepts_filter_output_witness :
  ∃ node_definitions kept_edges c,
    UdfFilter.filter_udf_subgraph 10 Examples.scenario
    = Some (node_definitions, kept_edges)
    ∧ UdfVerifier.run_verification Examples.set_repr_any 10 Examples.scenario
        (UdfFilter.write_dot_file node_definitions kept_edges "g")
      = Some [ ("udf_identification", c);
               ("cfg_reachability", UdfVerifier.Verdict true []);
               ("edge_filtering", UdfVerifier.Verdict true []);
               ("node_integrity", UdfVerifier.Verdict true []) ]
    ∧ (UdfVerifier.passed c = true
       <-> ∀ x, x ∈ dom node_definitions ->
                x ∈ UdfVerifier.method_ids (UdfVerifier.parse_nodes Examples.scenario) ->
                x ∈ UdfVerifier.udf_ids (UdfVerifier.parse_nodes Examples.scenario))
    ∧ (UdfVerifier.passed c = true -> UdfVerifier.issues c = []).
Proof.
  apply (verifier_accepts_filter_output Examples.set_repr_any 10
           Examples.scenario "g").
  - exact scenario_one_line_declarations.
  - exact scenario_edges_join_declared.
  - reflexivity.
  - vm_compute. lia.
Defined.

End FilterThenVerify.

(** ** The attribute pattern of the subgraph verifier *)

Section OneAttribute.
Import Py.

Lemma quotes_app (a b : string) :
  Vocab.quotes (String.append a b) = Vocab.quotes a + Vocab.quotes b.
Proof.
  induction a as [|c a IH]; [done|]. rewrite app_cons_s. cbn [Vocab.quotes].
  rewrite IH. lia.
Qed.

Lemma quotes_none (s : string) :
  contains (String dquote EmptyString) s = false -> Vocab.quotes s = 0.
Proof.
  induction s as [|c s IH]; [done|]. rewrite contains_unfold.
  cbn [String.prefix Vocab.quotes].
  destruct (ascii_dec dquote c) as [<-|Hne].
  - by destruct s.
  - intros H. rewrite (IH H).
    assert (Ascii.eqb c dquote = false) as -> by (apply Ascii.eqb_neq; congruence).
    done.
Qed.

Lemma quotes_join (parts : list string) :
  Forall (fun p => contains (String dquote EmptyString) p = false) parts ->
  Vocab.quotes (join (String dquote EmptyString) parts) = length parts - 1.
Proof.
  induction 1 as [|p parts Hp Hall IH]; [done|].
  destruct parts as [|q parts].
  - cbn. by rewrite quotes_none.
  - rewrite join_cons2, !quotes_app, (quotes_none p Hp), IH. cbn. lia.
Qed.

Lemma join_app (sep : string) (ps qs : list string) :
  ps ≠ [] -> qs ≠ [] ->
  join sep (ps ++ qs)
  = String.append (join sep ps) (String.append sep (join sep qs)).
Proof.
  intros Hp Hq. induction ps as [|p ps IH]; [done|].
  destruct ps as [|p' ps].
  - destruct qs as [|q qs]; [done|]. cbn [app]. by rewrite join_cons2.
  - cbn [app] in *. rewrite !join_cons2, IH by done. by rewrite !app_assoc_s.
Qed.

(** What [attr_value] returns: the text splits at a quote into the value
    and a rest that holds at most one quote. *)
Lemma attr_value_spec (t value rest : string) :
  SubgraphChecks.attr_value t = Some (value, rest) ->
  t = String.append value (String dquote rest) ∧ Vocab.quotes rest ≤ 1.
Proof.
  unfold SubgraphChecks.attr_value.
  pose proof (join_split dquote t) as Hj.
  pose proof (split_no_sep dquote t) as Hall.
  set (parts := split dquote t) in *.
  destruct (length parts - 1 =? 0)%nat eqn:Hn; [done|].
  apply Nat.eqb_neq in Hn.
  set (m := if Nat.odd (length parts - 1) then length parts - 1
            else length parts - 1 - 1).
  intros [= <- <-].
  assert (0 < m < length parts ∧ length parts - m ≤ 2) as [Hm Hm2].
  { unfold m. destruct (Nat.odd (length parts - 1)) eqn:Ho; [lia|].
    destruct (length parts - 1) as [|[|k]] eqn:Hk; [lia|done|lia]. }
  split.
  - rewrite <- Hj at 1. rewrite <- (firstn_skipn m parts) at 1.
    apply (join_app (String dquote EmptyString)).
    + intros H. apply (f_equal length) in H. rewrite length_firstn in H.
      cbn in H. lia.
    + intros H. apply (f_equal length) in H. rewrite length_skipn in H.
      cbn in H. lia.
  - rewrite quotes_join.
    + rewrite length_skipn. lia.
    + rewrite <- (firstn_skipn m parts) in Hall. by apply Forall_app in Hall as [_ ?].
Qed.

Lemma attr_here_spec (s key value rest : string) :
  SubgraphChecks.attr_here s = Some (key, value, rest) ->
  s = String.append key
        (String.append (String "="%char (String dquote EmptyString))
           (String.append value (String dquote rest)))
  ∧ key ≠ EmptyString
  ∧ Vocab.quotes rest ≤ 1.
Proof.
  unfold SubgraphChecks.attr_here.
  destruct (span SubgraphChecks.word s) as [k r] eqn:Hs.
  apply span_spec in Hs as (-> & _ & _).
  destruct k as [|c k]; [done|].
  destruct (Re.literal _ r) as [t|] eqn:Hl; [|done].
  apply literal_spec in Hl as ->. cbn [mbind option_bind].
  destruct (SubgraphChecks.attr_value t) as [[v rest']|] eqn:Hv; [|done].
  intros [= <- <- <-]. apply attr_value_spec in Hv as [-> Hq]. done.
Qed.

Lemma attr_here_quotes (s : string) :
  Vocab.quotes s ≤ 1 -> SubgraphChecks.attr_here s = None.
Proof.
  intros Hq. destruct (SubgraphChecks.attr_here s) as [[[k v] rest]|] eqn:Hh; [|done].
  apply attr_here_spec in Hh as (-> & _ & _).
  rewrite quotes_app, !app_cons_s, app_nil_l_s in Hq. cbn [Vocab.quotes] in Hq.
  rewrite quotes_app in Hq. cbn [Vocab.quotes] in Hq.
  rewrite Ascii.eqb_refl in Hq. lia.
Qed.

Lemma quotes_drop (n : nat) (s : string) :
  Vocab.quotes (drop n s) ≤ Vocab.quotes s.
Proof.
  revert s. induction n as [|n IH]; intros s; [done|].
  destruct s as [|c s]; [done|]. cbn [drop Vocab.quotes]. specialize (IH s). lia.
Qed.

(** Behind a match no further match is found. *)
Lemma finditer_done (skip : nat) (s : string) (attributes : gmap string string) :
  Vocab.quotes (drop skip s) ≤ 1 ->
  SubgraphChecks.finditer skip s attributes = attributes.
Proof.
  revert skip. induction s as [|c s IH]; intros skip Hq; [done|].
  cbn [SubgraphChecks.finditer]. destruct skip as [|k].
  - cbn [drop] in Hq. rewrite (attr_here_quotes _ Hq). apply IH.
    cbn [drop Vocab.quotes] in *. destruct s; cbn [drop]; lia.
  - apply IH. exact Hq.
Qed.

Lemma length_app_s (a b : string) :
  String.length (String.append a b) = String.length a + String.length b.
Proof.
  induction a as [|c a IH]; rewrite ?app_nil_l_s, ?app_cons_s;
    cbn [String.length]; lia.
Qed.

Lemma drop_length_app (a b : string) :
  drop (String.length (String.append a b) - String.length b) (String.append a b) = b.
Proof.
  assert (String.length (String.append a b) - String.length b = String.length a) as ->
    by (rewrite length_app_s; lia).
  apply drop_app_length.
Qed.

Lemma finditer_first (s : string) :
  SubgraphChecks.finditer 0 s ∅
  = match Vocab.first_attr s with
    | Some (key, value) => {[ key := value ]}
    | None => ∅
    end.
Proof.
  induction s as [|c s IH]; [done|].
  cbn [SubgraphChecks.finditer Vocab.first_attr].
  destruct (SubgraphChecks.attr_here (String c s)) as [[[key value] rest]|] eqn:Hh;
    [|exact IH].
  rewrite finditer_done; [by rewrite insert_empty|].
  apply attr_here_spec in Hh as (Hs & Hk & Hq).
  destruct key as [|k key]; [done|]. rewrite app_cons_s in Hs.
  injection Hs as _ ->.
  rewrite <- !app_assoc_s.
  replace (String.append
             (String.append (String.append key (String "=" (String dquote EmptyString)))
                value) (String dquote rest))
    with (String.append
            (String.append
               (String.append (String.append key (String "=" (String dquote EmptyString)))
                  value) (String dquote EmptyString)) rest)
    by (by rewrite !app_assoc_s).
  by rewrite drop_length_app.
Qed.

(** X13.  The attribute scan of the subgraph verifier never returns more
    than one attribute: the value of the leftmost match runs on to the last
    quote at an odd position behind it, which leaves too few quotes for a
    second match; the dictionary holds that first key and value, or nothing
    when there is no match. *)
Theorem subgraph_attributes_at_most_one (node_definition : string) :
  SubgraphChecks.extract_node_attributes node_definition
  = match Vocab.first_attr node_definition with
    | Some (key, value) => {[ key := value ]}
    | None => ∅
    end
  ∧ size (SubgraphChecks.extract_node_attributes node_definition) ≤ 1.
Proof.
  unfold SubgraphChecks.extract_node_attributes. rewrite finditer_first.
  split; [done|].
  destruct (Vocab.first_attr node_definition) as [[key value]|].
  - rewrite map_size_singleton. lia.
  - rewrite map_size_empty. lia.
Qed.

Lemma subgraph_attributes_indent (l : string) :
  SubgraphChecks.extract_node_attributes (String.append "  " l)
  = SubgraphChecks.extract_node_attributes l.
Proof. reflexivity. Qed.

End OneAttribute.

(** ** The subgraph verifier on what the extractor writes *)

Section ExtractThenVerify.
Import Py.

Lemma one_line_strip (l : string) : Vocab.one_line l -> Vocab.one_line (strip l).
Proof.
  unfold strip. destruct (rstrip_spec l) as (w2 & Hl & _).
  destruct (lstrip_spec (rstrip l)) as (w1 & Hr & _).
  intros H. rewrite Hl in H. apply one_line_app in H as [H _].
  rewrite Hr in H. by apply one_line_app in H as [_ H].
Qed.

Lemma one_line_join (sep : string) (ls : list string) :
  Vocab.one_line sep -> Forall Vocab.one_line ls -> Vocab.one_line (join sep ls).
Proof.
  intros Hsep. induction 1 as [|l ls Hl Hls IH]; [done|].
  destruct ls as [|l' ls]; [done|].
  rewrite join_cons2. apply one_line_app. split; [done|].
  apply one_line_app. by split.
Qed.

(** The file written by [create_simple_subgraph], as pieces each closed by
    a line feed. *)
Lemma create_simple_subgraph_pieces (dot_content : string) (edge_types : list string) :
  let edge_lines :=
    (Extractor.extract_edges_simple dot_content (list_to_set edge_types)).1 in
  let connected_nodes :=
    (Extractor.extract_edges_simple dot_content (list_to_set edge_types)).2 in
  let node_lines := (Extractor.extract_nodes_simple dot_content connected_nodes).1 in
  let found_nodes := (Extractor.extract_nodes_simple dot_content connected_nodes).2 in
  (Extractor.create_simple_subgraph dot_content edge_types).1
  = String.concat ""
      (map (fun p => String.append p (String nl EmptyString))
         ([ String.append "digraph subgraph_"
              (String.append (join "_" edge_types) " {");
            "  // Direct extraction from original DOT file";
            String.append "  // Edge types: " (join ", " edge_types);
            String.append
              (String.append "  // Nodes: "
                 (String.append (pretty (size found_nodes))
                    (String.append ", Edges: " (pretty (length edge_lines)))))
              (String nl EmptyString);
            "  // Node definitions" ]
          ++ map (fun d => String.append "  " d) node_lines
          ++ [ String.append (String nl EmptyString) "  // Edge definitions" ]
          ++ map (fun l => String.append "  " l) edge_lines
          ++ [ "}" ])).
Proof.
  cbn zeta. unfold Extractor.create_simple_subgraph.
  destruct (Extractor.extract_edges_simple dot_content (list_to_set edge_types))
    as [edge_lines connected_nodes].
  cbn [fst snd].
  destruct (Extractor.extract_nodes_simple dot_content connected_nodes)
    as [node_lines found_nodes].
  cbn [fst snd]. unfold Extractor.write_nodes.
  rewrite !map_app, !map_map. cbn [map].
  rewrite (map_ext write_node_def
             (fun d => String.append (String.append "  " d) (String nl EmptyString))).
  2:{ intros d. rewrite write_node_def_indented.
      unfold Spec.indented. by rewrite app_assoc_s. }
  rewrite !concat_nil_cons, !concat_nil_app, !concat_nil_cons.
  change (String.concat "" []) with EmptyString.
  by rewrite !app_assoc_s, ?app_nil_r_s, ?app_nil_l_s.
Qed.

(** The lines of that file. *)
Lemma create_simple_subgraph_lines (dot_content : string) (edge_types : list string) :
  let edge_lines :=
    (Extractor.extract_edges_simple dot_content (list_to_set edge_types)).1 in
  let connected_nodes :=
    (Extractor.extract_edges_simple dot_content (list_to_set edge_types)).2 in
  let node_lines := (Extractor.extract_nodes_simple dot_content connected_nodes).1 in
  let found_nodes := (Extractor.extract_nodes_simple dot_content connected_nodes).2 in
  Forall Vocab.one_line edge_types ->
  Forall Vocab.one_line node_lines ->
  Forall Vocab.one_line edge_lines ->
  lines (Extractor.create_simple_subgraph dot_content edge_types).1
  = [ String.append "digraph subgraph_" (String.append (join "_" edge_types) " {");
      "  // Direct extraction from original DOT file";
      String.append "  // Edge types: " (join ", " edge_types);
      String.append "  // Nodes: "
        (String.append (pretty (size found_nodes))
           (String.append ", Edges: " (pretty (length edge_lines))));
      EmptyString;
      "  // Node definitions" ]
    ++ map (fun d => String.append "  " d) node_lines
    ++ [ EmptyString; "  // Edge definitions" ]
    ++ map (fun l => String.append "  " l) edge_lines
    ++ [ "}"; EmptyString ].
Proof.
  intros edge_lines connected_nodes node_lines found_nodes Htypes Hnodes Hedges.
  rewrite create_simple_subgraph_pieces, lines_terminated.
  fold connected_nodes. fold edge_lines. fold node_lines. fold found_nodes.
  rewrite !map_app, !concat_app. cbn [map concat].
  rewrite lines_app_nl.
  rewrite (lines_one_line (String.append "digraph subgraph_" _)).
  2:{ apply one_line_app. split; [done|]. apply one_line_app.
      split; [by apply one_line_join|done]. }
  rewrite (lines_one_line (String.append "  // Edge types: " _)).
  2:{ apply one_line_app. split; [done|]. by apply one_line_join. }
  rewrite (lines_one_line (String.append "  // Nodes: " _)).
  2:{ apply one_line_app. split; [done|]. apply one_line_app.
      split; [apply pretty_nat_one_line|]. apply one_line_app.
      split; [done|apply pretty_nat_one_line]. }
  rewrite (concat_lines_one_line (map _ node_lines)).
  2:{ apply Forall_fmap. eapply Forall_impl; [exact Hnodes|].
      intros d Hd. cbn. apply one_line_app. by split. }
  rewrite (concat_lines_one_line (map _ edge_lines)).
  2:{ apply Forall_fmap. eapply Forall_impl; [exact Hedges|].
      intros d Hd. cbn. apply one_line_app. by split. }
  change (lines "  // Direct extraction from original DOT file")
    with ["  // Direct extraction from original DOT file"].
  change (lines "  // Node definitions") with ["  // Node definitions"].
  change (lines EmptyString) with [EmptyString].
  change (lines "}") with ["}"].
  change (lines (String.append (String nl EmptyString) "  // Edge definitions"))
    with [EmptyString; "  // Edge definitions"].
  cbn [app]. do 6 f_equal. rewrite <- !app_assoc. cbn [app].
  by rewrite <- !app_assoc.
Qed.

Lemma recognised_none (raw : string -> string) (ls : list string) :
  Forall (fun l => Re.edge_match (strip l) = None) ls -> Spec.recognised raw ls = [].
Proof.
  induction 1 as [|l ls Hl _ IH]; [done|].
  rewrite recognised_cons. unfold Spec.recognise. by rewrite Hl.
Qed.

Lemma extractor_edges (dot_content : string) (edge_types : gset string) :
  Extractor.extract_edges_simple dot_content edge_types
  = (map line (filter (fun e => edge_type e ∈ edge_types)
                 (Spec.recognised strip (lines dot_content))),
     Spec.endpoints (filter (fun e => edge_type e ∈ edge_types)
                       (Spec.recognised strip (lines dot_content)))).
Proof.
  unfold Extractor.extract_edges_simple. rewrite extractor_edges_fold.
  cbn [fst snd app]. by rewrite union_empty_l_L.
Qed.

Lemma expected_nodes_endpoints (es : list edge_info) (acc : gset string) :
  fold_left (fun s e => s ∪ {[source e]} ∪ {[target e]}) es acc
  = acc ∪ Spec.endpoints es.
Proof.
  revert acc. induction es as [|e es IH]; intros acc.
  - unfold Spec.endpoints. cbn. by rewrite union_empty_r_L.
  - cbn [fold_left]. rewrite IH. unfold Spec.endpoints. cbn [map union_list].
    set_solver.
Qed.

Lemma fold_left_fixed {A B} (f : A -> B -> A) (l : list B) (a : A) :
  (∀ x, f a x = a) -> fold_left f l a = a.
Proof. intros H. induction l as [|x l IH]; [done|]. cbn. by rewrite H. Qed.

(** The edge check on the wanted edges themselves. *)
Lemma verify_edges_same (set_repr : gset string -> string) (edge_types : list string)
    (original_edges : list edge_info) :
  SubgraphChecks.verify_edge_extraction set_repr edge_types original_edges
    (filter (fun e => edge_type e ∈ (list_to_set edge_types : gset string))
       original_edges)
  = SubgraphChecks.Report true [].
Proof.
  unfold SubgraphChecks.verify_edge_extraction, SubgraphChecks.original_target_edges.
  set (W := filter _ original_edges).
  rewrite fold_left_fixed by (intros ty; by rewrite Nat.eqb_refl).
  rewrite !difference_diag_L.
  assert ((list_to_set (map edge_type W) ∪ list_to_set edge_types)
          ∖ list_to_set edge_types = (∅ : gset string)) as ->.
  { apply elem_of_equiv_empty_L. intros x [Hx Hn]%elem_of_difference.
    apply elem_of_union in Hx as [Hx|Hx]; [|done].
    apply elem_of_list_to_set, list_elem_of_fmap in Hx as (e & -> & He).
    by apply list_elem_of_filter in He as [? _]. }
  by rewrite !decide_True.
Qed.

Lemma verify_nodes_same (edge_types : list string) (original_edges : list edge_info)
    (extracted_nodes : list (string * SubgraphChecks.node)) :
  odict_keys extracted_nodes
  = Spec.endpoints (filter (fun e => edge_type e ∈ (list_to_set edge_types : gset string))
                      original_edges) ->
  SubgraphChecks.verify_node_extraction edge_types original_edges extracted_nodes
  = SubgraphChecks.Report true [].
Proof.
  intros Hk.
  unfold SubgraphChecks.verify_node_extraction, SubgraphChecks.original_target_edges.
  rewrite expected_nodes_endpoints, union_empty_l_L, Hk, difference_diag_L.
  by rewrite !decide_True.
Qed.

Lemma verify_attributes_same (original_nodes extracted_nodes : list (string * SubgraphChecks.node)) :
  (∀ node_id, node_id ∈ odict_keys original_nodes ->
              node_id ∈ odict_keys extracted_nodes ->
              SubgraphChecks.attributes <$> odict_get node_id original_nodes
              = SubgraphChecks.attributes <$> odict_get node_id extracted_nodes) ->
  SubgraphChecks.verify_node_attributes original_nodes extracted_nodes
  = SubgraphChecks.Report true [].
Proof.
  intros H. unfold SubgraphChecks.verify_node_attributes.
  rewrite (proj2 (filter_nil_iff _ _)); [done|].
  apply Forall_forall. intros node_id [Ho Hx]%elem_of_elements%elem_of_intersection.
  intros Hne. by apply Hne, H.
Qed.

(** The node table of the subgraph verifier for one-line declarations. *)
Lemma subgraph_parse_nodes_one_line (dot_content node_id : string) :
  Vocab.one_line_declarations dot_content ->
  odict_get node_id (SubgraphChecks.parse_nodes dot_content)
  = (fun l => SubgraphChecks.Node (SubgraphChecks.extract_node_attributes l) l)
      <$> Vocab.last_decl dot_content node_id.
Proof.
  intros H1.
  destruct (odict_fold
              (fun full_definition_lines =>
                 SubgraphChecks.Node
                   (SubgraphChecks.extract_node_attributes
                      (join (String nl EmptyString) full_definition_lines))
                   (join (String nl EmptyString) full_definition_lines))
              (Scan.scan_decls (fun _ => true) None (lines dot_content)))
    as [_ Hv].
  change (odict_get node_id (SubgraphChecks.parse_nodes dot_content))
    with (odict_get node_id
            (fold_left
               (fun nodes '(k, w) =>
                  odict_set k
                    (SubgraphChecks.Node
                       (SubgraphChecks.extract_node_attributes
                          (join (String nl EmptyString) w))
                       (join (String nl EmptyString) w)) nodes)
               (Scan.scan_decls (fun _ => true) None (lines dot_content)) [])).
  rewrite Hv, (scan_one_line _ _ H1), reverse_map, <- filter_reverse.
  rewrite (odict_get_map (fun l => [l])), filter_all by done.
  unfold Vocab.last_decl. by destruct (odict_get node_id _).
Qed.

Lemma odict_keys_get {V} (d : list (string * V)) (k : string) :
  k ∈ odict_keys d <-> is_Some (odict_get k d).
Proof.
  unfold odict_keys. rewrite elem_of_list_to_set.
  destruct (odict_get k d) as [v|] eqn:Hg.
  - split; [by eexists|]. intros _. apply odict_get_elem in Hg.
    apply list_elem_of_fmap. by exists (k, v).
  - apply odict_get_None in Hg. split; [done|]. by intros [? [=]].
Qed.

Lemma recognised_signature (raw1 raw2 : string -> string) (ls : list string)
    (e : edge_info) :
  e ∈ Spec.recognised raw1 ls ->
  ∃ e', e' ∈ Spec.recognised raw2 ls ∧ Spec.signature e' = Spec.signature e.
Proof.
  intros (l & Hl & Hm & _)%recognised_elem.
  destruct (Spec.signature e) as [[src tgt] ty] eqn:Hsig.
  exists (EdgeInfo src tgt ty (raw2 l)). split; [|done].
  apply recognised_elem. by exists l.
Qed.

(** X14.  On a graph whose node declarations each sit on one line and whose
    edges join declared nodes, the subgraph verifier run on the original
    and on the file the extractor writes passes its three checks without an
    issue, whatever the order in which it meets the wanted edge types; the
    extractor reports no missing node. *)
Theorem subgraph_verifier_accepts_extraction (set_repr : gset string -> string)
    (edge_types verifier_types : list string) (dot_content : string) :
  Vocab.one_line_declarations dot_content ->
  Vocab.edges_join_declared dot_content ->
  Forall Vocab.one_line edge_types ->
  (∀ ty, ty ∈ verifier_types <-> ty ∈ edge_types) ->
  let out := Extractor.create_simple_subgraph dot_content edge_types in
  SubgraphChecks.run_verification set_repr verifier_types dot_content out.1
  = (true, [ ("edges", SubgraphChecks.Report true []);
             ("nodes", SubgraphChecks.Report true []);
             ("attributes", SubgraphChecks.Report true []) ])
  ∧ out.2.2 = ∅.
Proof.
  intros H1 H2 Htypes Hsame out.
  set (T := (list_to_set edge_types : gset string)).
  assert ((list_to_set verifier_types : gset string) = T) as HT.
  { apply set_eq. intros ty. unfold T. by rewrite !elem_of_list_to_set. }
  set (ls := lines dot_content).
  set (W := filter (fun e => edge_type e ∈ T) (Spec.recognised strip ls)).
  set (D := filter (fun p => bool_decide (p.1 ∈ Spec.endpoints W) = true)
              (omap Vocab.decl_line ls)).
  pose proof (extractor_edges dot_content T) as HE. fold ls in HE. fold W in HE.
  assert (Extractor.extract_nodes_simple dot_content (Spec.endpoints W)
          = (map snd D, list_to_set (map fst D))) as HN.
  { unfold Extractor.extract_nodes_simple, Extractor.node_decls.
    rewrite (scan_one_line _ _ H1). fold ls. fold D.
    rewrite !map_map. cbn [fst snd]. f_equal. }
  (* every wanted edge comes from a line of the input *)
  assert (∀ w, w ∈ W -> ∃ l, l ∈ ls ∧ line w = strip l
                            ∧ Re.edge_match (strip l) = Some (Spec.signature w)) as HW.
  { intros w [_ (l & Hl & Hm & Hr)%recognised_elem]%list_elem_of_filter. by exists l. }
  assert (∀ p, p ∈ D -> p.2 ∈ ls ∧ Re.node_match (strip p.2) = Some p.1
                        ∧ p.1 ∈ Spec.endpoints W) as HD.
  { intros [k l] [Hk (l' & Hl' & Hd)%list_elem_of_omap]%list_elem_of_filter.
    unfold Vocab.decl_line in Hd.
    destruct (Re.node_match (strip l')) as [x|] eqn:Hn; [|done].
    cbn in Hd. injection Hd as -> ->. cbn [fst snd] in *.
    by apply bool_decide_eq_true in Hk. }
  (* every endpoint is declared *)
  assert (∀ x, x ∈ Spec.endpoints W -> Vocab.declared dot_content x) as Hdecl.
  { intros x Hx. unfold Spec.endpoints in Hx.
    apply elem_of_union_list in Hx as (X & HX & Hx).
    apply list_elem_of_fmap in HX as (w & -> & Hw).
    apply list_elem_of_filter in Hw as [_ Hw].
    destruct (recognised_signature strip id _ _ Hw) as (e' & He' & Hsig).
    destruct (H2 e' He') as [Hs Ht]. injection Hsig as Hs' Ht' _.
    rewrite Hs' in Hs. rewrite Ht' in Ht.
    apply elem_of_union in Hx as [->%elem_of_singleton| ->%elem_of_singleton]; done. }
  (* the lines of the written file *)
  assert (lines out.1
          = [ String.append "digraph subgraph_"
                (String.append (join "_" edge_types) " {");
              "  // Direct extraction from original DOT file";
              String.append "  // Edge types: " (join ", " edge_types);
              String.append "  // Nodes: "
                (String.append (pretty (size (list_to_set (map fst D) : gset string)))
                   (String.append ", Edges: " (pretty (length (map line W)))));
              EmptyString;
              "  // Node definitions" ]
            ++ map (fun p => String.append "  " p.2) D
            ++ [ EmptyString; "  // Edge definitions" ]
            ++ map (fun w => String.append "  " (line w)) W
            ++ [ "}"; EmptyString ]) as Hlines.
  { pose proof (create_simple_subgraph_lines dot_content edge_types) as HL.
    cbn zeta in HL. fold T in HL. rewrite HE in HL. cbn [fst snd] in HL.
    rewrite HN in HL. cbn [fst snd] in HL. fold out in HL.
    rewrite HL; [by rewrite !map_map|done| |].
    - apply Forall_fmap, Forall_forall. intros p [Hp _]%HD.
      by apply (lines_are_one_line dot_content).
    - apply Forall_fmap, Forall_forall. intros w (l & Hl & Hline & _)%HW.
      cbn beta. unfold compose. rewrite Hline.
      apply one_line_strip. by apply (lines_are_one_line dot_content). }
  assert (Forall Vocab.inert
            [ String.append "digraph subgraph_"
                (String.append (join "_" edge_types) " {");
              "  // Direct extraction from original DOT file";
              String.append "  // Edge types: " (join ", " edge_types);
              String.append "  // Nodes: "
                (String.append (pretty (size (list_to_set (map fst D) : gset string)))
                   (String.append ", Edges: " (pretty (length (map line W)))));
              EmptyString;
              "  // Node definitions" ]) as Hhead.
  { apply Forall_cons. split; [by apply (inert_head "d")|].
    apply Forall_cons. split; [by vm_compute|].
    apply Forall_cons. split; [by apply (inert_indent (String "/" _)), inert_head|].
    apply Forall_cons. split; [by apply (inert_indent (String "/" _)), inert_head|].
    apply Forall_cons. split; [by vm_compute|].
    apply Forall_cons. split; [by vm_compute|]. constructor. }
  assert (Forall Vocab.inert [ EmptyString; "  // Edge definitions" ]) as Hmid.
  { apply Forall_cons. split; [by vm_compute|].
    apply Forall_cons. split; [by vm_compute|]. constructor. }
  assert (Forall Vocab.inert [ "}"; EmptyString ]) as Hend.
  { apply Forall_cons. split; [by vm_compute|].
    apply Forall_cons. split; [by vm_compute|]. constructor. }
  (* the edges read back *)
  assert (SubgraphVerifier.parse_edges out.1 = W) as HXe.
  { rewrite sub_parse_edges_spec, Hlines, !recognised_app.
    rewrite (recognised_inert strip _ Hhead).
    change (Spec.recognised strip [EmptyString; "  // Edge definitions"])
      with (@nil edge_info).
    change (Spec.recognised strip ["}"; EmptyString]) with (@nil edge_info).
    rewrite (recognised_none strip (map (fun p => String.append "  " p.2) D)).
    2:{ apply Forall_fmap, Forall_forall.
        intros p (_ & Hn & _)%HD. cbn beta. unfold compose. rewrite strip_indent.
        by apply (node_line_no_edge _ p.1). }
    cbn [app]. rewrite app_nil_r.
    assert (∀ es, (∀ w, w ∈ es -> w ∈ W) ->
              Spec.recognised strip (map (fun w => String.append "  " (line w)) es) = es)
      as Hback; [|by apply Hback].
    induction es as [|w es IH]; intros Hes; [done|].
    cbn [map]. rewrite recognised_cons, IH by (intros w' Hw'; apply Hes; by right).
    destruct (HW w (Hes w ltac:(by left))) as (l & _ & Hline & Hm).
    unfold Spec.recognise. rewrite strip_indent, Hline, strip_idem, Hm.
    destruct w as [src tgt ty raw]. cbn in *. by rewrite Hline. }
  (* the nodes read back *)
  assert (∀ node_id,
            odict_get node_id (SubgraphChecks.parse_nodes out.1)
            = (fun l => SubgraphChecks.Node
                          (SubgraphChecks.extract_node_attributes (String.append "  " l))
                          (String.append "  " l))
                <$> (if bool_decide (node_id ∈ Spec.endpoints W)
                     then Vocab.last_decl dot_content node_id else None)) as HXn.
  { intros node_id.
    destruct (odict_fold
                (fun full_definition_lines =>
                   SubgraphChecks.Node
                     (SubgraphChecks.extract_node_attributes
                        (join (String nl EmptyString) full_definition_lines))
                     (join (String nl EmptyString) full_definition_lines))
                (Scan.scan_decls (fun _ => true) None (lines out.1)))
      as [_ Hv].
    change (odict_get node_id (SubgraphChecks.parse_nodes out.1))
      with (odict_get node_id
              (fold_left
                 (fun nodes '(k, w) =>
                    odict_set k
                      (SubgraphChecks.Node
                         (SubgraphChecks.extract_node_attributes
                            (join (String nl EmptyString) w))
                         (join (String nl EmptyString) w)) nodes)
                 (Scan.scan_decls (fun _ => true) None (lines out.1)) [])).
    rewrite Hv, Hlines. clear Hv.
    rewrite (scan_decls_skip _ [_; _; _; _; _; _])
      by (eapply Forall_impl; [exact Hhead|]; by intros l [_ ?]).
    rewrite (scan_decl_lines (fun p => String.append "  " p.2) fst).
    2:{ intros p (Hl & Hn & _)%HD. rewrite strip_indent. split; [done|].
        apply H1; [done|]. by rewrite Hn. }
    rewrite <- (app_nil_r (_ ++ _ ++ [ "}"; _])), scan_decls_skip.
    2:{ apply Forall_app. split.
        - eapply Forall_impl; [exact Hmid|]. by intros l [_ ?].
        - apply Forall_app. split.
          + apply Forall_fmap, Forall_forall. intros w (l & _ & Hline & Hm)%HW.
            cbn beta. unfold compose. rewrite strip_indent, Hline, strip_idem.
            by apply (edge_line_no_node _ (Spec.signature w)).
          + eapply Forall_impl; [exact Hend|]. by intros l [_ ?]. }
    cbn [Scan.scan_decls]. rewrite app_nil_r, reverse_map.
    rewrite (odict_get_map (fun l => [String.append "  " l]) (reverse D)).
    unfold D. rewrite <- filter_reverse.
    pose proof (odict_get_filter (fun x => bool_decide (x ∈ Spec.endpoints W))
                  (reverse (omap Vocab.decl_line ls)) node_id) as E.
    cbn beta in E. rewrite E. clear E.
    destruct (bool_decide _); [|done].
    unfold Vocab.last_decl. fold ls. by destruct (odict_get node_id _). }
  assert (odict_keys (SubgraphChecks.parse_nodes out.1) = Spec.endpoints W) as HXk.
  { apply set_eq. intros x. rewrite odict_keys_get, HXn.
    destruct (bool_decide (x ∈ Spec.endpoints W)) eqn:Hx.
    - apply bool_decide_eq_true in Hx. split; [done|]. intros _.
      apply Hdecl, last_decl_declared in Hx as [l ->]. by eexists.
    - apply bool_decide_eq_false in Hx. split; [by intros [? [=]]|done]. }
  split.
  - unfold SubgraphChecks.run_verification, SubgraphChecks.verification_results.
    rewrite HXe, (sub_parse_edges_spec dot_content). fold ls.
    assert (W = filter (fun e => edge_type e ∈ (list_to_set verifier_types : gset string))
                  (Spec.recognised strip ls)) as HW' by (by rewrite HT).
    assert (SubgraphChecks.verify_edge_extraction set_repr verifier_types
              (Spec.recognised strip ls) W = SubgraphChecks.Report true []) as ->
      by (rewrite HW'; apply verify_edges_same).
    assert (SubgraphChecks.verify_node_extraction verifier_types
              (Spec.recognised strip ls) (SubgraphChecks.parse_nodes out.1)
            = SubgraphChecks.Report true []) as ->
      by (apply verify_nodes_same; by rewrite HXk, HT).
    assert (SubgraphChecks.verify_node_attributes
              (SubgraphChecks.parse_nodes dot_content)
              (SubgraphChecks.parse_nodes out.1)
            = SubgraphChecks.Report true []) as ->; [|done].
    apply verify_attributes_same.
    intros node_id _ Hx. rewrite HXk in Hx.
    rewrite HXn, (subgraph_parse_nodes_one_line _ _ H1), (bool_decide_true _ Hx).
    by destruct (Vocab.last_decl dot_content node_id).
  - unfold out, Extractor.create_simple_subgraph. fold T. rewrite HE, HN.
    cbn [fst snd]. apply elem_of_equiv_empty_L.
    intros x [Hx Hn]%elem_of_difference. apply Hn.
    apply elem_of_list_to_set, list_elem_of_fmap.
    pose proof Hx as [l Hl]%Hdecl%last_decl_declared.
    exists (x, l). split; [done|]. unfold D. apply list_elem_of_filter.
    split; [by apply bool_decide_eq_true|].
    by apply elem_of_reverse, odict_get_elem.
Qed.

Lemma subgraph_verifier_accepts_extraction_witness :
  let out := Extractor.create_simple_subgraph Examples.scenario ["CFG"; "CALL"] in
  SubgraphChecks.run_verification Examples.set_repr_any ["CALL"; "CFG"]
    Examples.scenario out.1
  = (true, [ ("edges", SubgraphChecks.Report true []);
             ("nodes", SubgraphChecks.Report true []);
             ("attributes", SubgraphChecks.Report true []) ])
  ∧ out.2.2 = ∅.
Proof.
  apply (subgraph_verifier_accepts_extraction Examples.set_repr_any
           ["CFG"; "CALL"] ["CALL"; "CFG"] Examples.scenario).
  - exact scenario_one_line_declarations.
  - exact scenario_edges_join_declared.
  - repeat constructor.
  - intros ty. rewrite !elem_of_cons, !elem_of_nil. tauto.
Defined.

End ExtractThenVerify.

(** ** Further facts about the extractor and the two verifiers *)

Section MoreFacts.
Import Py.

Lemma recognised_ext (raw1 raw2 : string -> string) (ls : list string) :
  (∀ l, raw1 l = raw2 l) -> Spec.recognised raw1 ls = Spec.recognised raw2 ls.
Proof.
  intros H. induction ls as [|l ls IH]; [done|].
  rewrite !recognised_cons, IH. unfold Spec.recognise. by rewrite H.
Qed.

Lemma recognised_signatures (raw1 raw2 : string -> string) (ls : list string) :
  map Spec.signature (Spec.recognised raw1 ls)
  = map Spec.signature (Spec.recognised raw2 ls).
Proof.
  induction ls as [|l ls IH]; [done|].
  rewrite !recognised_cons. unfold Spec.recognise.
  destruct (Re.edge_match (strip l)) as [[[src tgt] ty]|]; [|done].
  cbn [map]. by rewrite IH.
Qed.

(** X15.  The edge passes read the same edges: the two verifiers parse the
    same edge list from a text (stripping the stripped line a second time,
    as the UDF verifier does, changes nothing), and the filter finds the
    same edges in the same order, keeping the unstripped line as their
    text. *)
Theorem edge_passes_agree (dot_content : string) :
  UdfVerifier.parse_edges dot_content = SubgraphVerifier.parse_edges dot_content
  ∧ map Spec.signature
      (UdfFilter.edge_lines (UdfFilter.extract_edges_simple dot_content))
    = map Spec.signature (SubgraphVerifier.parse_edges dot_content)
  ∧ Forall2 (fun kept parsed => strip (line kept) = line parsed)
      (UdfFilter.edge_lines (UdfFilter.extract_edges_simple dot_content))
      (SubgraphVerifier.parse_edges dot_content).
Proof.
  rewrite udf_parse_edges_spec, sub_parse_edges_spec.
  destruct (filter_edges_spec dot_content) as (-> & _).
  split; [|split].
  - apply recognised_ext. intros l. apply strip_idem.
  - apply recognised_signatures.
  - induction (lines dot_content) as [|l ls IH]; [constructor|].
    rewrite !recognised_cons. unfold Spec.recognise.
    destruct (Re.edge_match (strip l)) as [[[src tgt] ty]|]; [|done].
    by constructor.
Qed.

Lemma fold_left_fixed_in {A B} (f : A -> B -> A) (l : list B) (a : A) :
  (∀ x, x ∈ l -> f a x = a) -> fold_left f l a = a.
Proof.
  induction l as [|x l IH]; intros H; [done|]. cbn [fold_left].
  rewrite H by (by left). apply IH. intros y Hy. apply H. by right.
Qed.

(** When the edge check passes. *)
Lemma verify_edges_pass (set_repr : gset string -> string) (edge_types : list string)
    (original_edges extracted_edges : list edge_info) :
  let wanted :=
    filter (fun e => edge_type e ∈ (list_to_set edge_types : gset string))
      original_edges in
  (∀ ty, ty ∈ edge_types ->
         length (SubgraphChecks.by_type wanted ty)
         = length (SubgraphChecks.by_type extracted_edges ty)) ->
  (∀ e, e ∈ extracted_edges -> edge_type e ∈ edge_types) ->
  (list_to_set (map SubgraphVerifier.edge_sig wanted) : gset string)
  = list_to_set (map SubgraphVerifier.edge_sig extracted_edges) ->
  SubgraphChecks.verify_edge_extraction set_repr edge_types original_edges extracted_edges
  = SubgraphChecks.Report true [].
Proof.
  intros wanted Hcount Htypes Hsigs.
  unfold SubgraphChecks.verify_edge_extraction, SubgraphChecks.original_target_edges.
  fold wanted. rewrite fold_left_fixed_in.
  2:{ intros ty Hty. rewrite (Hcount ty Hty). by rewrite Nat.eqb_refl. }
  rewrite Hsigs, !difference_diag_L.
  assert ((list_to_set (map edge_type extracted_edges) ∪ list_to_set edge_types)
          ∖ list_to_set edge_types = (∅ : gset string)) as ->.
  { apply elem_of_equiv_empty_L. intros x [Hx Hn]%elem_of_difference.
    apply elem_of_union in Hx as [Hx|Hx]; [|done].
    apply elem_of_list_to_set, list_elem_of_fmap in Hx as (e & -> & He).
    apply Hn, elem_of_list_to_set. by apply Htypes. }
  by rewrite !decide_True.
Qed.

(** X16.  The edge check of the subgraph verifier compares edges by the
    string source, arrow, target, colon, type: an edge whose target holds an
    arrow and the edge that splits its ids at the other arrow have the same
    string, so the check passes on them although the edges differ. *)
Theorem edge_check_confuses_arrows (set_repr : gset string -> string)
    (a b c ty raw1 raw2 : string) :
  let original := EdgeInfo a (String.append b (String.append "->" c)) ty raw1 in
  let extracted := EdgeInfo (String.append a (String.append "->" b)) c ty raw2 in
  SubgraphChecks.verify_edge_extraction set_repr [ty] [original] [extracted]
  = SubgraphChecks.Report true []
  ∧ Spec.signature original ≠ Spec.signature extracted.
Proof.
  intros original extracted.
  assert (filter (fun e => edge_type e ∈ (list_to_set [ty] : gset string)) [original]
          = [original]) as Hw.
  { rewrite filter_cons, decide_True; [done|]. cbn. set_solver. }
  split.
  - apply verify_edges_pass; rewrite ?Hw.
    + intros ty' Hty'. unfold SubgraphChecks.by_type. rewrite !filter_cons. cbn.
      by destruct (decide (ty = ty')).
    + intros e ->%list_elem_of_singleton. cbn. by left.
    + cbn [map]. f_equal. f_equal. unfold SubgraphVerifier.edge_sig. cbn.
      by rewrite !app_assoc_s.
  - unfold Spec.signature. cbn. intros [= Ha _].
    apply (f_equal String.length) in Ha. rewrite !length_app_s in Ha. cbn in Ha. lia.
Qed.



End MoreFacts.

(** ** The schema report *)

Section Schema.
Import Py.

(** X18.  The node starts of the schema report against those of the other
    scanners: a line it takes as a node start holds no arrow, and its id is
    the id the other scanners read off the stripped line, unless the id is
    empty, which only the schema report accepts; a line it rejects holds an
    arrow somewhere, also inside a quoted value, or is no node start for the
    other scanners either. *)
Theorem node_start_agreement (l : string) :
  match SchemaReport._node_start l with
  | Some (node_id, _) =>
      contains "->" (strip l) = false
      ∧ Re.node_match (strip l)
        = match node_id with EmptyString => None | _ => Some node_id end
  | None =>
      contains "->" (strip l) = true ∨ Re.node_match (strip l) = None
  end.
Proof.
  unfold SchemaReport._node_start, Re.node_match, Re.quoted_id.
  destruct (strip l) as [|c r] eqn:Hs; [by right|].
  destruct (Ascii.eqb c dquote) eqn:Hc; cbn [negb]; [|by right].
  destruct (contains "->" (String c r)) eqn:Harrow; [by left|].
  destruct (span Re.notquote r) as [node_id b] eqn:Hsp.
  destruct b as [|q r1].
  - right. by destruct node_id.
  - assert (q = dquote) as ->.
    { apply span_spec in Hsp as (_ & _ & Hq). unfold Re.notquote in Hq.
      by apply negb_false_iff, Ascii.eqb_eq in Hq. }
    rewrite Ascii.eqb_refl.
    assert (∀ x, Re.literal "[" (String "["%char x) = Some x) as Hlit
      by (intros x; by apply literal_spec).
    assert (∀ c2 x, Ascii.eqb c2 "["%char = false ->
                    Re.literal "[" (String c2 x) = None) as Hnot.
    { intros c2 x Hc2. destruct (Re.literal "[" (String c2 x)) as [y|] eqn:Hy; [|done].
      apply literal_spec in Hy. injection Hy as -> _. done. }
    assert (Re.literal "[" (Re.skip_ws r1)
            = match Re.skip_ws r1 with
              | String c2 r2 => if Ascii.eqb c2 "["%char then Some r2 else None
              | EmptyString => None
              end) as Hbr.
    { destruct (Re.skip_ws r1) as [|c2 r2]; [done|].
      destruct (Ascii.eqb c2 "["%char) eqn:Hc2.
      - apply Ascii.eqb_eq in Hc2 as ->. apply Hlit.
      - by apply Hnot. }
    destruct node_id as [|a node_id]; cbn [mbind option_bind]; rewrite ?Hbr;
      destruct (Re.skip_ws r1) as [|c2 r2]; try (by right);
      destruct (Ascii.eqb c2 "["%char); try (by right); by split.
Qed.

Lemma file_props_snoc (nodes : list (gmap string string)) (attrs : gmap string string) :
  SchemaProps.file_props (nodes ++ [attrs])
  = SchemaProps._update_file_props (SchemaProps.file_props nodes) attrs.
Proof. unfold SchemaProps.file_props. by rewrite fold_left_app. Qed.

(** X19.  The property sets of a file: the types are the labels of its
    nodes; for each type the "any" set is the union and the "all" set the
    intersection of the key sets, the key label left out, of the nodes of
    that type, so the "all" set lies in the "any" set; no set is kept for a
    type without a node. *)
Theorem file_props_union_and_intersection (nodes : list (gmap string string)) :
  let r := SchemaProps.file_props nodes in
  (∀ T, T ∈ SchemaProps.types_in_file r
        <-> ∃ attrs, attrs ∈ nodes ∧ attrs !! "label" = Some T)
  ∧ (∀ T, T ∈ SchemaProps.types_in_file r ->
          ∃ A B, SchemaProps.p_any r !! T = Some A
                 ∧ SchemaProps.p_all r !! T = Some B
                 ∧ (∀ k, k ∈ A <-> k ≠ "label"
                                   ∧ ∃ attrs, attrs ∈ nodes
                                              ∧ attrs !! "label" = Some T
                                              ∧ k ∈ dom attrs)
                 ∧ (∀ k, k ∈ B <-> k ≠ "label"
                                   ∧ ∀ attrs, attrs ∈ nodes ->
                                              attrs !! "label" = Some T ->
                                              k ∈ dom attrs)
                 ∧ B ⊆ A)
  ∧ (∀ T, T ∉ SchemaProps.types_in_file r ->
          SchemaProps.p_any r !! T = None ∧ SchemaProps.p_all r !! T = None).
Proof.
  cbn zeta. induction nodes as [|attrs nodes (IHt & IHs & IHn)] using rev_ind.
  - split; [|split].
    + intros T. split; [set_solver|]. intros (a & Ha & _). by apply elem_of_nil in Ha.
    + intros T HT. set_solver.
    + done.
  - rewrite file_props_snoc. set (r := SchemaProps.file_props nodes) in *.
    unfold SchemaProps._update_file_props.
    destruct (attrs !! "label") as [ty|] eqn:Hlabel.
    2:{ (* a node without a label changes nothing *)
        assert (∀ T, (∃ a, a ∈ nodes ++ [attrs] ∧ a !! "label" = Some T)
                     <-> ∃ a, a ∈ nodes ∧ a !! "label" = Some T) as Hsame.
        { intros T. split.
          - intros (a & [Ha| ->%list_elem_of_singleton]%elem_of_app & HT);
              [by exists a|congruence].
          - intros (a & Ha & HT). exists a. split; [|done]. apply elem_of_app. by left. }
        split; [|split]; [|
          |done].
        - intros T. by rewrite Hsame, IHt.
        - intros T HT. destruct (IHs T HT) as (A & B & HA & HB & HAk & HBk & Hsub).
          exists A, B. split; [done|]. split; [done|]. split; [|split; [|done]].
          + intros k. rewrite HAk. split.
            * intros [? (a & Ha & ? & ?)]. split; [done|]. exists a.
              split; [|done]. apply elem_of_app. by left.
            * intros [? (a & [Ha| ->%list_elem_of_singleton]%elem_of_app & Hl & ?)];
                [|congruence]. split; [done|]. by exists a.
          + intros k. rewrite HBk. split.
            * intros [? H]. split; [done|].
              intros a [Ha| ->%list_elem_of_singleton]%elem_of_app Hl;
                [by apply H|congruence].
            * intros [? H]. split; [done|]. intros a Ha Hl. apply H; [|done].
              apply elem_of_app. by left. }
    cbn [SchemaProps.types_in_file SchemaProps.p_any SchemaProps.p_all].
    assert (∀ T, T ∈ SchemaProps.types_in_file r ∪ {[ty]}
                 <-> ∃ a, a ∈ nodes ++ [attrs] ∧ a !! "label" = Some T) as Ht.
    { intros T. rewrite elem_of_union, IHt, elem_of_singleton. split.
      - intros [(a & Ha & HT)| ->].
        + exists a. split; [|done]. apply elem_of_app. by left.
        + exists attrs. split; [|done]. apply elem_of_app. right. by left.
      - intros (a & [Ha| ->%list_elem_of_singleton]%elem_of_app & HT).
        + left. by exists a.
        + right. congruence. }
    split; [exact Ht|]. split.
    + intros T HT. destruct (decide (T = ty)) as [->|Hne].
      * (* the type of the new node *)
        destruct (decide (ty ∈ SchemaProps.types_in_file r)) as [Hold|Hnew].
        -- destruct (IHs ty Hold) as (A & B & HA & HB & HAk & HBk & Hsub).
           rewrite HA, HB. cbn [default].
           exists (A ∪ dom attrs ∖ {["label"]}), (B ∩ (dom attrs ∖ {["label"]})).
           rewrite !lookup_insert, !decide_True by done.
           split; [done|]. split; [done|]. split; [|split; [|set_solver]].
           ++ intros k. rewrite elem_of_union, HAk, elem_of_difference,
                not_elem_of_singleton. split.
              ** intros [[? (a & Ha & ? & ?)]|[? ?]]; (split; [done|]).
                 --- exists a. split; [|done]. apply elem_of_app. by left.
                 --- exists attrs. split; [|done]. apply elem_of_app. right. by left.
              ** intros [? (a & [Ha| ->%list_elem_of_singleton]%elem_of_app & ? & ?)].
                 --- left. split; [done|]. by exists a.
                 --- by right.
           ++ intros k. rewrite elem_of_intersection, HBk, elem_of_difference,
                not_elem_of_singleton. split.
              ** intros [[? H] [? ?]]. split; [done|].
                 intros a [Ha| ->%list_elem_of_singleton]%elem_of_app Hl;
                   [by apply H|done].
              ** intros [? H]. split; [split; [done|]|split; [|done]].
                 --- intros a Ha Hl. apply H; [|done]. apply elem_of_app. by left.
                 --- apply H; [|done]. apply elem_of_app. right. by left.
        -- destruct (IHn ty Hnew) as [HA HB]. rewrite HA, HB. cbn [default].
           exists (∅ ∪ dom attrs ∖ {["label"]}), (dom attrs ∖ {["label"]}).
           rewrite !lookup_insert, !decide_True by done.
           split; [done|]. split; [done|].
           assert (∀ a, a ∈ nodes -> a !! "label" ≠ Some ty) as Hnone.
           { intros a Ha Hl. apply Hnew, IHt. by exists a. }
           split; [|split; [|set_solver]].
           ++ intros k. rewrite elem_of_union, elem_of_difference,
                not_elem_of_singleton. split.
              ** intros [?|[? ?]]; [set_solver|]. split; [done|].
                 exists attrs. split; [|done]. apply elem_of_app. right. by left.
              ** intros [? (a & [Ha| ->%list_elem_of_singleton]%elem_of_app & Hl & ?)];
                   [by destruct (Hnone a Ha)|by right].
           ++ intros k. rewrite elem_of_difference, not_elem_of_singleton. split.
              ** intros [? ?]. split; [done|].
                 intros a [Ha| ->%list_elem_of_singleton]%elem_of_app Hl;
                   [by destruct (Hnone a Ha)|done].
              ** intros [? H]. split; [|done]. apply H; [|done].
                 apply elem_of_app. right. by left.
      * (* another type *)
        assert (T ∈ SchemaProps.types_in_file r) as Hold by set_solver.
        destruct (IHs T Hold) as (A & B & HA & HB & HAk & HBk & Hsub).
        exists A, B.
        assert (∀ a, a ∈ nodes ++ [attrs] -> a !! "label" = Some T -> a ∈ nodes) as Hin.
        { intros a [Ha| ->%list_elem_of_singleton]%elem_of_app Hl; [done|congruence]. }
        split; [by rewrite lookup_insert_ne|]. split.
        { destruct (SchemaProps.p_all r !! ty); by rewrite lookup_insert_ne. }
        split; [|split; [|done]].
        -- intros k. rewrite HAk. split.
           ++ intros [? (a & Ha & ? & ?)]. split; [done|]. exists a.
              split; [|done]. apply elem_of_app. by left.
           ++ intros [? (a & Ha & Hl & ?)]. split; [done|]. exists a.
              split; [by apply Hin|done].
        -- intros k. rewrite HBk. split.
           ++ intros [? H]. split; [done|]. intros a Ha Hl. apply H; [by apply Hin|done].
           ++ intros [? H]. split; [done|]. intros a Ha Hl. apply H; [|done].
              apply elem_of_app. by left.
    + intros T HT. apply not_elem_of_union in HT as [HT Hne%not_elem_of_singleton].
      destruct (IHn T HT) as [HA HB]. split; [by rewrite lookup_insert_ne|].
      destruct (SchemaProps.p_all r !! ty); by rewrite lookup_insert_ne.
Qed.

End Schema.
